(** * Extended OpenAI Conversation: the conversation agent

    A shallow embedding of
    [custom_components/extended_openai_conversation/__init__.py]:
    the entry set-up and unloading, the conversation turn
    ([async_process]), the query / function-call recursion ([query],
    [execute_function_call], [execute_function]) and the post-processing
    of the model's text ([extract_json_objects], [remove_json_objects]).

    Python strings are [string]s (characters are 8-bit), Python lists are
    lists, the per-conversation history is a [gmap] from conversation id to
    a list object in a small heap (the code shares the stored list with the
    running turn), and everything the host platform, the LLM client and the
    Python libraries do is an operation of the class [Host]. *)

From Stdlib Require Import String Ascii List Bool ZArith Lia.
From stdpp Require Import gmap strings.

Open Scope string_scope.
Open Scope list_scope.

#[global] Arguments String.append !s1 s2 / : simpl nomatch.

(* ===================================================================== *)
(** * Python string operations used by the agent *)
(* ===================================================================== *)

Module PyStr.

(** The line feed, the one character the regex [.] does not match. *)
Definition nl : ascii := "010"%char.

(** [old in s] for strings. *)
Fixpoint contains (old s : string) : bool :=
  String.prefix old s ||
  match s with
  | EmptyString => false
  | String _ s' => contains old s'
  end.

(** [s.replace(c, '')] for a one-character [c]. *)
Fixpoint remove_char (c : ascii) (s : string) : string :=
  match s with
  | EmptyString => EmptyString
  | String d s' =>
      if Ascii.eqb d c then remove_char c s' else String d (remove_char c s')
  end.

(** What is left of [s] after its prefix [old], if [old] is a prefix. *)
Fixpoint strip_prefix (old s : string) : option string :=
  match old, s with
  | EmptyString, _ => Some s
  | String o old', String c s' =>
      if Ascii.eqb c o then strip_prefix old' s' else None
  | String _ _, EmptyString => None
  end.

(** [s.replace(old, '')] for a non-empty [old]: the occurrences of [old]
    are found from the left, without overlap, and deleted.  The inner
    loop compares [old] with the text at the current position. *)
Fixpoint replace_del (old s : string) {struct s} : string :=
  match s with
  | EmptyString => EmptyString
  | String c s' =>
      match old with
      | EmptyString => s
      | String o0 orest =>
          if Ascii.eqb c o0 then
            (fix eat (o t : string) {struct t} : string :=
               match o with
               | EmptyString => replace_del old t
               | String oc o' =>
                   match t with
                   | EmptyString => String c (replace_del old s')
                   | String tc t' =>
                       if Ascii.eqb tc oc then eat o' t'
                       else String c (replace_del old s')
                   end
               end) orest s'
          else String c (replace_del old s')
      end
  end.

(** [str.isspace] on the characters below U+0100. *)
Definition is_space (c : ascii) : bool :=
  let n := nat_of_ascii c in
  (((9 <=? n) && (n <=? 13)) || ((28 <=? n) && (n <=? 32))
  || (n =? 133) || (n =? 160))%nat.

Fixpoint lstrip (s : string) : string :=
  match s with
  | EmptyString => EmptyString
  | String c s' => if is_space c then lstrip s' else s
  end.

(** [rstrip]: a character is kept when it is not a space or when
    something is kept after it. *)
Fixpoint rstrip (s : string) : string :=
  match s with
  | EmptyString => EmptyString
  | String c s' =>
      match rstrip s' with
      | EmptyString => if is_space c then EmptyString else String c EmptyString
      | r => String c r
      end
  end.

(** [s.strip()]. *)
Definition strip (s : string) : string := rstrip (lstrip s).

(** [s.split(sep)] for a one-character separator: [cur] is the field
    being read. *)
Fixpoint split_aux (sep : ascii) (cur : string -> string) (s : string)
  : list string :=
  match s with
  | EmptyString => [cur EmptyString]
  | String c s' =>
      if Ascii.eqb c sep then cur EmptyString :: split_aux sep (fun r => r) s'
      else split_aux sep (fun r => cur (String c r)) s'
  end.

Definition split (sep : ascii) (s : string) : list string :=
  split_aux sep (fun r => r) s.

End PyStr.

(* ===================================================================== *)
(** * The regular expression [\{.*?\}] *)
(* ===================================================================== *)

Module Re.

(** One step of the scan of [re.finditer]: a character that is in no
    match, or a match. *)
Inductive piece := Gap (c : ascii) | Hit (m : string).

(** [.*?\}] tried on [t]: the characters taken by the lazy [.*?] and what
    follows the closing brace.  [.] does not match the line feed, so the
    attempt fails at a line feed and at the end of the text. *)
Fixpoint lazy_body (t : string) : option (string * string) :=
  match t with
  | EmptyString => None
  | String d t' =>
      if Ascii.eqb d "}" then Some (EmptyString, t')
      else if Ascii.eqb d PyStr.nl then None
      else match lazy_body t' with
           | Some (m, r) => Some (String d m, r)
           | None => None
           end
  end.

(** The scan of [json_pattern = r'\{.*?\}'] over a text: positions are
    tried from the left; at an opening brace the lazy body is tried; a
    match is emitted and the scan resumes after it, a failed attempt
    resumes at the next character. *)
Fixpoint finditer (s : string) : list piece :=
  match s with
  | EmptyString => []
  | String c s' =>
      if Ascii.eqb c "{" then
        (fix body (acc : string -> string) (t : string) {struct t}
           : list piece :=
           match t with
           | EmptyString => Gap c :: finditer s'
           | String d t' =>
               if Ascii.eqb d "}" then Hit (acc "}") :: finditer t'
               else if Ascii.eqb d PyStr.nl then Gap c :: finditer s'
               else body (fun r => acc (String d r)) t'
           end) (fun r => String c r) s'
      else Gap c :: finditer s'
  end.

(** [re.findall(json_pattern, text)]. *)
Fixpoint hits (ps : list piece) : list string :=
  match ps with
  | [] => []
  | Gap _ :: ps' => hits ps'
  | Hit m :: ps' => m :: hits ps'
  end.

Definition findall (s : string) : list string := hits (finditer s).

(** [re.sub(json_pattern, '', text)]. *)
Fixpoint gaps (ps : list piece) : string :=
  match ps with
  | [] => EmptyString
  | Gap c :: ps' => String c (gaps ps')
  | Hit _ :: ps' => gaps ps'
  end.

Definition sub_empty (s : string) : string := gaps (finditer s).

End Re.

(* ===================================================================== *)
(** * Python values read from JSON *)
(* ===================================================================== *)

(** A number keeps its literal: the agent never computes with one. *)
#[warnings="-register-all"]
Inductive json :=
| JNull
| JBool (b : bool)
| JNum (lit : string)
| JStr (s : string)
| JArr (xs : list json)
| JObj (kvs : list (string * json)).

(** A Python [dict] with string keys: the keys are distinct and kept in
    insertion order. *)
Definition dict := list (string * json).

Module Dict.

Fixpoint get (k : string) (d : dict) : option json :=
  match d with
  | [] => None
  | (k', v) :: d' => if String.eqb k' k then Some v else get k d'
  end.

(** [d[k] = v]: an existing key keeps its place. *)
Fixpoint set (k : string) (v : json) (d : dict) : dict :=
  match d with
  | [] => [(k, v)]
  | (k', v') :: d' =>
      if String.eqb k' k then (k, v) :: d' else (k', v') :: set k v d'
  end.

Fixpoint del (k : string) (d : dict) : dict :=
  match d with
  | [] => []
  | (k', v) :: d' => if String.eqb k' k then d' else (k', v) :: del k d'
  end.

(** [d.pop(k)]: [None] stands for the [KeyError]. *)
Definition pop (k : string) (d : dict) : option (json * dict) :=
  match get k d with
  | Some v => Some (v, del k d)
  | None => None
  end.

(** The loop [for k in d: variables[k] = d[k]] started from [variables]. *)
Fixpoint copy_into (keys : list string) (d variables : dict) : dict :=
  match keys with
  | [] => variables
  | k :: keys' =>
      match get k d with
      | Some v => copy_into keys' d (set k v variables)
      | None => copy_into keys' d variables
      end
  end.

Definition keys (d : dict) : list string := map fst d.

Fixpoint distinct (ks : list string) : bool :=
  match ks with
  | [] => true
  | k :: ks' => negb (existsb (String.eqb k) ks') && distinct ks'
  end.

(** The invariant of a Python dict. *)
Definition wf (d : dict) : bool := distinct (keys d).

End Dict.

(** The truth value of a Python value: [None], [False], a zero and the
    empty string, list and dict are false.  A number literal is a zero
    when it has no digit but 0 before its exponent. *)
Fixpoint is_zero (lit : string) : bool :=
  match lit with
  | EmptyString => true
  | String c lit' =>
      if Ascii.eqb c "e" || Ascii.eqb c "E" then true
      else (Ascii.eqb c "0" || Ascii.eqb c "." || Ascii.eqb c "-"
            || Ascii.eqb c "+") && is_zero lit'
  end.

Definition truthy (v : json) : bool :=
  match v with
  | JNull => false
  | JBool b => b
  | JNum lit => negb (is_zero lit)
  | JStr s => negb (String.eqb s "")
  | JArr xs => negb (Nat.eqb (length xs) 0)
  | JObj kvs => negb (Nat.eqb (length kvs) 0)
  end.

(* ===================================================================== *)
(** * A JSON reader *)
(* ===================================================================== *)

(** The agent is verified for every [json.loads] (it is an operation of
    [Host]).  [PyJson.loads] is the reader the closed examples run on: the
    grammar of Python's [json] module (strict mode) on 8-bit characters; a
    [\u] escape above U+00FF has no 8-bit character and is refused.  Like
    Python's, the reader gives up on an integer of more digits than
    [sys.get_int_max_str_digits()] and on a nesting deeper than the
    recursion limit, both at their defaults, at the place of the text
    where it meets them. *)
Module PyJson.

(** What reading gives: a value, or one of the three exceptions
    [JSONDecodeError], [ValueError] (integer too long) and
    [RecursionError] (nesting too deep). *)
Inductive parsed (A : Type) :=
| Parsed (a : A)
| Malformed
| IntTooLong
| TooDeep.
Arguments Parsed {A} a.
Arguments Malformed {A}.
Arguments IntTooLong {A}.
Arguments TooDeep {A}.

Definition int_max_str_digits : nat := 4300.
Definition recursion_limit : nat := 1000.

Definition is_ws (c : ascii) : bool :=
  Ascii.eqb c " " || Ascii.eqb c "009" || Ascii.eqb c "010" || Ascii.eqb c "013".

Fixpoint skip_ws (s : string) : string :=
  match s with
  | EmptyString => EmptyString
  | String c s' => if is_ws c then skip_ws s' else s
  end.

Definition is_digit (c : ascii) : bool :=
  let n := nat_of_ascii c in ((48 <=? n) && (n <=? 57))%nat.

(** The longest prefix of digits, and the rest. *)
Fixpoint digits (s : string) : string * string :=
  match s with
  | EmptyString => (EmptyString, EmptyString)
  | String c s' =>
      if is_digit c then let (ds, r) := digits s' in (String c ds, r)
      else (EmptyString, s)
  end.

(** The integer part: an optional minus, then 0 or a digit 1-9 followed
    by digits. *)
Definition int_part (s : string) : option (string * string) :=
  let (sign, s1) :=
    match s with
    | String "-" r => ("-", r)
    | _ => (EmptyString, s)
    end in
  match s1 with
  | String c r =>
      if Ascii.eqb c "0" then Some (sign +:+ "0", r)
      else if is_digit c then
             let (ds, r') := digits r in Some (sign +:+ String c ds, r')
           else None
  | EmptyString => None
  end.

(** The optional fraction: a dot and at least one digit. *)
Definition frac_part (s : string) : string * string :=
  match s with
  | String "." r =>
      match digits r with
      | (EmptyString, _) => (EmptyString, s)
      | (ds, r') => (String "." ds, r')
      end
  | _ => (EmptyString, s)
  end.

(** The optional exponent: e or E, an optional sign, at least one
    digit. *)
Definition exp_part (s : string) : string * string :=
  match s with
  | String e r =>
      if Ascii.eqb e "e" || Ascii.eqb e "E" then
        let (sg, r1) :=
          match r with
          | String "-" r1 => ("-", r1)
          | String "+" r1 => ("+", r1)
          | _ => (EmptyString, r)
          end in
        match digits r1 with
        | (EmptyString, _) => (EmptyString, s)
        | (ds, r') => (String e (sg +:+ ds), r')
        end
      else (EmptyString, s)
  | EmptyString => (EmptyString, s)
  end.

Definition number (s : string) : option (string * string) :=
  match int_part s with
  | Some (i, r) =>
      let (f, r1) := frac_part r in
      let (e, r2) := exp_part r1 in
      Some (i +:+ f +:+ e, r2)
  | None => None
  end.

(** The number of digits of a literal. *)
Fixpoint count_digits (lit : string) : nat :=
  match lit with
  | EmptyString => 0
  | String c lit' => (if is_digit c then 1 else 0) + count_digits lit'
  end.

(** A literal without fraction and exponent is converted by [int],
    which refuses more than [int_max_str_digits] digits. *)
Definition int_too_long (lit : string) : bool :=
  match int_part lit with
  | Some (_, EmptyString) => (int_max_str_digits <? count_digits lit)%nat
  | _ => false
  end.

Definition hex_digit (c : ascii) : option nat :=
  let n := nat_of_ascii c in
  if ((48 <=? n) && (n <=? 57))%nat then Some (n - 48)
  else if ((65 <=? n) && (n <=? 70))%nat then Some (n - 55)
  else if ((97 <=? n) && (n <=? 102))%nat then Some (n - 87)
  else None.

(** The character of [\uXXXX] when it is below U+0100. *)
Definition unicode_escape (h1 h2 h3 h4 : ascii) : option ascii :=
  match hex_digit h1, hex_digit h2, hex_digit h3, hex_digit h4 with
  | Some 0, Some 0, Some c, Some d => Some (ascii_of_nat (16 * c + d))
  | _, _, _, _ => None
  end.

(** The characters of a string literal after its opening quote, and what
    follows the closing quote. *)
Fixpoint scanstring (s : string) : option (string * string) :=
  match s with
  | EmptyString => None
  | String "034" r => Some (EmptyString, r)
  | String "\" (String "u" (String h1 (String h2 (String h3 (String h4 r))))) =>
      match unicode_escape h1 h2 h3 h4, scanstring r with
      | Some c, Some (cs, r') => Some (String c cs, r')
      | _, _ => None
      end
  | String "\" (String e r) =>
      let unescaped :=
        if Ascii.eqb e "034" then Some "034"%char
        else if Ascii.eqb e "\" then Some "\"%char
        else if Ascii.eqb e "/" then Some "/"%char
        else if Ascii.eqb e "b" then Some "008"%char
        else if Ascii.eqb e "f" then Some "012"%char
        else if Ascii.eqb e "n" then Some "010"%char
        else if Ascii.eqb e "r" then Some "013"%char
        else if Ascii.eqb e "t" then Some "009"%char
        else None in
      match unescaped, scanstring r with
      | Some c, Some (cs, r') => Some (String c cs, r')
      | _, _ => None
      end
  | String c r =>
      if (nat_of_ascii c <? 32)%nat then None
      else if Ascii.eqb c "\" then None
      else match scanstring r with
           | Some (cs, r') => Some (String c cs, r')
           | None => None
           end
  end.

Definition literal (word : string) (v : json) (s : string)
  : option (json * string) :=
  match PyStr.strip_prefix word s with
  | Some r => Some (v, r)
  | None => None
  end.

(** [scan_once], [JSONObject] and [JSONArray].  [members] starts after
    the opening quote of a key, [elements] at a value.  [depth] is the
    number of nestings still allowed: an object or an array takes one
    when it is entered. *)
Fixpoint value (fuel depth : nat) (s : string) : parsed (json * string) :=
  match fuel with
  | 0 => Malformed
  | S f =>
      match s with
      | String "034" r =>
          match scanstring r with
          | Some (cs, r') => Parsed (JStr cs, r')
          | None => Malformed
          end
      | String "{" r =>
          match depth with
          | 0 => TooDeep
          | S depth' =>
              match skip_ws r with
              | String "}" r' => Parsed (JObj [], r')
              | String "034" r' => members f depth' r' []
              | _ => Malformed
              end
          end
      | String "[" r =>
          match depth with
          | 0 => TooDeep
          | S depth' =>
              match skip_ws r with
              | String "]" r' => Parsed (JArr [], r')
              | r' => elements f depth' r' []
              end
          end
      | _ =>
          match literal "null" JNull s, literal "true" (JBool true) s,
                literal "false" (JBool false) s with
          | Some x, _, _ | None, Some x, _ | None, None, Some x => Parsed x
          | None, None, None =>
              match number s with
              | Some (lit, r) =>
                  if int_too_long lit then IntTooLong
                  else Parsed (JNum lit, r)
              | None =>
                  match literal "NaN" (JNum "NaN") s,
                        literal "Infinity" (JNum "Infinity") s,
                        literal "-Infinity" (JNum "-Infinity") s with
                  | Some x, _, _ | None, Some x, _ | None, None, Some x =>
                      Parsed x
                  | None, None, None => Malformed
                  end
              end
          end
      end
  end
with members (fuel depth : nat) (s : string) (acc : dict)
  : parsed (json * string) :=
  match fuel with
  | 0 => Malformed
  | S f =>
      match scanstring s with
      | Some (key, r) =>
          match skip_ws r with
          | String ":" r1 =>
              match value f depth (skip_ws r1) with
              | Parsed (v, r2) =>
                  match skip_ws r2 with
                  | String "}" r3 => Parsed (JObj (Dict.set key v acc), r3)
                  | String "," r3 =>
                      match skip_ws r3 with
                      | String "034" r4 =>
                          members f depth r4 (Dict.set key v acc)
                      | _ => Malformed
                      end
                  | _ => Malformed
                  end
              | Malformed => Malformed
              | IntTooLong => IntTooLong
              | TooDeep => TooDeep
              end
          | _ => Malformed
          end
      | None => Malformed
      end
  end
with elements (fuel depth : nat) (s : string) (acc : list json)
  : parsed (json * string) :=
  match fuel with
  | 0 => Malformed
  | S f =>
      match value f depth s with
      | Parsed (v, r) =>
          match skip_ws r with
          | String "]" r1 => Parsed (JArr (acc ++ [v]), r1)
          | String "," r1 => elements f depth (skip_ws r1) (acc ++ [v])
          | _ => Malformed
          end
      | Malformed => Malformed
      | IntTooLong => IntTooLong
      | TooDeep => TooDeep
      end
  end.

(** [json.loads(s)]. *)
Definition loads (s : string) : parsed json :=
  match value (2 * String.length s + 2) recursion_limit (skip_ws s) with
  | Parsed (v, r) =>
      match skip_ws r with
      | EmptyString => Parsed v
      | _ => Malformed
      end
  | Malformed => Malformed
  | IntTooLong => IntTooLong
  | TooDeep => TooDeep
  end.

End PyJson.

(* ===================================================================== *)
(** * Exceptions *)
(* ===================================================================== *)

(** The exception classes the agent raises, catches or can be handed by
    the host.  [BaseException] stands for one that is not an [Exception]
    (a cancellation); [Exception] for any other [Exception]. *)
Inductive exn_class :=
| BaseException
| Exception
| KeyError | IndexError | AttributeError | NameError | TypeError
| ValueError | RecursionError
| JSONDecodeError
| OpenAIError | AuthenticationError
| HomeAssistantError | TemplateError | ServiceNotFound | ConfigEntryNotReady
| EntityNotFound | EntityNotExposed | CallServiceError | FunctionNotFound
| NativeNotFound | FunctionLoadFailed | ParseArgumentsFailed | InvalidFunction.

Definition exn_class_eqb (a b : exn_class) : bool :=
  match a, b with
  | BaseException, BaseException | Exception, Exception
  | KeyError, KeyError | IndexError, IndexError
  | AttributeError, AttributeError | NameError, NameError
  | TypeError, TypeError | ValueError, ValueError
  | RecursionError, RecursionError | JSONDecodeError, JSONDecodeError
  | OpenAIError, OpenAIError | AuthenticationError, AuthenticationError
  | HomeAssistantError, HomeAssistantError | TemplateError, TemplateError
  | ServiceNotFound, ServiceNotFound
  | ConfigEntryNotReady, ConfigEntryNotReady
  | EntityNotFound, EntityNotFound | EntityNotExposed, EntityNotExposed
  | CallServiceError, CallServiceError | FunctionNotFound, FunctionNotFound
  | NativeNotFound, NativeNotFound | FunctionLoadFailed, FunctionLoadFailed
  | ParseArgumentsFailed, ParseArgumentsFailed
  | InvalidFunction, InvalidFunction => true
  | _, _ => false
  end.

(** Modelled from the spec: [exceptions.py], which declares the
    integration's own exception classes, is missing.  The spec has
    malformed function-call arguments surface as a parse-failure condition
    and not crash the turn, and the turn catches [OpenAIError] and
    [HomeAssistantError] only: the integration's classes derive from
    [HomeAssistantError].  The other classes are the libraries':
    [JSONDecodeError] is a [ValueError]. *)
Definition bases (c : exn_class) : list exn_class :=
  match c with
  | BaseException => []
  | Exception => []
  | KeyError | IndexError | AttributeError | NameError | TypeError
  | ValueError | RecursionError | OpenAIError | HomeAssistantError =>
      [Exception]
  | JSONDecodeError => [ValueError; Exception]
  | AuthenticationError => [OpenAIError; Exception]
  | TemplateError | ServiceNotFound | ConfigEntryNotReady
  | EntityNotFound | EntityNotExposed | CallServiceError | FunctionNotFound
  | NativeNotFound | FunctionLoadFailed | ParseArgumentsFailed
  | InvalidFunction => [HomeAssistantError; Exception]
  end.

(** An exception: its class and its argument. *)
Record exn := Exn { exn_cls : exn_class; exn_arg : string }.

(** [isinstance(e, base)]. *)
Definition isinstance (e : exn) (base : exn_class) : bool :=
  existsb (exn_class_eqb base) (exn_cls e :: bases (exn_cls e)).

(* ===================================================================== *)
(** * Data of the agent *)
(* ===================================================================== *)

(** [message.function_call]. *)
Record fn_call := { fc_name : string; fc_arguments : string }.

(** A chat message: an entry of [messages] and a [ChatCompletionMessage]
    alike.  An absent key is [None]. *)
Record chat_message := {
  role : string;
  content : option string;
  name : option string;
  fcall : option fn_call
}.

(** [response.choices[0]]. *)
Record chat_choice := { finish_reason : string; choice_message : chat_message }.

(** The arguments of [client.chat.completions.create]. *)
Record chat_request := {
  req_model : string;
  req_messages : list chat_message;
  req_max_tokens : Z;
  req_top_p : json;
  req_temperature : json;
  req_functions : option (list json);
  req_function_call : option string
}.

(** [self.entry.options], each option with its default applied, except
    [functions], which the code reads without a default. *)
Record entry_options := {
  prompt : string;
  chat_model : string;
  max_tokens : Z;
  top_p : json;
  temperature : json;
  max_function_calls_per_conversation : Z;
  functions : option string;
  attach_username : bool;
  attach_username_to_prompt : bool;
  ignore_convoid : bool
}.

Record exposed_entity := {
  entity_id : string;
  entity_name : string;
  entity_state : string;
  aliases : list string
}.

(** A state of the host's state machine. *)
Record hass_state := { state_entity_id : string; state_name : string; state_state : string }.

(** [conversation.ConversationInput], as far as the agent reads it. *)
Record conversation_input := {
  text : string;
  conversation_id : option string;
  user_id : option string;
  language : string
}.

(** A host user: [user.name]. *)
Record user := { user_name : option string }.

(** [intent.IntentResponse] after [async_set_speech] or
    [async_set_error] (the error code is always UNKNOWN). *)
Inductive intent_response :=
| Speech (lang : string) (speech : option string)
| ErrorResponse (lang : string) (msg : string).

Record conversation_result := {
  response : intent_response;
  result_conversation_id : option string
}.

(** What the agent asked of the endpoint, the executors and the host, in
    order.  [EvChat] carries the request counter of the [query] call. *)
Inductive event :=
| EvChat (n_requests : Z) (req : chat_request)
| EvExecute (fn : json) (arguments : json)
| EvService (domain service : string) (data : dict).

(** The answer of an operation of the environment: a value or an
    exception. *)
Inductive answer (A : Type) := Value (a : A) | Throws (e : exn).
Arguments Value {A} a.
Arguments Throws {A} e.

(** An executor is known by the name of its type. *)
Definition executor := string.

(** The client the agent builds in [__init__]. *)
Inductive client :=
| AsyncAzureOpenAI (key : string) (azure_endpoint api_version : option string)
| AsyncOpenAI (key : string) (base_url : option string).

(** Everything outside the module: the Python libraries, the LLM client,
    the host platform and the integration's [helpers.py] and [const.py].
    [W] is the state of that environment.  [json_loads] and
    [yaml_safe_load] give a Python value or raise; [client_init] is the
    constructor of the client, which returns or raises.  Modelled from
    the spec, for [const.py] is missing: the function definitions are
    loaded fresh from the configuration at each call, the default ones
    ([DEFAULT_CONF_FUNCTIONS]) too. *)
Class Host (W : Type) := {
  json_loads : string -> answer json;
  py_str : json -> string;
  str_exn : exn -> string;
  yaml_safe_load : string -> answer json;
  DEFAULT_CONF_FUNCTIONS : json;
  client_init : client -> answer unit;
  get_function_executor : json -> answer executor;
  to_arguments : executor -> json -> answer json;
  execute : executor -> json -> json -> conversation_input ->
            list exposed_entity -> W -> answer json * W;
  chat_completions_create : chat_request -> W -> answer chat_choice * W;
  services_async_call : string -> string -> dict -> W -> answer unit * W;
  auth_async_get_user : option string -> W -> answer (option user) * W;
  template_async_render : string -> list exposed_entity -> W -> answer string;
  states_async_all : W -> list hass_state;
  states_get : W -> string -> option hass_state;
  async_should_expose : W -> string -> bool;
  entity_registry_aliases : W -> string -> option (list string);
  ulid : W -> string * W;
  validate_authentication :
    string -> option string -> option string -> bool -> W -> answer unit * W;
  is_azure : option string -> bool
}.

(** The agent's memory and its environment.  [heap] holds the list
    objects: [history] maps a conversation id to the place of its list,
    which a running turn appends to in place. *)
Record state (W : Type) := {
  world : W;
  options : entry_options;
  heap : list (list chat_message);
  history : gmap string nat;
  trace : list event
}.
Arguments world {W} s.
Arguments options {W} s.
Arguments heap {W} s.
Arguments history {W} s.
Arguments trace {W} s.

(** A computation: a value, an exception, or no more fuel. *)
Inductive res (A : Type) := Ret (a : A) | Raise (e : exn) | Timeout.
Arguments Ret {A} a.
Arguments Raise {A} e.
Arguments Timeout {A}.

Definition M (W A : Type) : Type := state W -> res A * state W.

Definition ret {W A} (a : A) : M W A := fun st => (Ret a, st).
Definition raise {W A} (c : exn_class) (arg : string) : M W A :=
  fun st => (Raise (Exn c arg), st).
Definition reraise {W A} (e : exn) : M W A := fun st => (Raise e, st).
Definition timeout {W A} : M W A := fun st => (Timeout, st).

Definition bind {W A B} (m : M W A) (k : A -> M W B) : M W B :=
  fun st =>
    match m st with
    | (Ret a, st') => k a st'
    | (Raise e, st') => (Raise e, st')
    | (Timeout, st') => (Timeout, st')
    end.

#[global] Instance M_ret {W} : MRet (M W) := fun A a => ret a.
#[global] Instance M_bind {W} : MBind (M W) := fun A B k m => bind m k.

(** [try: m  except <caught>: h]. *)
Definition try_except {W A} (m : M W A) (caught : exn -> bool)
  (h : exn -> M W A) : M W A :=
  fun st =>
    match m st with
    | (Raise e, st') => if caught e then h e st' else (Raise e, st')
    | r => r
    end.

(* ===================================================================== *)
(** * The agent *)
(* ===================================================================== *)

(** Texts of the module. *)
Definition SENTINEL : string := "$ActionRequired".
Definition NO_ACTION : string := "$NoActionRequired".
Definition SERVICE_EXECUTED : string :=
  " " +:+ String PyStr.nl (String PyStr.nl "Service executed successfully.").
Definition SERVICE_ERROR : string :=
  String PyStr.nl (String PyStr.nl
    " An error occurred while executing requested service.").

Section Agent.

Context {W : Type} {host : Host W}.

(** ** State and environment access *)

Definition set_world (w : W) (st : state W) : state W :=
  {| world := w; options := options st; heap := heap st;
     history := history st; trace := trace st |}.

Definition set_heap (h : list (list chat_message)) (st : state W) : state W :=
  {| world := world st; options := options st; heap := h;
     history := history st; trace := trace st |}.

Definition set_history (h : gmap string nat) (st : state W) : state W :=
  {| world := world st; options := options st; heap := heap st;
     history := h; trace := trace st |}.

Definition add_event (e : event) (st : state W) : state W :=
  {| world := world st; options := options st; heap := heap st;
     history := history st; trace := trace st ++ [e] |}.

Definition the_options : M W entry_options := fun st => (Ret (options st), st).

Definition the_world : M W W := fun st => (Ret (world st), st).

Definition log (e : event) : M W unit := fun st => (Ret tt, add_event e st).

Definition of_answer {A} (a : answer A) : M W A :=
  match a with
  | Value v => ret v
  | Throws e => reraise e
  end.

(** An awaited call into the environment. *)
Definition call_host {A} (op : W -> answer A * W) : M W A :=
  fun st =>
    match op (world st) with
    | (Value a, w) => (Ret a, set_world w st)
    | (Throws e, w) => (Raise e, set_world w st)
    end.

(** [ulid.ulid()]. *)
Definition new_ulid : M W string :=
  fun st => (Ret (fst (ulid (world st))), set_world (snd (ulid (world st))) st).

(** Runs [m] and hands its exception, if any, to the caller: the body of
    a [try]. *)
Definition attempt {A} (m : M W A) : M W (answer A) :=
  fun st =>
    match m st with
    | (Ret a, st') => (Ret (Value a), st')
    | (Raise e, st') => (Ret (Throws e), st')
    | (Timeout, st') => (Timeout, st')
    end.

(** A new list object. *)
Definition new_list (l : list chat_message) : M W nat :=
  fun st => (Ret (length (heap st)), set_heap (heap st ++ [l]) st).

Definition read_list (loc : nat) : M W (list chat_message) :=
  fun st => (Ret (default [] (heap st !! loc)), st).

(** [messages.append(m)]. *)
Definition list_append (loc : nat) (m : chat_message) : M W unit :=
  fun st => (Ret tt, set_heap (alter (fun l => l ++ [m]) loc (heap st)) st).

(** [self.history.get(conversation_id)]; the id of a request may be
    [None], which is no key of the history. *)
Definition history_lookup (cid : option string) : M W (option nat) :=
  fun st =>
    (Ret match cid with
         | Some c => history st !! c
         | None => None
         end, st).

(** [self.history[conversation_id] = messages]. *)
Definition history_store (c : string) (loc : nat) : M W unit :=
  fun st => (Ret tt, set_history (<[c := loc]> (history st)) st).

Fixpoint mapM {A B} (f : A -> M W B) (l : list A) : M W (list B) :=
  match l with
  | [] => ret []
  | a :: l' =>
      b ← f a;
      bs ← mapM f l';
      ret (b :: bs)
  end.

(** [v[k]] on a Python value, for a string [k]. *)
Definition subscript (v : json) (k : string) : M W json :=
  match v with
  | JObj d =>
      match Dict.get k d with
      | Some x => ret x
      | None => raise KeyError k
      end
  | _ => raise TypeError k
  end.

(** [v[k] = x] on a Python value, for a string [k]. *)
Definition store (v : json) (k : string) (x : json) : M W json :=
  match v with
  | JObj d => ret (JObj (Dict.set k x d))
  | _ => raise TypeError k
  end.

(** [for x in v]: the items of a list, the keys of a dict, the
    characters of a string; another value cannot be iterated. *)
Definition iterate (v : json) : M W (list json) :=
  match v with
  | JArr xs => ret xs
  | JObj d => ret (map JStr (Dict.keys d))
  | JStr s =>
      ret (map (fun c => JStr (String c EmptyString)) (list_ascii_of_string s))
  | _ => raise TypeError "object is not iterable"
  end.

(** ** [get_exposed_entities] *)

Definition get_exposed_entities : M W (list exposed_entity) :=
  w ← the_world;
  let states :=
    List.filter (fun s => async_should_expose w (state_entity_id s))
      (states_async_all w) in
  mapM (fun s =>
          let entity_id := state_entity_id s in
          let aliases :=
            match entity_registry_aliases w entity_id with
            | Some (a :: al) => a :: al
            | _ => []
            end in
          match states_get w entity_id with
          | Some s' =>
              ret {| entity_id := entity_id; entity_name := state_name s;
                     entity_state := state_state s'; aliases := aliases |}
          | None => raise AttributeError "state"
          end) states.

(** ** [_async_generate_prompt] *)

Definition _async_generate_prompt (raw_prompt : string)
  (exposed_entities : list exposed_entity) : M W string :=
  w ← the_world;
  of_answer (template_async_render raw_prompt exposed_entities w).

(** ** [get_functions] *)

Definition truthy_str (s : option string) : bool :=
  match s with
  | Some (String _ _) => true
  | _ => false
  end.

(** The settings are converted in place, so that the value returned is
    the one loaded, with its settings converted.  A true value that is
    no list has a first item, a key or a character, which cannot be
    subscripted; a false value is returned as it is. *)
Definition get_functions : M W json :=
  r ← attempt
         (opts ← the_options;
          result ← (if truthy_str (functions opts)
                     then of_answer (yaml_safe_load (default "" (functions opts)))
                     else ret DEFAULT_CONF_FUNCTIONS);
          if truthy result then
            settings ← iterate result;
            settings ← mapM (fun setting =>
                                function ← subscript setting "function";
                                type ← subscript function "type";
                                function_executor ←
                                  of_answer (get_function_executor type);
                                function ←
                                  of_answer (to_arguments function_executor
                                               function);
                                store setting "function" function) settings;
            ret (JArr settings)
          else ret result);
  match r with
  | Value result => ret result
  | Throws e =>
      if isinstance e InvalidFunction || isinstance e FunctionNotFound
      then reraise e
      else raise FunctionLoadFailed ""
  end.

(** The settings a loop over [self.get_functions()] goes through. *)
Definition configured_functions : M W (list json) :=
  fs ← get_functions;
  iterate fs.

(** ** [extract_json_objects] and [remove_json_objects] *)

(** The loop over the matches: a match [json.loads] reads is kept, one
    it refuses with [JSONDecodeError] is passed over, and any other
    exception of [json.loads] ends the loop and the function. *)
Fixpoint valid_jsons (potential_jsons : list string) : answer (list string) :=
  match potential_jsons with
  | [] => Value []
  | potential_json :: rest =>
      match json_loads potential_json with
      | Value _ =>
          match valid_jsons rest with
          | Value l => Value (potential_json :: l)
          | Throws e => Throws e
          end
      | Throws e =>
          if isinstance e JSONDecodeError then valid_jsons rest
          else Throws e
      end
  end.

Definition extract_json_objects (text : string) : answer (list string) :=
  valid_jsons (Re.findall text).

Definition remove_json_objects (text : string) : string :=
  Re.sub_empty text.

(** ** The service directives of [query] *)

(** The body of the [try] for one segment.  [None] is the [continue] of
    the guard; [Some d] is the record added to [services_called] (the
    code keeps its YAML dump, the model keeps the dictionary). *)
Definition call_service (segment : string) : M W (option dict) :=
  service_call ← of_answer (json_loads segment);
  match service_call with
  | JObj d =>
      match Dict.pop "service" d with
      | None => raise KeyError "service"
      | Some (JStr service, service_call) =>
          let service_domain := hd "" (PyStr.split "." service) in
          let '(service, service_call) :=
            if String.eqb service_domain "script" then
              let script_entity_id := service in
              let variables :=
                Dict.copy_into (Dict.keys service_call) service_call [] in
              ("script.turn_on",
               [("entity_id", JStr script_entity_id);
                ("variables", JObj variables)])
            else (service, service_call) in
          if String.eqb service "" || Nat.eqb (length service_call) 0
          then ret None
          else
            match nth_error (PyStr.split "." service) 1 with
            | None => raise IndexError "list index out of range"
            | Some service_name =>
                let domain := hd "" (PyStr.split "." service) in
                log (EvService domain service_name service_call);;
                call_host (services_async_call domain service_name service_call);;
                ret (Some (Dict.set "service" (JStr service) service_call))
            end
      | Some (_, _) => raise AttributeError "split"
      end
  | _ => raise TypeError "pop"
  end.

(** The handler [except Exception as ex]: it sets the flag and then
    looks up the logger under the name [_lOGGER], which the module does
    not define. *)
Definition on_service_error (ex : exn) : M W bool :=
  let service_execution_failed := true in
  (raise NameError "_lOGGER" : M W unit);;
  ret service_execution_failed.

(** The loop over the segments: the flag and the services called so
    far. *)
Fixpoint service_loop (segments : list string)
  (service_execution_failed : bool) (services_called : list dict)
  : M W (bool * list dict) :=
  match segments with
  | [] => ret (service_execution_failed, services_called)
  | segment :: rest =>
      r ← attempt (call_service segment);
      match r with
      | Value (Some called) =>
          service_loop rest service_execution_failed
            (services_called ++ [called])
      | Value None =>
          service_loop rest service_execution_failed services_called
      | Throws ex =>
          if isinstance ex Exception then
            failed ← on_service_error ex;
            service_loop rest failed services_called
          else reraise ex
      end
  end.

(** The block under [if '$ActionRequired' in message.content]: the
    services called and the content after it. *)
Definition run_directives (content1 : string) : M W (list dict * string) :=
  if PyStr.contains SENTINEL content1 then
    segments ← of_answer (extract_json_objects content1);
    '(service_execution_failed, services_called) ←
      service_loop segments false [];
    ret (services_called,
         if service_execution_failed : bool
         then content1 +:+ SERVICE_ERROR else content1)
  else ret ([], content1).

(** What [query] does with the message once it has it. *)
Definition postprocess (message : chat_message)
  : M W (list dict * chat_message) :=
  content0 ← match content message with
              | Some c => ret c
              | None => raise AttributeError "replace"
              end;
  let content1 := PyStr.remove_char "\" content0 in
  r ← run_directives content1;
  let content2 := remove_json_objects (snd r) in
  let content3 := PyStr.replace_del SENTINEL content2 in
  let content4 := PyStr.replace_del NO_ACTION content3 in
  let content5 := PyStr.strip content4 in
  ret (fst r,
       {| role := role message; content := Some content5;
          name := name message; fcall := fcall message |}).

(** ** [execute_function], [execute_function_call] and [query] *)

(** The type of [query], for the recursion through
    [execute_function]. *)
Definition query_t : Type :=
  conversation_input -> nat -> list exposed_entity -> Z ->
  M W (list dict * chat_message).

(** The message [execute_function] adds to the list. *)
Definition function_message (fc : fn_call) (result : json) : chat_message :=
  {| role := "function"; content := Some (py_str result);
     name := Some (fc_name fc); fcall := None |}.

Definition execute_function (query : query_t)
  (user_input : conversation_input) (messages : nat) (message : chat_message)
  (exposed_entities : list exposed_entity) (n_requests : Z)
  (function_ : json) : M W chat_message :=
  function ← subscript function_ "function";
  type ← subscript function "type";
  function_executor ← of_answer (get_function_executor type);
  fc ← match fcall message with
        | Some fc => ret fc
        | None => raise AttributeError "arguments"
        end;
  arguments ← match json_loads (fc_arguments fc) with
               | Value a => ret a
               | Throws err =>
                   if isinstance err JSONDecodeError
                   then raise ParseArgumentsFailed (fc_arguments fc)
                   else reraise err
               end;
  log (EvExecute function arguments);;
  result ← call_host (execute function_executor function
                         arguments user_input exposed_entities);
  list_append messages (function_message fc result);;
  r ← query user_input messages exposed_entities n_requests;
  ret (snd r).

(** [next((s for s in functions if s["spec"]["name"] == function_name),
    None)]. *)
Fixpoint find_function (function_name : string) (fs : list json)
  : M W (option json) :=
  match fs with
  | [] => ret None
  | s :: fs' =>
      spec ← subscript s "spec";
      name ← subscript spec "name";
      match name with
      | JStr n =>
          if String.eqb n function_name then ret (Some s)
          else find_function function_name fs'
      | _ => find_function function_name fs'
      end
  end.

Definition execute_function_call (query : query_t)
  (user_input : conversation_input) (messages : nat) (message : chat_message)
  (exposed_entities : list exposed_entity) (n_requests : Z)
  : M W chat_message :=
  function_name ← match fcall message with
                   | Some fc => ret (fc_name fc)
                   | None => raise AttributeError "name"
                   end;
  fs ← configured_functions;
  function_ ← find_function function_name fs;
  match function_ with
  | Some f =>
      execute_function query user_input messages message
        exposed_entities n_requests f
  | None => raise FunctionNotFound function_name
  end.

(** [list(map(lambda s: s["spec"], self.get_functions()))]. *)
Definition function_specs : M W (list json) :=
  fs ← configured_functions;
  mapM (fun s => subscript s "spec") fs.

(** The request [query] sends: [function_call] is "none" when the
    counter equals the configured maximum and "auto" otherwise, and
    both [functions] and [function_call] are left out when no function
    is configured. *)
Definition chat_request_for (opts : entry_options)
  (functions : list json) (msgs : list chat_message) (n_requests : Z)
  : chat_request :=
  let function_call :=
    if Z.eqb n_requests (max_function_calls_per_conversation opts)
    then "none" else "auto" in
  let '(functions, function_call) :=
    if Nat.eqb (length functions) 0 then (None, None)
    else (Some functions, Some function_call) in
  {| req_model := chat_model opts; req_messages := msgs;
     req_max_tokens := max_tokens opts; req_top_p := top_p opts;
     req_temperature := temperature opts;
     req_functions := functions;
     req_function_call := function_call |}.

(** [query]: one request to the endpoint and what follows it.  [fuel]
    bounds the depth of the recursion through [execute_function]. *)
Fixpoint query (fuel : nat) (user_input : conversation_input)
  (messages : nat) (exposed_entities : list exposed_entity)
  (n_requests : Z) : M W (list dict * chat_message) :=
  match fuel with
  | 0 => timeout
  | S fuel' =>
      opts ← the_options;
      functions ← function_specs;
      msgs ← read_list messages;
      let request := chat_request_for opts functions msgs n_requests in
      log (EvChat n_requests request);;
      choice ← call_host (chat_completions_create request);
      message ← (if String.eqb (finish_reason choice) "function_call" then
                    execute_function_call (query fuel') user_input messages
                      (choice_message choice) exposed_entities
                      (n_requests + 1)
                  else ret (choice_message choice));
      postprocess message
  end.

(** ** [async_process] *)

Definition error_result (user_input : conversation_input) (msg : string)
  (conversation_id : option string) : conversation_result :=
  {| response := ErrorResponse (language user_input) msg;
     result_conversation_id := conversation_id |}.

Definition with_conversation_id (user_input : conversation_input)
  (c : string) : conversation_input :=
  {| text := text user_input; conversation_id := Some c;
     user_id := user_id user_input; language := language user_input |}.

(** The first part of the turn: which list the turn works on and under
    which id it will be stored.  The right case is the early return. *)
Definition open_conversation (user_input : conversation_input)
  (exposed_entities : list exposed_entity)
  : M W (option string * nat * conversation_input + conversation_result) :=
  opts ← the_options;
  let raw_prompt := prompt opts in
  messages ← new_list [];
  stored ← history_lookup (conversation_id user_input);
  match stored with
  | Some stored_messages =>
      if ignore_convoid opts then ret (inl (None, messages, user_input))
      else ret (inl (conversation_id user_input, stored_messages, user_input))
  | None =>
      ci ← (if ignore_convoid opts then ret (None, user_input)
             else c ← new_ulid;
                  ret (Some c, with_conversation_id user_input c));
      let conversation_id := fst ci in
      let user_input := snd ci in
      r ← attempt
             (user ← call_host (auth_async_get_user (user_id user_input));
              prompt ← _async_generate_prompt raw_prompt exposed_entities;
              ret (if attach_username_to_prompt opts then
                     match user with
                     | Some {| user_name := Some n |} =>
                         "User's name: " +:+ n +:+ String PyStr.nl prompt
                     | _ => prompt
                     end
                   else prompt));
      match r with
      | Value prompt =>
          messages ← new_list [{| role := "system"; content := Some prompt;
                                   name := None; fcall := None |}];
          ret (inl (conversation_id, messages, user_input))
      | Throws err =>
          if isinstance err TemplateError then
            ret (inr (error_result user_input
                        ("Sorry, I had a problem with my template: "
                         +:+ str_exn err) conversation_id))
          else reraise err
      end
  end.

(** The turn from the call of [query] on: its handlers, the storing of
    the history and the spoken answer. *)
Definition respond (fuel : nat) (user_input : conversation_input)
  (conversation_id : option string) (messages : nat)
  (exposed_entities : list exposed_entity) : M W conversation_result :=
  r ← attempt (query fuel user_input messages exposed_entities 0);
  match r with
  | Throws err =>
      if isinstance err OpenAIError then
        ret (error_result user_input
               ("Sorry, I had a problem talking to OpenAI: " +:+ str_exn err)
               conversation_id)
      else if isinstance err HomeAssistantError then
        ret (error_result user_input
               ("Something went wrong: " +:+ str_exn err)
               conversation_id)
      else reraise err
  | Value (services_called, response) =>
      list_append messages response;;
      match conversation_id with
      | Some c => history_store c messages
      | None => ret tt
      end;;
      speech ← (if Nat.ltb 0 (length services_called) then
                   match content response with
                   | Some c => ret (Some (c +:+ SERVICE_EXECUTED))
                   | None => raise TypeError "+"
                   end
                 else ret (content response));
      ret {| response := Speech (language user_input) speech;
             result_conversation_id := conversation_id |}
  end.

Definition async_process (fuel : nat) (user_input : conversation_input)
  : M W conversation_result :=
  opts ← the_options;
  exposed_entities ← get_exposed_entities;
  opened ← open_conversation user_input exposed_entities;
  match opened with
  | inr result => ret result
  | inl (conversation_id, messages, user_input) =>
      user_name ← (if attach_username opts then
                      user ← call_host (auth_async_get_user (user_id user_input));
                      ret match user with
                          | Some u => user_name u
                          | None => None
                          end
                    else ret None);
      let user_message :=
        {| role := "user"; content := Some (text user_input);
           name := user_name; fcall := None |} in
      list_append messages user_message;;
      respond fuel user_input conversation_id messages exposed_entities
  end.

End Agent.

(* ===================================================================== *)
(** * Setting up the entry *)
(* ===================================================================== *)

(** [entry.data] and [entry.entry_id]. *)
Record config_entry := {
  entry_id : string;
  api_key : string;
  base_url : option string;
  api_version : option string;
  skip_authentication : bool
}.

(** A new [OpenAIAgent]: its entry and its client; its history is empty. *)
Record OpenAIAgent := { agent_entry : config_entry; agent_client : client }.

(** A value of the entry's dictionary in [hass.data[DOMAIN]]. *)
Inductive data_value := DataStr (s : string) | DataAgent (a : OpenAIAgent).

(** The part of [hass] the set-up touches: [hass.data.get(DOMAIN)], which
    is [None] as long as [hass.data] has no key [DOMAIN] and else the
    dictionary of the entries' data by entry id, and the conversation
    agents the host has registered, by entry id. *)
Record hass (W : Type) := {
  hass_world : W;
  hass_data : option (gmap string (gmap string data_value));
  conversation_agents : gmap string OpenAIAgent
}.
Arguments hass_world {W} h.
Arguments hass_data {W} h.
Arguments conversation_agents {W} h.

Definition DOMAIN : string := "extended_openai_conversation".
Definition CONF_API_KEY : string := "api_key".
Definition DATA_AGENT : string := "agent".

Section Setup.

Context {W : Type} {host : Host W}.

(** [OpenAIAgent.__init__]: the constructor of the client may raise. *)
Definition new_agent (entry : config_entry) : answer OpenAIAgent :=
  let client :=
    if is_azure (base_url entry)
    then AsyncAzureOpenAI (api_key entry) (base_url entry) (api_version entry)
    else AsyncOpenAI (api_key entry) (base_url entry) in
  match client_init client with
  | Value _ => Value {| agent_entry := entry; agent_client := client |}
  | Throws err => Throws err
  end.

Definition async_setup_entry (entry : config_entry) (h : hass W)
  : res bool * hass W :=
  match validate_authentication (api_key entry) (base_url entry)
          (api_version entry) (skip_authentication entry) (hass_world h) with
  | (Throws err, w) =>
      let h' := {| hass_world := w; hass_data := hass_data h;
                   conversation_agents := conversation_agents h |} in
      if isinstance err AuthenticationError then (Ret false, h')
      else if isinstance err OpenAIError
           then (Raise (Exn ConfigEntryNotReady (str_exn err)), h')
           else (Raise err, h')
  | (Value _, w) =>
      match new_agent entry with
      | Throws err =>
          (Raise err,
           {| hass_world := w; hass_data := hass_data h;
              conversation_agents := conversation_agents h |})
      | Value agent =>
          let domain_data := default ∅ (hass_data h) in
          let data := default ∅ (domain_data !! entry_id entry) in
          let data := <[CONF_API_KEY := DataStr (api_key entry)]> data in
          let data := <[DATA_AGENT := DataAgent agent]> data in
          (Ret true,
           {| hass_world := w;
              hass_data := Some (<[entry_id entry := data]> domain_data);
              conversation_agents :=
                <[entry_id entry := agent]> (conversation_agents h) |})
      end
  end.

(** [async_unload_entry]: [hass.data[DOMAIN]] raises [KeyError] when
    the host has no data of the integration, and [pop] without a
    default raises [KeyError] for an entry id that has no data, both
    before the agent is unset; [conversation.async_unset_agent] takes
    the entry's agent off the host's register, as [async_set_agent] put
    it there. *)
Definition async_unload_entry (entry : config_entry) (h : hass W)
  : res bool * hass W :=
  match hass_data h with
  | None => (Raise (Exn KeyError DOMAIN), h)
  | Some domain_data =>
      match domain_data !! entry_id entry with
      | None => (Raise (Exn KeyError (entry_id entry)), h)
      | Some _ =>
          (Ret true,
           {| hass_world := hass_world h;
              hass_data := Some (delete (entry_id entry) domain_data);
              conversation_agents :=
                delete (entry_id entry) (conversation_agents h) |})
      end
  end.

End Setup.

(* ===================================================================== *)
(** * A concrete environment *)
(* ===================================================================== *)

(** Writes a text with apostrophes where the JSON has double quotes. *)
Fixpoint dq (s : string) : string :=
  match s with
  | EmptyString => EmptyString
  | String c s' => String (if Ascii.eqb c "'" then "034"%char else c) (dq s')
  end.

(** An environment to run the agent in: the endpoint answers from a
    script, the functions are those given (one function [lookup] of type
    [native] as a rule), the host refuses the services of the domains
    given. *)
Module Scenario.

(** The answers the endpoint still has to give, and the ids given out. *)
Record env := { script : list chat_choice; ulids : nat }.

Definition says (c : string) : chat_choice :=
  {| finish_reason := "stop";
     choice_message := {| role := "assistant"; content := Some c;
                          name := None; fcall := None |} |}.

Definition calls (f args : string) : chat_choice :=
  {| finish_reason := "function_call";
     choice_message :=
       {| role := "assistant"; content := None; name := None;
          fcall := Some {| fc_name := f; fc_arguments := args |} |} |}.

Definition lookup_function : json :=
  JObj [("spec", JObj [("name", JStr "lookup")]);
        ("function", JObj [("type", JStr "native")])].

(** [json.loads] over the reader [PyJson.loads]. *)
Definition loads (s : string) : answer json :=
  match PyJson.loads s with
  | PyJson.Parsed v => Value v
  | PyJson.Malformed => Throws (Exn JSONDecodeError "Expecting value")
  | PyJson.IntTooLong =>
      Throws (Exn ValueError
                "Exceeds the limit (4300 digits) for integer string conversion")
  | PyJson.TooDeep =>
      Throws (Exn RecursionError "maximum recursion depth exceeded")
  end.

(** The client's constructor: the Azure client wants an API version. *)
Definition init (c : client) : answer unit :=
  match c with
  | AsyncAzureOpenAI _ _ None =>
      Throws (Exn ValueError "Must provide the api_version argument")
  | _ => Value tt
  end.

(** The endpoint: the next answer of the script.  With [obedient] it
    does not answer a request that forbids function calls with one. *)
Definition endpoint (obedient : bool) (req : chat_request) (w : env)
  : answer chat_choice * env :=
  match script w with
  | [] => (Value (says "Done."), w)
  | c :: cs =>
      let w' := {| script := cs; ulids := ulids w |} in
      if obedient && String.eqb (finish_reason c) "function_call"
         && negb (match req_function_call req with
                  | Some fc => String.eqb fc "auto"
                  | None => false
                  end)
      then (Value (says "No more function calls."), w')
      else (Value c, w')
  end.

Definition host_services (refused : list string)
  (domain service : string) (data : dict) (w : env) : answer unit * env :=
  if existsb (String.eqb domain) refused
  then (Throws (Exn ServiceNotFound domain), w)
  else (Value tt, w).

Definition make_host (obedient : bool) (refused : list string)
  (configured : list json) : Host env :=
  {| json_loads := loads;
     py_str := fun _ => "result";
     str_exn := exn_arg;
     yaml_safe_load := fun _ => Throws (Exn Exception "yaml");
     DEFAULT_CONF_FUNCTIONS := JArr configured;
     client_init := init;
     get_function_executor := fun type =>
       match type with
       | JStr "native" => Value "native"
       | _ => Throws (Exn FunctionNotFound "type")
       end;
     to_arguments := fun _ f => Value f;
     execute := fun _ _ arguments _ _ w => (Value arguments, w);
     chat_completions_create := endpoint obedient;
     services_async_call := host_services refused;
     auth_async_get_user := fun _ w => (Value None, w);
     template_async_render := fun raw _ _ => Value raw;
     states_async_all := fun _ => [];
     states_get := fun _ _ => None;
     async_should_expose := fun _ _ => true;
     entity_registry_aliases := fun _ _ => None;
     ulid := fun w =>
       ("ulid" +:+ String (ascii_of_nat (48 + ulids w)) EmptyString,
        {| script := script w; ulids := S (ulids w) |});
     validate_authentication := fun key _ _ skip w =>
       if skip then (Value tt, w)
       else if String.eqb key "sk-good" then (Value tt, w)
       else if String.eqb key "sk-bad"
            then (Throws (Exn AuthenticationError "401"), w)
            else (Throws (Exn OpenAIError "connection"), w);
     is_azure := fun url =>
       match url with
       | Some u => PyStr.contains ".openai.azure.com" u
       | None => false
       end |}.

(** The usual host: it keeps to the API and refuses the domain
    [locked]. *)
Definition obedient_host : Host env :=
  make_host true ["locked"] [lookup_function].

(** A host that accepts every service call. *)
Definition open_host : Host env := make_host true [] [lookup_function].

Definition opts (max_calls : Z) (ignore : bool) : entry_options :=
  {| prompt := "You are a home."; chat_model := "gpt";
     max_tokens := 150; top_p := JNum "1"; temperature := JNum "0.5";
     max_function_calls_per_conversation := max_calls;
     functions := None;
     attach_username := false; attach_username_to_prompt := false;
     ignore_convoid := ignore |}.

Definition start (max_calls : Z) (ignore : bool) (answers : list chat_choice)
  : state env :=
  {| world := {| script := answers; ulids := 0 |};
     options := opts max_calls ignore;
     heap := []; history := ∅; trace := [] |}.

Definition hears (t : string) (cid : option string) : conversation_input :=
  {| text := t; conversation_id := cid; user_id := None; language := "en" |}.

(** The same agent after its option "ignore conversation id" was
    changed. *)
Definition set_ignore_convoid (ignore : bool) (st : state env) : state env :=
  {| world := world st;
     options := opts (max_function_calls_per_conversation (options st)) ignore;
     heap := heap st; history := history st; trace := trace st |}.

(** The endpoint's script is replaced and the trace emptied: the start
    of a later turn. *)
Definition next_turn (answers : list chat_choice) (st : state env)
  : state env :=
  {| world := {| script := answers; ulids := ulids (world st) |};
     options := options st; heap := heap st; history := history st;
     trace := [] |}.

(** Texts of the endpoint used below. *)
Definition lone_service : string := dq "{'service': 'light.turn_on'}".

Definition light_directive : string :=
  dq "{'service': 'light.turn_on', 'entity_id': 'light.kitchen'}".

Definition script_directive : string :=
  dq "{'service': 'script.bedtime', 'delay': 5}".

Definition no_key_directive : string := dq "{'entity_id': 'light.kitchen'}".

Definition no_dot_directive : string :=
  dq "{'service': 'restart', 'force': true}".

(** An object written on three lines. *)
Definition object_on_lines : string :=
  String "{" (String PyStr.nl
    (dq "'service': 'light.turn_on', 'entity_id': 'light.kitchen'"
     +:+ String PyStr.nl "}")).

(** The empty object with a line feed between its braces. *)
Definition braces_on_lines : string := String "{" (String PyStr.nl "}").

Definition nested_object : string :=
  dq "{'service': 'light.turn_on', 'data': {'entity_id': 'light.kitchen'}}".

(** [n] times the character [c]. *)
Fixpoint repeated (n : nat) (c : ascii) : string :=
  match n with
  | 0 => EmptyString
  | S n' => String c (repeated n' c)
  end.

(** A directive on one line with an integer of 4301 digits. *)
Definition long_integer_directive : string :=
  dq "{'service': 'light.turn_on', 'brightness': "
  +:+ repeated 4301 "1" +:+ "}".

(** Arguments of a function call: 1200 opening brackets. *)
Definition deep_arguments : string := repeated 1200 "[".

Definition two_directives : string :=
  "Sure. $ActionRequired " +:+ light_directive +:+ " " +:+ script_directive.

Definition system_message : chat_message :=
  {| role := "system"; content := Some "You are a home.";
     name := None; fcall := None |}.

Definition user_message (t : string) : chat_message :=
  {| role := "user"; content := Some t; name := None; fcall := None |}.

Definition assistant_message (t : string) : chat_message :=
  {| role := "assistant"; content := Some t; name := None; fcall := None |}.

(** The requests of a trace. *)
Definition requests_of (evs : list event) : list chat_request :=
  flat_map (fun ev => match ev with EvChat _ req => [req] | _ => [] end) evs.

End Scenario.

(* ===================================================================== *)
(** * The notions the claims are stated in *)
(* ===================================================================== *)

Module Spec.

(** The characters the claim lets stand between the braces: any. *)
Definition any_char (c : ascii) : bool := true.

(** The characters the code lets stand between the braces: any but the
    line feed. *)
Definition same_line (c : ascii) : bool := negb (Ascii.eqb c PyStr.nl).

(** The inside of a minimal brace-delimited substring: no closing brace
    (the substring ends at the first one), and only characters of
    [inner]. *)
Fixpoint body_ok (inner : ascii -> bool) (m : string) : bool :=
  match m with
  | EmptyString => true
  | String c m' => inner c && negb (Ascii.eqb c "}") && body_ok inner m'
  end.

(** A brace-delimited substring can start right before [t]. *)
Definition closes (inner : ascii -> bool) (t : string) : Prop :=
  exists m r, t = m +:+ String "}" r /\ body_ok inner m = true.

(** The minimal (non-greedy) brace-delimited substrings of a text, from
    the left and without overlap, and the characters outside them.  A
    character is outside only if no such substring starts at it. *)
Inductive scan (inner : ascii -> bool) : string -> list Re.piece -> Prop :=
| scan_nil : scan inner EmptyString []
| scan_hit m r ps :
    body_ok inner m = true ->
    scan inner r ps ->
    scan inner (String "{" (m +:+ String "}" r))
      (Re.Hit (String "{" (m +:+ "}")) :: ps)
| scan_gap c s ps :
    (c = "{"%char -> ~ closes inner s) ->
    scan inner s ps ->
    scan inner (String c s) (Re.Gap c :: ps).

(** [x] is a part of [t]. *)
Definition occurs (x t : string) : Prop := exists a b, t = a +:+ x +:+ b.

(** A text in braces on one line, as a JSON object written on one line
    is. *)
Definition one_line_braced (x : string) : Prop :=
  exists y, x = String "{" (y +:+ "}") /\
            forallb same_line (list_ascii_of_string y) = true.

(** The number of closing braces of a text. *)
Fixpoint closings (s : string) : nat :=
  match s with
  | EmptyString => 0
  | String c s' => (if Ascii.eqb c "}" then 1 else 0) + closings s'
  end.

(** [t] is [s] with some characters of [P] deleted. *)
Inductive deleted (P : ascii -> Prop) : string -> string -> Prop :=
| deleted_nil : deleted P EmptyString EmptyString
| deleted_keep c s t : deleted P s t -> deleted P (String c s) (String c t)
| deleted_drop c s t : P c -> deleted P s t -> deleted P (String c s) t.

(** No closing brace follows an opening brace on its line; [opened]
    tells whether an opening brace was seen on the current line. *)
Fixpoint clean (opened : bool) (s : string) : bool :=
  match s with
  | EmptyString => true
  | String c s' =>
      if Ascii.eqb c "{" then clean true s'
      else if Ascii.eqb c "}" then negb opened && clean false s'
      else if Ascii.eqb c PyStr.nl then clean false s'
      else clean opened s'
  end.

Definition is_chat (ev : event) : bool :=
  match ev with EvChat _ _ => true | _ => false end.

Definition is_execute (ev : event) : bool :=
  match ev with EvExecute _ _ => true | _ => false end.

Definition is_service (ev : event) : bool :=
  match ev with EvService _ _ _ => true | _ => false end.

(** The requests sent, the function calls dispatched and the host
    services called in a stretch of the trace. *)
Definition requests (evs : list event) : nat := length (List.filter is_chat evs).
Definition dispatches (evs : list event) : nat := length (List.filter is_execute evs).
Definition services (evs : list event) : nat := length (List.filter is_service evs).

(** What [call_service] passes to the host for a script. *)
Definition script_data (s : string) (rest : dict) : dict :=
  [("entity_id", JStr s); ("variables", JObj rest)].

(** The host call a directive asks for: for a service of the domain
    [script], [script.turn_on] on that script with the other keys as
    variables; for a service [domain.name] of another domain that comes
    with at least one other key, that service with those keys. *)
Inductive names {W : Type} {host : Host W} : string -> event -> Prop :=
| names_script segment d s :
    json_loads segment = Value (JObj d) ->
    Dict.get "service" d = Some (JStr s) ->
    hd "" (PyStr.split "." s) = "script" ->
    Dict.wf (Dict.del "service" d) = true ->
    names segment
      (EvService "script" "turn_on" (script_data s (Dict.del "service" d)))
| names_plain segment d s domain service_name more :
    json_loads segment = Value (JObj d) ->
    Dict.get "service" d = Some (JStr s) ->
    PyStr.split "." s = domain :: service_name :: more ->
    domain <> "script" ->
    Dict.del "service" d <> [] ->
    names segment (EvService domain service_name (Dict.del "service" d)).

(** The host accepts every service call. *)
Definition host_accepts {W : Type} {host : Host W} : Prop :=
  forall domain service_name data w,
    fst (services_async_call domain service_name data w) = Value tt.

(** [p] is text that [json.loads] reads. *)
Definition is_valid_json {W : Type} {host : Host W} (p : string) : bool :=
  match json_loads p with
  | Value _ => true
  | Throws _ => false
  end.

(** [json.loads] reads [p] or refuses it with [JSONDecodeError]: it
    raises nothing else for it. *)
Definition decided {W : Type} {host : Host W} (p : string) : bool :=
  match json_loads p with
  | Value _ => true
  | Throws e => isinstance e JSONDecodeError
  end.

(** [s["spec"]["name"] == function_name]. *)
Definition has_name (function_name : string) (s : json) : bool :=
  match s with
  | JObj sd =>
      match Dict.get "spec" sd with
      | Some (JObj d) =>
          match Dict.get "name" d with
          | Some (JStr n) => String.eqb n function_name
          | _ => false
          end
      | _ => false
      end
  | _ => false
  end.

(** The configured function of a name: the first of the list. *)
Definition lookup_function (function_name : string) (fs : list json)
  : option json :=
  List.find (has_name function_name) fs.

(** The spec of a function is a dictionary with a name. *)
Definition well_named (s : json) : Prop :=
  exists sd d n,
    s = JObj sd /\ Dict.get "spec" sd = Some (JObj d) /\
    Dict.get "name" d = Some n.

(** The endpoint keeps to the API: it answers with a function call
    only a request that allows one ([function_call] is "auto"), never a
    request that says "none" or that carries no functions. *)
Definition obedient {W : Type} {host : Host W} : Prop :=
  forall req w ch w',
    chat_completions_create req w = (Value ch, w') ->
    finish_reason ch = "function_call" ->
    req_function_call req = Some "auto".

(** A request of a turn whose counter started at [n], under the maximum
    [N]: its counter lies between the two, and at the maximum it does
    not allow a function call: it says "none" whenever it carries
    functions. *)
Definition request_within (n N : Z) (ev : event) : Prop :=
  match ev with
  | EvChat k req =>
      (n <= k <= N)%Z /\
      (k = N ->
       req_function_call req <> Some "auto" /\
       (req_functions req <> None -> req_function_call req = Some "none"))
  | _ => True
  end.

End Spec.

(* ===================================================================== *)
(** * Strings *)
(* ===================================================================== *)

Section StringFacts.

Lemma append_nil_r (s : string) : s +:+ EmptyString = s.
Proof. induction s; simpl; congruence. Qed.

Lemma append_assoc (a b c : string) : (a +:+ b) +:+ c = a +:+ (b +:+ c).
Proof. induction a; simpl; congruence. Qed.

Lemma length_append (a b : string) :
  String.length (a +:+ b) = String.length a + String.length b.
Proof. induction a; simpl; congruence. Qed.

(** Induction on the length of a text. *)
Lemma string_length_ind (P : string -> Prop) :
  (forall s, (forall t, String.length t < String.length s -> P t) -> P s) ->
  forall s, P s.
Proof.
  intros step s.
  remember (String.length s) as n eqn:Hn.
  revert s Hn. induction n as [n IH] using lt_wf_ind.
  intros s ->. apply step. intros t Ht. eapply IH; eauto.
Qed.

End StringFacts.

(* ===================================================================== *)
(** * The scan of the pattern *)
(* ===================================================================== *)

Section ReFacts.

Import Spec.

Lemma lazy_body_length t m r :
  Re.lazy_body t = Some (m, r) -> String.length r < String.length t.
Proof.
  revert m r. induction t as [|d t IH]; simpl; intros m r H; [discriminate|].
  destruct (Ascii.eqb d "}").
  - injection H as <- <-. lia.
  - destruct (Ascii.eqb d PyStr.nl); [discriminate|].
    destruct (Re.lazy_body t) as [[m' r']|] eqn:E; [|discriminate].
    injection H as <- <-. specialize (IH _ _ eq_refl). lia.
Qed.

Lemma lazy_body_sound t m r :
  Re.lazy_body t = Some (m, r) ->
  t = m +:+ String "}" r /\ body_ok same_line m = true.
Proof.
  revert m r. induction t as [|d t IH]; intros m r; simpl; [discriminate|].
  destruct (Ascii.eqb_spec d "}") as [->|Hd].
  - intros H. injection H as <- <-. auto.
  - destruct (Ascii.eqb d PyStr.nl) eqn:Hn; [discriminate|].
    destruct (Re.lazy_body t) as [[m' r']|]; [|discriminate].
    intros H. injection H as <- <-.
    destruct (IH _ _ eq_refl) as [-> Hm']. split; [reflexivity|].
    cbn [body_ok]. unfold same_line at 1. rewrite Hn, Hm'.
    destruct (Ascii.eqb_spec d "}"); [contradiction|reflexivity].
Qed.

Lemma lazy_body_complete m r :
  body_ok same_line m = true ->
  Re.lazy_body (m +:+ String "}" r) = Some (m, r).
Proof.
  induction m as [|c m IH]; cbn [body_ok]; intros H; [reflexivity|].
  apply andb_prop in H as [H Hm]. apply andb_prop in H as [Hc Hb].
  unfold same_line in Hc. simpl.
  destruct (Ascii.eqb c "}"); [discriminate|].
  destruct (Ascii.eqb c PyStr.nl); [discriminate|].
  rewrite (IH Hm). reflexivity.
Qed.

(** The lazy body succeeds exactly on a body followed by a closing
    brace. *)
Lemma lazy_body_Some t m r :
  Re.lazy_body t = Some (m, r) <->
  t = m +:+ String "}" r /\ body_ok same_line m = true.
Proof.
  split; [apply lazy_body_sound|].
  intros [-> H]. apply lazy_body_complete, H.
Qed.

Lemma lazy_body_None t : Re.lazy_body t = None <-> ~ closes same_line t.
Proof.
  split.
  - intros H (m & r & Ht & Hm).
    assert (Re.lazy_body t = Some (m, r)) by (apply lazy_body_Some; auto).
    congruence.
  - intros H. destruct (Re.lazy_body t) as [[m r]|] eqn:E; [|reflexivity].
    exfalso. apply H. exists m, r. apply lazy_body_Some. assumption.
Qed.

(** The inner loop of the scan is the lazy body. *)
Lemma finditer_body (fallback : list Re.piece) (acc : string -> string) t :
  (fix body (acc : string -> string) (t : string) {struct t}
     : list Re.piece :=
     match t with
     | EmptyString => fallback
     | String d t' =>
         if Ascii.eqb d "}" then Re.Hit (acc "}") :: Re.finditer t'
         else if Ascii.eqb d PyStr.nl then fallback
         else body (fun r => acc (String d r)) t'
     end) acc t =
  match Re.lazy_body t with
  | Some (m, r) => Re.Hit (acc (m +:+ "}")) :: Re.finditer r
  | None => fallback
  end.
Proof.
  revert acc. induction t as [|d t IH]; intros acc; simpl; [reflexivity|].
  destruct (Ascii.eqb d "}"); [reflexivity|].
  destruct (Ascii.eqb d PyStr.nl); [reflexivity|].
  rewrite IH. destruct (Re.lazy_body t) as [[m r]|]; reflexivity.
Qed.

(** The scan at an opening brace. *)
Lemma finditer_brace s :
  Re.finditer (String "{" s) =
  match Re.lazy_body s with
  | Some (m, r) => Re.Hit (String "{" (m +:+ "}")) :: Re.finditer r
  | None => Re.Gap "{" :: Re.finditer s
  end.
Proof.
  exact (finditer_body (Re.Gap "{" :: Re.finditer s) (fun r => String "{" r) s).
Qed.

Lemma finditer_other c s :
  c <> "{"%char -> Re.finditer (String c s) = Re.Gap c :: Re.finditer s.
Proof.
  intros H. simpl. destruct (Ascii.eqb_spec c "{"); [contradiction|reflexivity].
Qed.

(** The scan of the code finds what the claim describes, with the
    characters of one line between the braces. *)
Lemma finditer_scan s : scan same_line s (Re.finditer s).
Proof.
  induction s as [s IH] using string_length_ind.
  destruct s as [|c s]; [constructor|].
  destruct (Ascii.eqb_spec c "{") as [->|Hc].
  - rewrite finditer_brace.
    destruct (Re.lazy_body s) as [[m r]|] eqn:E.
    + pose proof (lazy_body_length _ _ _ E) as Hlen.
      apply lazy_body_sound in E as [-> Hm].
      constructor; [assumption|]. apply IH. simpl. lia.
    + constructor.
      * intros _. apply lazy_body_None, E.
      * apply IH. simpl. lia.
  - rewrite finditer_other by assumption.
    constructor; [contradiction|]. apply IH. simpl. lia.
Qed.

(** And nothing else: the description has one answer. *)
Lemma scan_finditer s ps : scan same_line s ps -> ps = Re.finditer s.
Proof.
  induction 1 as [|m r ps Hm _ IH|c s ps Hc _ IH].
  - reflexivity.
  - rewrite finditer_brace, (lazy_body_complete _ _ Hm). congruence.
  - destruct (Ascii.eqb_spec c "{") as [->|Hne].
    + rewrite finditer_brace.
      rewrite (proj2 (lazy_body_None s) (Hc eq_refl)). congruence.
    + rewrite finditer_other by assumption. congruence.
Qed.

(** A match has exactly one closing brace, its last character. *)
Lemma body_ok_closings inner m : body_ok inner m = true -> closings m = 0.
Proof.
  induction m as [|c m IH]; simpl; [reflexivity|]. intros H.
  apply andb_prop in H as [H Hm]. apply andb_prop in H as [_ Hc].
  destruct (Ascii.eqb c "}"); [discriminate|]. auto.
Qed.

Lemma closings_append a b : closings (a +:+ b) = closings a + closings b.
Proof. induction a as [|c a IH]; simpl; [reflexivity|]. rewrite IH. lia. Qed.

Lemma scan_hit_closings inner s ps x :
  scan inner s ps -> In (Re.Hit x) ps -> closings x = 1.
Proof.
  induction 1 as [|m r ps Hm _ IH|c s ps Hc _ IH]; simpl; intros Hin.
  - contradiction.
  - destruct Hin as [Hin|Hin]; [|auto].
    injection Hin as <-. simpl. rewrite closings_append.
    rewrite (body_ok_closings _ _ Hm). reflexivity.
  - destruct Hin as [Hin|Hin]; [discriminate|auto].
Qed.

Lemma In_hits x ps : In x (Re.hits ps) <-> In (Re.Hit x) ps.
Proof.
  induction ps as [|[c|m] ps IH]; simpl; [tauto| |].
  - rewrite IH. split; [auto|]. intros [H|H]; [discriminate|assumption].
  - rewrite IH. split; intros [H|H]; auto; left; congruence.
Qed.

(** *** Texts without a closing brace after an opening one *)

Lemma clean_weaken o s : clean o s = true -> clean false s = true.
Proof.
  revert o. induction s as [|c s IH]; intros o; simpl; [reflexivity|].
  destruct (Ascii.eqb c "{"); [auto|].
  destruct (Ascii.eqb c "}").
  - intros H. apply andb_prop in H as [_ H]. exact H.
  - destruct (Ascii.eqb c PyStr.nl); eauto.
Qed.

(** What [re.sub] leaves has no match of the pattern left in it. *)
Lemma clean_sub_empty s :
  clean false (Re.sub_empty s) = true /\
  (Re.lazy_body s = None -> clean true (Re.sub_empty s) = true).
Proof.
  unfold Re.sub_empty.
  induction s as [s IH] using string_length_ind.
  destruct s as [|c s]; [split; reflexivity|].
  destruct (Ascii.eqb_spec c "{") as [->|Hc].
  - rewrite finditer_brace.
    destruct (Re.lazy_body s) as [[m r]|] eqn:E.
    + pose proof (lazy_body_length _ _ _ E) as Hlen.
      destruct (IH r) as [IH1 IH2]; [simpl; lia|].
      split; [exact IH1|].
      simpl. rewrite E. discriminate.
    + destruct (IH s) as [IH1 IH2]; [simpl; lia|].
      simpl. rewrite E. auto.
  - rewrite finditer_other by assumption.
    destruct (IH s) as [IH1 IH2]; [simpl; lia|].
    simpl. destruct (Ascii.eqb_spec c "{"); [contradiction|].
    destruct (Ascii.eqb c "}"); [split; [exact IH1|discriminate]|].
    destruct (Ascii.eqb c PyStr.nl); [auto|].
    split; [exact IH1|].
    destruct (Re.lazy_body s) as [[m r]|]; [discriminate|auto].
Qed.

(** Deleting characters other than line feeds keeps a text clean. *)
Lemma clean_deleted P s t :
  deleted P s t -> (forall c, P c -> c <> PyStr.nl) ->
  forall o, clean o s = true -> clean o t = true.
Proof.
  intros Hd HP. induction Hd as [|c s t _ IH|c s t Hc _ IH]; intros o; simpl.
  - auto.
  - destruct (Ascii.eqb c "{"); [auto|].
    destruct (Ascii.eqb c "}").
    + intros H. apply andb_prop in H as [-> H]. simpl. auto.
    + destruct (Ascii.eqb c PyStr.nl); auto.
  - destruct (Ascii.eqb c "{").
    { intros H. apply IH in H. destruct o; [assumption|].
      apply (clean_weaken _ _ H). }
    destruct (Ascii.eqb c "}").
    { intros H. apply andb_prop in H as [Ho H].
      destruct o; [discriminate|]. auto. }
    destruct (Ascii.eqb_spec c PyStr.nl) as [->|_]; [|auto].
    exfalso. apply (HP _ Hc). reflexivity.
Qed.

Lemma remove_char_deleted c s :
  deleted (eq c) s (PyStr.remove_char c s).
Proof.
  induction s as [|d s IH]; simpl; [constructor|].
  destruct (Ascii.eqb_spec d c) as [->|_]; constructor; auto.
Qed.

Lemma strip_prefix_sound old s r :
  PyStr.strip_prefix old s = Some r -> s = old +:+ r.
Proof.
  revert s. induction old as [|o old IH]; intros s; simpl.
  - congruence.
  - destruct s as [|c s]; [discriminate|].
    destruct (Ascii.eqb_spec c o) as [->|_]; [|discriminate].
    intros H. rewrite (IH _ H). reflexivity.
Qed.

(** The inner loop of [replace_del] compares with the rest of [old]. *)
Lemma replace_del_eat (old : string) (fallback : string) o t :
  (fix eat (o t : string) {struct t} : string :=
     match o with
     | EmptyString => PyStr.replace_del old t
     | String oc o' =>
         match t with
         | EmptyString => fallback
         | String tc t' =>
             if Ascii.eqb tc oc then eat o' t' else fallback
         end
     end) o t =
  match PyStr.strip_prefix o t with
  | Some r => PyStr.replace_del old r
  | None => fallback
  end.
Proof.
  revert o. induction t as [|tc t IH]; intros [|oc o]; try reflexivity.
  simpl. destruct (Ascii.eqb tc oc); [apply IH|reflexivity].
Qed.

Lemma replace_del_cons o0 old c s :
  PyStr.replace_del (String o0 old) (String c s) =
  match PyStr.strip_prefix (String o0 old) (String c s) with
  | Some r => PyStr.replace_del (String o0 old) r
  | None => String c (PyStr.replace_del (String o0 old) s)
  end.
Proof.
  simpl. destruct (Ascii.eqb c o0); [|reflexivity].
  apply (replace_del_eat (String o0 old)).
Qed.

Definition char_of (old : string) (c : ascii) : Prop :=
  In c (list_ascii_of_string old).

Lemma deleted_prefix (P : ascii -> Prop) old r t :
  (forall c, char_of old c -> P c) ->
  deleted P r t -> deleted P (old +:+ r) t.
Proof.
  induction old as [|o old IH]; simpl; intros H Hd; [assumption|].
  constructor.
  - apply H. left. reflexivity.
  - apply IH; [|assumption]. intros c Hc. apply H. right. exact Hc.
Qed.

(** [replace_del] deletes characters of [old] only. *)
Lemma replace_del_deleted old s :
  deleted (char_of old) s (PyStr.replace_del old s).
Proof.
  induction s as [s IH] using string_length_ind.
  destruct s as [|c s]; [constructor|].
  destruct old as [|o0 old].
  { simpl. clear IH. generalize (String c s) as u.
    induction u; constructor; assumption. }
  rewrite replace_del_cons.
  destruct (PyStr.strip_prefix (String o0 old) (String c s)) as [r|] eqn:E.
  - apply strip_prefix_sound in E as E'. rewrite E'.
    apply deleted_prefix; [auto|]. apply IH.
    rewrite E', length_append. simpl. lia.
  - constructor. apply IH. simpl. lia.
Qed.

Lemma lstrip_suffix s : exists a, s = a +:+ PyStr.lstrip s.
Proof.
  induction s as [|c s [a IH]]; simpl.
  - exists EmptyString. reflexivity.
  - destruct (PyStr.is_space c).
    + exists (String c a). simpl. congruence.
    + exists EmptyString. reflexivity.
Qed.

Lemma rstrip_prefix s : exists b, s = PyStr.rstrip s +:+ b.
Proof.
  induction s as [|c s [b IH]]; simpl.
  - exists EmptyString. reflexivity.
  - destruct (PyStr.rstrip s) as [|d r].
    + destruct (PyStr.is_space c).
      * exists (String c s). reflexivity.
      * exists s. reflexivity.
    + exists b. simpl. simpl in IH. congruence.
Qed.

Lemma clean_suffix a s o : clean o (a +:+ s) = true -> clean false s = true.
Proof.
  revert o. induction a as [|c a IH]; intros o; simpl.
  - apply clean_weaken.
  - destruct (Ascii.eqb c "{"); [eauto|].
    destruct (Ascii.eqb c "}").
    + intros H. apply andb_prop in H as [_ H]. eauto.
    + destruct (Ascii.eqb c PyStr.nl); eauto.
Qed.

Lemma clean_prefix s b o : clean o (s +:+ b) = true -> clean o s = true.
Proof.
  revert o. induction s as [|c s IH]; intros o; simpl; [reflexivity|].
  destruct (Ascii.eqb c "{"); [eauto|].
  destruct (Ascii.eqb c "}").
  - intros H. apply andb_prop in H as [-> H]. simpl. eauto.
  - destruct (Ascii.eqb c PyStr.nl); eauto.
Qed.

Lemma clean_strip s : clean false s = true -> clean false (PyStr.strip s) = true.
Proof.
  intros H. unfold PyStr.strip.
  destruct (lstrip_suffix s) as [a Ha].
  destruct (rstrip_prefix (PyStr.lstrip s)) as [b Hb].
  rewrite Ha in H. apply clean_suffix in H.
  rewrite Hb in H. apply clean_prefix in H. exact H.
Qed.

Lemma forallb_same_line_append y b o :
  forallb same_line (list_ascii_of_string y) = true ->
  clean true (y +:+ String "}" b) = o -> o = false.
Proof.
  revert o. induction y as [|c y IH]; simpl; intros o Hy <-.
  - reflexivity.
  - apply andb_prop in Hy as [Hc Hy]. unfold same_line in Hc.
    destruct (Ascii.eqb c "{"); [eauto|].
    destruct (Ascii.eqb c "}"); [reflexivity|].
    destruct (Ascii.eqb c PyStr.nl); [discriminate|]. eauto.
Qed.

(** A clean text has no part in braces on one line. *)
Lemma clean_no_braced t x :
  clean false t = true -> one_line_braced x -> ~ occurs x t.
Proof.
  intros Ht (y & -> & Hy) (a & b & ->).
  apply clean_suffix in Ht. simpl in Ht.
  rewrite append_assoc in Ht. simpl in Ht.
  pose proof (forallb_same_line_append y b _ Hy eq_refl) as H.
  congruence.
Qed.

(** The pattern has no match in a clean text. *)
Lemma clean_finditer s :
  (clean false s = true -> Re.findall s = []) /\
  (clean true s = true -> Re.lazy_body s = None).
Proof.
  unfold Re.findall.
  induction s as [|c s [IH1 IH2]]; [split; reflexivity|].
  destruct (Ascii.eqb_spec c "{") as [->|Hc].
  - rewrite finditer_brace. simpl. split; intros H.
    + rewrite (IH2 H). simpl. apply IH1, (clean_weaken _ _ H).
    + rewrite (IH2 H). reflexivity.
  - rewrite finditer_other by assumption. simpl.
    destruct (Ascii.eqb_spec c "{"); [contradiction|].
    destruct (Ascii.eqb c "}"); [split; [intros H; auto|discriminate]|].
    destruct (Ascii.eqb c PyStr.nl); [split; auto|].
    split; [auto|]. intros H. rewrite (IH2 H). reflexivity.
Qed.

End ReFacts.

(* ===================================================================== *)
(** * Dictionaries *)
(* ===================================================================== *)

Section DictFacts.

Lemma existsb_eqb_In k ks : existsb (String.eqb k) ks = true <-> In k ks.
Proof.
  rewrite existsb_exists. split.
  - intros (x & Hin & Hx). apply String.eqb_eq in Hx. congruence.
  - intros Hin. exists k. split; [assumption|apply String.eqb_refl].
Qed.

Lemma dict_get_app_fresh k v d1 d2 :
  ~ In k (Dict.keys d1) -> Dict.get k (d1 ++ (k, v) :: d2) = Some v.
Proof.
  induction d1 as [|[k' v'] d1 IH]; simpl; intros H.
  - rewrite String.eqb_refl. reflexivity.
  - destruct (String.eqb_spec k' k) as [->|_]; [tauto|]. apply IH. tauto.
Qed.

Lemma dict_set_fresh k v d :
  ~ In k (Dict.keys d) -> Dict.set k v d = d ++ [(k, v)].
Proof.
  induction d as [|[k' v'] d IH]; simpl; intros H; [reflexivity|].
  destruct (String.eqb_spec k' k) as [->|_]; [tauto|]. rewrite IH; tauto.
Qed.

Lemma distinct_app_cons ks1 k ks2 :
  Dict.distinct (ks1 ++ k :: ks2) = true ->
  ~ In k ks1 /\ Dict.distinct ((ks1 ++ [k]) ++ ks2) = true.
Proof.
  rewrite <- app_assoc. simpl. intros H. split; [|exact H].
  induction ks1 as [|k1 ks1 IH]; simpl in *; [tauto|].
  apply andb_prop in H as [H1 H2]. intros [->|Hin].
  - apply negb_true_iff in H1.
    assert (existsb (String.eqb k) (ks1 ++ k :: ks2) = true) as E.
    { apply existsb_eqb_In, in_or_app. right. left. reflexivity. }
    congruence.
  - exact (IH H2 Hin).
Qed.

(** Copying the keys of a dictionary one by one rebuilds it. *)
Lemma copy_into_app d1 d2 :
  Dict.wf (d1 ++ d2) = true ->
  Dict.copy_into (Dict.keys d2) (d1 ++ d2) d1 = d1 ++ d2.
Proof.
  revert d1. induction d2 as [|[k v] d2 IH]; intros d1 Hwf; simpl.
  - rewrite app_nil_r. reflexivity.
  - unfold Dict.wf, Dict.keys in Hwf. rewrite map_app in Hwf. simpl in Hwf.
    apply distinct_app_cons in Hwf as [Hk Hwf].
    rewrite dict_get_app_fresh by exact Hk.
    rewrite dict_set_fresh by exact Hk.
    replace (d1 ++ (k, v) :: d2) with ((d1 ++ [(k, v)]) ++ d2)
      by (rewrite <- app_assoc; reflexivity).
    apply IH. unfold Dict.wf, Dict.keys. rewrite !map_app. exact Hwf.
Qed.

Lemma copy_into_self d :
  Dict.wf d = true -> Dict.copy_into (Dict.keys d) d [] = d.
Proof. intros H. apply (copy_into_app [] d H). Qed.

End DictFacts.

(* ===================================================================== *)
(** * Running the computations *)
(* ===================================================================== *)

Section MonadFacts.

Context {W : Type} {host : Host W}.

Lemma run_bind {A B} (m : M W A) (k : A -> M W B) st :
  (m ≫= k) st =
  match m st with
  | (Ret a, st') => k a st'
  | (Raise e, st') => (Raise e, st')
  | (Timeout, st') => (Timeout, st')
  end.
Proof. reflexivity. Qed.

Lemma bind_inv {A B} (m : M W A) (k : A -> M W B) st r st' :
  (m ≫= k) st = (r, st') ->
  (exists a st1, m st = (Ret a, st1) /\ k a st1 = (r, st')) \/
  (exists e, m st = (Raise e, st') /\ r = Raise e) \/
  (m st = (Timeout, st') /\ r = Timeout).
Proof.
  rewrite run_bind. destruct (m st) as [[a|e|] st1].
  - intros H. left. eauto.
  - intros H. injection H as <- <-. right. left. eauto.
  - intros H. injection H as <- <-. right. right. eauto.
Qed.

(** A computation that neither changes the state nor runs out of fuel,
    and whose result depends on the options only. *)
Definition pure {A} (m : M W A) : Prop :=
  forall st,
    snd (m st) = st /\ fst (m st) <> Timeout /\
    forall st2, options st2 = options st -> fst (m st2) = fst (m st).

Lemma pure_run {A} (m : M W A) st : pure m -> m st = (fst (m st), st).
Proof.
  intros H. destruct (H st) as [H1 _]. destruct (m st); simpl in *; congruence.
Qed.

Lemma pure_ret {A} (a : A) : pure (ret a).
Proof. intros st. repeat split; auto; discriminate. Qed.

Lemma pure_mret {A} (a : A) : pure (mret a : M W A).
Proof. apply pure_ret. Qed.

Lemma pure_raise {A} c arg : pure (raise c arg : M W A).
Proof. intros st. repeat split; auto; discriminate. Qed.

Lemma pure_reraise {A} e : pure (reraise e : M W A).
Proof. intros st. repeat split; auto; discriminate. Qed.

Lemma pure_of_answer {A} (a : answer A) : pure (of_answer a).
Proof. destruct a; [apply pure_ret|apply pure_reraise]. Qed.

Lemma pure_the_options : pure the_options.
Proof.
  intros st. repeat split; [discriminate|]. intros st2 H. simpl. congruence.
Qed.

Lemma pure_bind {A B} (m : M W A) (k : A -> M W B) :
  pure m -> (forall a, pure (k a)) -> pure (m ≫= k).
Proof.
  intros Hm Hk st. rewrite run_bind.
  destruct (Hm st) as (Hs & Ht & Ho).
  destruct (m st) as [[a|e|] st1] eqn:E; simpl in *; subst st1.
  - destruct (Hk a st) as (Hs' & Ht' & Ho'). repeat split; auto.
    intros st2 H2. rewrite run_bind.
    specialize (Ho st2 H2). destruct (Hm st2) as (Hs2 & _).
    destruct (m st2) as [r2 st2']; simpl in *; subst. apply Ho', H2.
  - repeat split; [discriminate|].
    intros st2 H2. rewrite run_bind.
    specialize (Ho st2 H2). destruct (m st2) as [r2 st2']; simpl in *; subst.
    reflexivity.
  - congruence.
Qed.

Lemma pure_attempt {A} (m : M W A) : pure m -> pure (attempt m).
Proof.
  intros Hm st. unfold attempt.
  destruct (Hm st) as (Hs & Ht & Ho).
  destruct (m st) as [[a|e|] st1] eqn:E; simpl in *; subst; try congruence;
    (repeat split; [discriminate|]; intros st2 H2; specialize (Ho st2 H2);
     destruct (m st2) as [r2 st2']; simpl in *; subst; reflexivity).
Qed.

Lemma pure_mapM {A B} (f : A -> M W B) l :
  (forall a, pure (f a)) -> pure (mapM f l).
Proof.
  intros Hf. induction l as [|a l IH]; simpl; [apply pure_ret|].
  apply pure_bind; [apply Hf|]. intros b.
  apply pure_bind; [apply IH|]. intros bs. apply pure_ret.
Qed.

Lemma pure_subscript v k : pure (subscript v k).
Proof.
  unfold subscript. destruct v; try apply pure_raise.
  destruct (Dict.get k kvs); [apply pure_ret|apply pure_raise].
Qed.

(** The reading of the arguments in [execute_function]. *)
Lemma pure_arguments (s : string) :
  pure (match json_loads s with
        | Value a => ret a
        | Throws err =>
            if isinstance err JSONDecodeError
            then raise ParseArgumentsFailed s
            else reraise err
        end : M W json).
Proof.
  destruct (json_loads s) as [a|err]; [apply pure_ret|].
  destruct (isinstance err JSONDecodeError);
    [apply pure_raise|apply pure_reraise].
Qed.

Lemma pure_store v k x : pure (store v k x).
Proof. unfold store. destruct v; try apply pure_raise. apply pure_ret. Qed.

Lemma pure_iterate v : pure (iterate v).
Proof. unfold iterate. destruct v; try apply pure_raise; apply pure_ret. Qed.

Lemma pure_get_functions : pure get_functions.
Proof.
  unfold get_functions. apply pure_bind.
  - apply pure_attempt, pure_bind; [apply pure_the_options|]. intros opts.
    apply pure_bind.
    + destruct (truthy_str _); [apply pure_of_answer|apply pure_ret].
    + intros result. destruct (truthy result); [|apply pure_ret].
      apply pure_bind; [apply pure_iterate|]. intros settings.
      apply pure_bind; [|intros; apply pure_ret].
      apply pure_mapM. intros setting.
      apply pure_bind; [apply pure_subscript|]. intros function.
      apply pure_bind; [apply pure_subscript|]. intros type.
      apply pure_bind; [apply pure_of_answer|]. intros ex.
      apply pure_bind; [apply pure_of_answer|]. intros f. apply pure_store.
  - intros [result|e]; [apply pure_ret|].
    destruct (_ || _); [apply pure_reraise|apply pure_raise].
Qed.

Lemma pure_configured_functions : pure configured_functions.
Proof.
  unfold configured_functions.
  apply pure_bind; [apply pure_get_functions|]. intros fs. apply pure_iterate.
Qed.

Lemma pure_function_specs : pure function_specs.
Proof.
  unfold function_specs.
  apply pure_bind; [apply pure_configured_functions|]. intros fs.
  apply pure_mapM. intros s. apply pure_subscript.
Qed.

Lemma pure_find_function nm fs : pure (find_function nm fs).
Proof.
  induction fs as [|s fs IH]; simpl; [apply pure_ret|].
  apply pure_bind; [apply pure_subscript|]. intros sp.
  apply pure_bind; [apply pure_subscript|]. intros nm'.
  destruct nm'; try apply IH.
  destruct (String.eqb _ _); [apply pure_ret|apply IH].
Qed.

(** *** What a computation adds to the trace *)

(** From [st] to [st']: the options are the same, the events added all
    satisfy [φ], and at most [b] of them are dispatches. *)
Definition steps (φ : event -> Prop) (b : nat) (st st' : state W) : Prop :=
  options st' = options st /\
  exists evs, trace st' = trace st ++ evs /\ Forall φ evs /\
              Spec.dispatches evs <= b.

Lemma dispatches_app e1 e2 :
  Spec.dispatches (e1 ++ e2) = Spec.dispatches e1 + Spec.dispatches e2.
Proof. unfold Spec.dispatches. rewrite List.filter_app, length_app. reflexivity. Qed.

Lemma steps_same φ b st st' :
  options st' = options st -> trace st' = trace st -> steps φ b st st'.
Proof.
  intros Ho Ht. split; [assumption|]. exists []. rewrite app_nil_r.
  repeat split; auto. unfold Spec.dispatches. simpl. lia.
Qed.

Lemma steps_refl φ b st : steps φ b st st.
Proof. apply steps_same; reflexivity. Qed.

Lemma steps_trans φ b1 b2 st1 st2 st3 :
  steps φ b1 st1 st2 -> steps φ b2 st2 st3 -> steps φ (b1 + b2) st1 st3.
Proof.
  intros [Ho1 (e1 & Ht1 & Hf1 & Hb1)] [Ho2 (e2 & Ht2 & Hf2 & Hb2)].
  split; [congruence|]. exists (e1 ++ e2).
  rewrite Ht2, Ht1, app_assoc. split; [reflexivity|].
  split; [apply Forall_app; auto|]. rewrite dispatches_app. lia.
Qed.

Lemma steps_weaken (φ ψ : event -> Prop) b b' st st' :
  (forall ev, φ ev -> ψ ev) -> b <= b' -> steps φ b st st' -> steps ψ b' st st'.
Proof.
  intros Hi Hb [Ho (evs & Ht & Hf & Hd)]. split; [assumption|].
  exists evs. repeat split; [assumption| |lia].
  eapply Forall_impl; eassumption.
Qed.

(** From a state whose options satisfy [I], [m] adds events of [φ]
    only, at most [b] dispatches among them, and under [T] has fuel
    enough. *)
Definition spends (I : entry_options -> Prop) (φ : event -> Prop) (b : nat)
  (T : Prop) {A} (m : M W A) : Prop :=
  forall st, I (options st) ->
             steps φ b st (snd (m st)) /\ (T -> fst (m st) <> Timeout).

(** [m] has fuel enough and adds events of [φ] only, no dispatch among
    them. *)
Definition emits (φ : event -> Prop) {A} (m : M W A) : Prop :=
  spends (fun _ => True) φ 0 True m.

Lemma spends_weaken (I I' : entry_options -> Prop) (φ ψ : event -> Prop)
  b b' (T T' : Prop) {A} (m : M W A) :
  (forall o, I' o -> I o) ->
  (forall ev, φ ev -> ψ ev) -> b <= b' -> (T' -> T) ->
  spends I φ b T m -> spends I' ψ b' T' m.
Proof.
  intros HI Hi Hb HT Hm st Hst. destruct (Hm st (HI _ Hst)) as [Hs Ht].
  split; [eapply steps_weaken; eassumption|auto].
Qed.

Lemma spends_bind I φ b1 b2 T {A B} (m : M W A) (k : A -> M W B) :
  spends I φ b1 T m -> (forall a, spends I φ b2 T (k a)) ->
  spends I φ (b1 + b2) T (m ≫= k).
Proof.
  intros Hm Hk st Hst. rewrite run_bind. destruct (Hm st Hst) as [Hs Ht].
  destruct (m st) as [[a|e|] st1]; simpl in *.
  - assert (I (options st1)) as Hst1 by (destruct Hs as [-> _]; exact Hst).
    destruct (Hk a st1 Hst1) as [Hs' Ht']. split; [|exact Ht'].
    eapply steps_trans; eassumption.
  - split; [|intros _; discriminate].
    eapply steps_weaken; [| |exact Hs]; auto; lia.
  - split; [|intros HT; exfalso; apply (Ht HT); reflexivity].
    eapply steps_weaken; [| |exact Hs]; auto; lia.
Qed.

(** After reading the options, they are known. *)
Lemma spends_the_options I φ b T {B} (k : entry_options -> M W B) :
  (forall o, I o -> spends (fun o' => o' = o) φ b T (k o)) ->
  spends I φ b T (the_options ≫= k).
Proof.
  intros Hk st Hst. rewrite run_bind. cbn [the_options].
  apply (Hk (options st) Hst st eq_refl).
Qed.

(** After a call into the environment, its answer is known. *)
Lemma spends_call_host I φ b T {A B} (op : W -> answer A * W)
  (k : A -> M W B) :
  (forall a w w', op w = (Value a, w') -> spends I φ b T (k a)) ->
  spends I φ b T (call_host op ≫= k).
Proof.
  intros Hk st Hst. rewrite run_bind. unfold call_host.
  destruct (op (world st)) as [[a|e] w] eqn:E.
  - destruct (Hk a _ _ E (set_world w st) Hst) as [Hs Ht].
    split; [|exact Ht].
    eapply steps_weaken; [| |eapply (steps_trans φ 0 b)];
      [auto|lia|apply steps_same; reflexivity|exact Hs].
  - split; [apply steps_same; reflexivity|intros _; discriminate].
Qed.

Lemma emits_pure φ {A} (m : M W A) : pure m -> emits φ m.
Proof.
  intros H st _. destruct (H st) as (Hs & Ht & _). rewrite Hs.
  split; [apply steps_refl|auto].
Qed.

Lemma emits_bind φ {A B} (m : M W A) (k : A -> M W B) :
  emits φ m -> (forall a, emits φ (k a)) -> emits φ (m ≫= k).
Proof. intros Hm Hk. exact (spends_bind _ φ 0 0 True m k Hm Hk). Qed.

Lemma emits_attempt φ {A} (m : M W A) : emits φ m -> emits φ (attempt m).
Proof.
  intros Hm st Hst. unfold attempt. destruct (Hm st Hst) as [Hs Ht].
  destruct (m st) as [[a|e|] st1]; simpl in *;
    (split; [assumption|]); intros _; try discriminate.
  exfalso. apply Ht; auto.
Qed.

Lemma emits_log (φ : event -> Prop) e :
  φ e -> Spec.is_execute e = false -> emits φ (log e).
Proof.
  intros H He st _. split; [|discriminate]. split; [reflexivity|].
  exists [e]. split; [reflexivity|]. split; [auto|].
  unfold Spec.dispatches. simpl. rewrite He. simpl. lia.
Qed.

Lemma emits_call_host φ {A} (op : W -> answer A * W) : emits φ (call_host op).
Proof.
  intros st _. unfold call_host.
  destruct (op (world st)) as [[a|e] w]; simpl;
    (split; [apply steps_same; reflexivity|discriminate]).
Qed.

Lemma emits_state φ {A} (f : state W -> A) (g : state W -> state W) :
  (forall st, options (g st) = options st /\ trace (g st) = trace st) ->
  emits φ (fun st => (Ret (f st), g st)).
Proof.
  intros H st _. destruct (H st) as [Ho Ht]. simpl.
  split; [|discriminate]. apply steps_same; assumption.
Qed.

Lemma emits_spends I φ b T {A} (m : M W A) :
  emits φ m -> spends I φ b T m.
Proof. apply spends_weaken; auto; lia. Qed.

Lemma spends_attempt I φ b T {A} (m : M W A) :
  spends I φ b T m -> spends I φ b T (attempt m).
Proof.
  intros Hm st Hst. unfold attempt. destruct (Hm st Hst) as [Hs Ht].
  destruct (m st) as [[a|e|] st1]; simpl in *;
    (split; [assumption|]); intros HT; try discriminate.
  exfalso. apply (Ht HT); auto.
Qed.

Lemma spends_bind_l I φ b T {A B} (m : M W A) (k : A -> M W B) :
  emits φ m -> (forall a, spends I φ b T (k a)) -> spends I φ b T (m ≫= k).
Proof.
  intros Hm Hk. apply (spends_bind I φ 0 b T); [|exact Hk].
  apply emits_spends, Hm.
Qed.

Lemma spends_bind_r I φ b T {A B} (m : M W A) (k : A -> M W B) :
  spends I φ b T m -> (forall a, emits φ (k a)) -> spends I φ b T (m ≫= k).
Proof.
  intros Hm Hk.
  eapply spends_weaken; [| | | |apply (spends_bind I φ b 0 T m k Hm)];
    auto; [lia|].
  intros a. apply emits_spends, Hk.
Qed.

End MonadFacts.

Section DirectiveFacts.

Context {W : Type} {host : Host W}.

(** One host service call, as [call_service] makes it: the event, the
    call, and the record of the service called. *)
Definition invoke (domain service_name : string) (data : dict)
  (service : string) : M W (option dict) :=
  log (EvService domain service_name data);;
  call_host (services_async_call domain service_name data);;
  ret (Some (Dict.set "service" (JStr service) data)).

Lemma invoke_run domain service_name data service st :
  invoke domain service_name data service st =
  let st1 := add_event (EvService domain service_name data) st in
  match services_async_call domain service_name data (world st) with
  | (Value _, w) =>
      (Ret (Some (Dict.set "service" (JStr service) data)), set_world w st1)
  | (Throws e, w) => (Raise e, set_world w st1)
  end.
Proof.
  unfold invoke. rewrite run_bind. simpl. rewrite run_bind.
  unfold call_host. simpl.
  destruct (services_async_call _ _ _ _) as [[[]|e] w]; reflexivity.
Qed.

(** A directive of the domain [script]. *)
Lemma call_service_script segment d s st :
  json_loads segment = Value (JObj d) ->
  Dict.get "service" d = Some (JStr s) ->
  hd "" (PyStr.split "." s) = "script" ->
  Dict.wf (Dict.del "service" d) = true ->
  call_service segment st =
  invoke "script" "turn_on" (Spec.script_data s (Dict.del "service" d))
    "script.turn_on" st.
Proof.
  intros Hj Hg Hd Hwf. unfold call_service. rewrite run_bind, Hj. simpl.
  unfold Dict.pop. rewrite Hg, Hd. simpl.
  rewrite (copy_into_self _ Hwf). reflexivity.
Qed.

Lemma split_nonempty s dom nm more :
  PyStr.split "." s = dom :: nm :: more -> String.eqb s "" = false.
Proof. destruct s; [discriminate|reflexivity]. Qed.

(** A directive of another domain, with a service [domain.name] and
    something besides the service. *)
Lemma call_service_plain segment d s dom nm more st :
  json_loads segment = Value (JObj d) ->
  Dict.get "service" d = Some (JStr s) ->
  PyStr.split "." s = dom :: nm :: more ->
  dom <> "script" ->
  Dict.del "service" d <> [] ->
  call_service segment st = invoke dom nm (Dict.del "service" d) s st.
Proof.
  intros Hj Hg Hs Hd Hr. unfold call_service. rewrite run_bind, Hj. simpl.
  unfold Dict.pop. rewrite Hg, Hs. simpl.
  destruct (String.eqb_spec dom "script") as [->|_]; [contradiction|].
  rewrite Hs, (split_nonempty _ _ _ _ Hs). simpl.
  destruct (Dict.del "service" d) as [|kv rest]; [contradiction|].
  reflexivity.
Qed.

(** The guard: a directive of another domain with nothing besides the
    service is passed over. *)
Lemma call_service_skip segment d s st :
  json_loads segment = Value (JObj d) ->
  Dict.get "service" d = Some (JStr s) ->
  hd "" (PyStr.split "." s) <> "script" ->
  Dict.del "service" d = [] ->
  call_service segment st = (Ret None, st).
Proof.
  intros Hj Hg Hd Hr. unfold call_service. rewrite run_bind, Hj. simpl.
  unfold Dict.pop. rewrite Hg, Hr.
  destruct (String.eqb_spec (hd "" (PyStr.split "." s)) "script");
    [contradiction|].
  simpl. rewrite orb_true_r. reflexivity.
Qed.

(** An event of a host service call. *)
Definition is_service (ev : event) : Prop := Spec.is_service ev = true.

(** A segment that is called adds its one event; one that is passed
    over adds none. *)
Lemma call_service_count segment st o st' :
  call_service segment st = (Ret o, st') ->
  exists evs, trace st' = trace st ++ evs /\ Forall is_service evs /\
              length evs = match o with Some _ => 1 | None => 0 end.
Proof.
  unfold call_service. intros H.
  apply bind_inv in H as [(v & st1 & H1 & H)|[(e & _ & ?)|[_ ?]]];
    try discriminate.
  assert (st1 = st) as ->.
  { destruct (json_loads segment); cbv [of_answer ret reraise] in H1;
      congruence. }
  clear H1. destruct v as [| | | | |d]; try discriminate.
  destruct (Dict.pop "service" d) as [[v rest]|]; [|discriminate].
  destruct v; try discriminate.
  destruct (if String.eqb _ _ then _ else _) as [service service_call].
  destruct (_ || _).
  { injection H as <- <-. exists []. rewrite app_nil_r. auto. }
  destruct (nth_error _ _) as [service_name|]; [|discriminate].
  change (invoke (hd "" (PyStr.split "." service)) service_name
            service_call service st = (Ret o, st')) in H.
  rewrite invoke_run in H. cbv zeta in H.
  destruct (services_async_call _ _ _ _) as [[[]|e] w]; [|discriminate].
  injection H as <- <-. eexists [_]. simpl.
  repeat split. constructor; [reflexivity|constructor].
Qed.

Lemma service_loop_count segments failed called st flag sc st' :
  service_loop segments failed called st = (Ret (flag, sc), st') ->
  exists evs, trace st' = trace st ++ evs /\ Forall is_service evs /\
              length sc = length called + length evs.
Proof.
  revert failed called st.
  induction segments as [|segment rest IH]; intros failed called st; simpl.
  - intros H. injection H as <- <- <-. exists []. rewrite app_nil_r.
    repeat split; auto.
  - rewrite run_bind. unfold attempt.
    destruct (call_service segment st) as [[o|e|] st1] eqn:E;
      [| |discriminate].
    + apply call_service_count in E as (e1 & Ht1 & Hf1 & Hl1).
      destruct o as [rec|]; intros H; apply IH in H as (e2 & Ht2 & Hf2 & Hl2);
        exists (e1 ++ e2); rewrite Ht2, Ht1, app_assoc;
        (repeat split; [apply Forall_app; auto|]);
        rewrite Hl2, !length_app, Hl1; simpl; lia.
    + destruct (isinstance e Exception); discriminate.
Qed.

Lemma run_directives_count content1 st sc c' st' :
  run_directives content1 st = (Ret (sc, c'), st') ->
  exists evs, trace st' = trace st ++ evs /\ Forall is_service evs /\
              length sc = length evs.
Proof.
  unfold run_directives. destruct (PyStr.contains _ _); intros H.
  - apply bind_inv in H as [(segs & st0 & H0 & H)|[(e & _ & ?)|[_ ?]]];
      try discriminate.
    assert (st0 = st) as ->.
    { destruct (extract_json_objects content1);
        cbv [of_answer ret reraise] in H0; congruence. }
    apply bind_inv in H as [([flag sc0] & st1 & H1 & H)|[(e & _ & ?)|[_ ?]]];
      try discriminate.
    injection H as <- _ <-. apply service_loop_count in H1. exact H1.
  - injection H as <- _ <-. exists []. rewrite app_nil_r. auto.
Qed.

(** Segments that name their host calls, with a host that accepts
    them, are called one after the other. *)
Lemma service_loop_names segments evs failed called st :
  Spec.host_accepts ->
  Forall2 Spec.names segments evs ->
  exists sc st',
    service_loop segments failed called st = (Ret (failed, sc), st') /\
    trace st' = trace st ++ evs /\
    length sc = length called + length evs /\
    options st' = options st /\ heap st' = heap st /\
    history st' = history st.
Proof.
  intros Hacc Hn. revert failed called st.
  induction Hn as [|segment ev segments evs Hnames _ IH];
    intros failed called st.
  - exists called, st. simpl. rewrite app_nil_r. repeat split; auto.
  - cbn [service_loop]. rewrite run_bind. unfold attempt.
    assert (exists rec st1,
               call_service segment st = (Ret (Some rec), st1) /\
               trace st1 = trace st ++ [ev] /\ options st1 = options st /\
               heap st1 = heap st /\ history st1 = history st)
      as (rec & st1 & -> & Ht1 & Ho1 & Hh1 & Hy1).
    { destruct Hnames as [segment d s Hj Hg Hd Hwf
                         |segment d s dom nm more Hj Hg Hs Hd Hr].
      - rewrite (call_service_script _ _ _ _ Hj Hg Hd Hwf), invoke_run.
        cbv zeta. specialize (Hacc "script" "turn_on"
                      (Spec.script_data s (Dict.del "service" d)) (world st)).
        destruct (services_async_call _ _ _ _) as [a w]. simpl in Hacc.
        subst a. eexists _, _. repeat split.
      - rewrite (call_service_plain _ _ _ _ _ _ _ Hj Hg Hs Hd Hr), invoke_run.
        cbv zeta. specialize (Hacc dom nm (Dict.del "service" d) (world st)).
        destruct (services_async_call _ _ _ _) as [a w]. simpl in Hacc.
        subst a. eexists _, _. repeat split. }
    destruct (IH failed (called ++ [rec]) st1)
      as (sc & st' & -> & Ht & Hl & Ho & Hh & Hy).
    exists sc, st'. rewrite Ht, Ht1, <- app_assoc. simpl.
    rewrite Hl, length_app. simpl.
    repeat split; try congruence; lia.
Qed.

Lemma emits_call_service segment : emits is_service (call_service segment).
Proof.
  unfold call_service. apply emits_bind.
  { apply emits_pure, pure_of_answer. }
  intros [| | | | |d]; try (apply emits_pure, pure_raise).
  destruct (Dict.pop "service" d) as [[v rest]|];
    [|apply emits_pure, pure_raise].
  destruct v; try (apply emits_pure, pure_raise).
  destruct (if String.eqb _ _ then _ else _) as [service service_call].
  destruct (_ || _); [apply emits_pure, pure_ret|].
  destruct (nth_error _ _); [|apply emits_pure, pure_raise].
  apply emits_bind; [apply emits_log; reflexivity|]. intros _.
  apply emits_bind; [apply emits_call_host|]. intros _.
  apply emits_pure, pure_ret.
Qed.

(** The loop leaves with the flag it was entered with, or with the
    [NameError] of its handler, or with an exception that is no
    [Exception]. *)
Lemma service_loop_outcome segments failed called st :
  match fst (service_loop segments failed called st) with
  | Ret (flag, _) => flag = failed
  | Raise e => e = Exn NameError "_lOGGER" \/ isinstance e Exception = false
  | Timeout => False
  end.
Proof.
  revert failed called st.
  induction segments as [|segment rest IH]; intros failed called st; simpl.
  - reflexivity.
  - rewrite run_bind. unfold attempt.
    destruct (emits_call_service segment st I) as [_ Ht].
    destruct (call_service segment st) as [[[sc|]|e|] st1]; simpl in *.
    + apply IH.
    + apply IH.
    + destruct (isinstance e Exception) eqn:E; simpl; auto.
    + exfalso. apply Ht; auto.
Qed.

(** An [Exception] raised for a segment ends the loop with the
    [NameError]. *)
Lemma service_loop_raises segment rest failed called st e st1 :
  call_service segment st = (Raise e, st1) ->
  isinstance e Exception = true ->
  service_loop (segment :: rest) failed called st =
  (Raise (Exn NameError "_lOGGER"), st1).
Proof.
  intros Hc He. simpl. rewrite run_bind. unfold attempt. rewrite Hc, He.
  reflexivity.
Qed.

Lemma emits_service_loop segments failed called :
  emits is_service (service_loop segments failed called).
Proof.
  revert failed called.
  induction segments as [|segment rest IH]; intros failed called; simpl.
  - apply emits_pure, pure_ret.
  - apply emits_bind; [apply emits_attempt, emits_call_service|].
    intros [[sc|]|e]; try apply IH.
    destruct (isinstance e Exception); [|apply emits_pure, pure_reraise].
    apply emits_bind; [|intros; apply IH].
    unfold on_service_error.
    apply emits_bind; [apply emits_pure, pure_raise|].
    intros; apply emits_pure, pure_ret.
Qed.

Lemma emits_run_directives content1 :
  emits is_service (run_directives content1).
Proof.
  unfold run_directives. destruct (PyStr.contains _ _).
  - apply emits_bind; [apply emits_pure, pure_of_answer|]. intros segs.
    apply emits_bind; [apply emits_service_loop|].
    intros [flag sc]. apply emits_pure, pure_ret.
  - apply emits_pure, pure_ret.
Qed.

Lemma emits_postprocess message : emits is_service (postprocess message).
Proof.
  unfold postprocess. apply emits_bind.
  { apply emits_pure. destruct (content message);
      [apply pure_ret|apply pure_raise]. }
  intros c. apply emits_bind; [apply emits_run_directives|].
  intros r. apply emits_pure, pure_ret.
Qed.

(** The text [postprocess] returns, from the text the directives left. *)
Definition tidy (content : string) : string :=
  PyStr.strip
    (PyStr.replace_del NO_ACTION
       (PyStr.replace_del SENTINEL (remove_json_objects content))).

Lemma not_nl_of old :
  forallb Spec.same_line (list_ascii_of_string old) = true ->
  forall c, char_of old c -> c <> PyStr.nl.
Proof.
  intros H c Hc ->. rewrite forallb_forall in H. specialize (H _ Hc).
  discriminate.
Qed.

(** What [query] returns has no closing brace after an opening one on
    a line. *)
Lemma clean_tidy content : Spec.clean false (tidy content) = true.
Proof.
  unfold tidy. apply clean_strip.
  eapply clean_deleted; [apply replace_del_deleted| |].
  { apply not_nl_of. reflexivity. }
  eapply clean_deleted; [apply replace_del_deleted| |].
  { apply not_nl_of. reflexivity. }
  apply clean_sub_empty.
Qed.

Lemma postprocess_inv message r st' st :
  postprocess message st = (Ret r, st') ->
  exists c sc c',
    content message = Some c /\
    run_directives (PyStr.remove_char "\" c) st = (Ret (sc, c'), st') /\
    r = (sc, {| role := role message; content := Some (tidy c');
                name := name message; fcall := fcall message |}).
Proof.
  unfold postprocess. intros H.
  apply bind_inv in H as [(c & st1 & H1 & H)|[(e & _ & ?)|[_ ?]]];
    try discriminate.
  destruct (content message) as [c0|]; [|discriminate].
  injection H1 as <- <-.
  apply bind_inv in H as [([sc c'] & st1 & H1 & H)|[(e & _ & ?)|[_ ?]]];
    try discriminate.
  injection H as <- <-. exists c0, sc, c'. auto.
Qed.

(** The directives leave the content as it is: the error text is never
    added. *)
Lemma run_directives_content content1 st sc c' st' :
  run_directives content1 st = (Ret (sc, c'), st') -> c' = content1.
Proof.
  unfold run_directives. destruct (PyStr.contains _ _).
  - intros H.
    apply bind_inv in H as [(segs & st0 & H0 & H)|[(e & _ & ?)|[_ ?]]];
      try discriminate.
    apply bind_inv in H as [([flag sc0] & st1 & H1 & H)|[(e & _ & ?)|[_ ?]]];
      try discriminate.
    pose proof (service_loop_outcome segs false [] st0) as Ho.
    rewrite H1 in Ho. simpl in Ho. subst flag.
    injection H as _ <- _. reflexivity.
  - intros H. injection H as _ <- _. reflexivity.
Qed.

(** No directive is found in a text with no one-line braces. *)
Lemma run_directives_clean content1 st :
  Spec.clean false content1 = true ->
  run_directives content1 st = (Ret ([], content1), st).
Proof.
  intros H. unfold run_directives, extract_json_objects.
  rewrite (proj1 (clean_finditer content1) H). simpl.
  destruct (PyStr.contains _ _); reflexivity.
Qed.

(** Processing a message with no one-line braces calls no service. *)
Lemma postprocess_clean message c st :
  content message = Some c ->
  Spec.clean false c = true ->
  postprocess message st =
  (Ret ([], {| role := role message;
               content := Some (tidy (PyStr.remove_char "\" c));
               name := name message; fcall := fcall message |}), st).
Proof.
  intros Hc Hclean. unfold postprocess. rewrite run_bind, Hc. simpl.
  rewrite run_bind, run_directives_clean; [reflexivity|].
  eapply clean_deleted; [apply remove_char_deleted| |exact Hclean].
  intros ? <-. discriminate.
Qed.

End DirectiveFacts.

Section QueryFacts.

Context {W : Type} {host : Host W}.

(** One call of [query], step by step. *)
Lemma query_eq f ui loc ex n st :
  query (S f) ui loc ex n st =
  match fst (function_specs st) with
  | Ret functions =>
      let req := chat_request_for (options st) functions
                   (default [] (heap st !! loc)) n in
      let st1 := add_event (EvChat n req) st in
      match chat_completions_create req (world st) with
      | (Throws e, w) => (Raise e, set_world w st1)
      | (Value ch, w) =>
          if String.eqb (finish_reason ch) "function_call"
          then (execute_function_call (query f) ui loc (choice_message ch)
                  ex (n + 1) ≫= postprocess) (set_world w st1)
          else postprocess (choice_message ch) (set_world w st1)
      end
  | Raise e => (Raise e, st)
  | Timeout => (Timeout, st)
  end.
Proof.
  cbn [query]. rewrite run_bind. cbn [the_options].
  rewrite run_bind, (pure_run function_specs st pure_function_specs).
  cbn [fst]. destruct (fst (function_specs st)) as [fs|e|]; try reflexivity.
  rewrite run_bind. cbn [read_list]. rewrite run_bind. cbn [log].
  rewrite run_bind. unfold call_host at 1. cbn [world add_event].
  destruct (chat_completions_create _ _) as [[ch|e] w]; [|reflexivity].
  rewrite run_bind.
  destruct (String.eqb (finish_reason ch) "function_call"); reflexivity.
Qed.

Lemma execute_function_call_eq q ui loc m ex n st :
  execute_function_call q ui loc m ex n st =
  match fcall m with
  | None => (Raise (Exn AttributeError "name"), st)
  | Some fc =>
      match fst (configured_functions st) with
      | Ret fs =>
          match fst (find_function (fc_name fc) fs st) with
          | Ret (Some f) => execute_function q ui loc m ex n f st
          | Ret None => (Raise (Exn FunctionNotFound (fc_name fc)), st)
          | Raise e => (Raise e, st)
          | Timeout => (Timeout, st)
          end
      | Raise e => (Raise e, st)
      | Timeout => (Timeout, st)
      end
  end.
Proof.
  unfold execute_function_call. rewrite run_bind.
  destruct (fcall m) as [fc|]; [|reflexivity]. cbn [ret].
  rewrite run_bind,
    (pure_run configured_functions st pure_configured_functions).
  cbn [fst]. destruct (fst (configured_functions st)) as [fs|e|];
    try reflexivity.
  rewrite run_bind, (pure_run _ st (pure_find_function (fc_name fc) fs)).
  cbn [fst]. destruct (fst (find_function (fc_name fc) fs st)) as [[f|]|e|];
    reflexivity.
Qed.

Lemma execute_function_eq q ui loc m ex n f st :
  execute_function q ui loc m ex n f st =
  match fst (subscript f "function" st) with
  | Ret function =>
      match fst (subscript function "type" st) with
      | Ret type =>
          match get_function_executor type with
          | Value function_executor =>
              match fcall m with
              | Some fc =>
                  match json_loads (fc_arguments fc) with
                  | Value arguments =>
                      let st1 := add_event (EvExecute function arguments) st in
                      match execute function_executor function arguments
                              ui ex (world st) with
                      | (Value result, w) =>
                          (q ui loc ex n ≫= fun r => ret (snd r))
                            (set_heap
                               (alter
                                  (fun l => l ++ [function_message fc result])
                                  loc (heap st))
                               (set_world w st1))
                      | (Throws e, w) => (Raise e, set_world w st1)
                      end
                  | Throws err =>
                      if isinstance err JSONDecodeError
                      then (Raise (Exn ParseArgumentsFailed (fc_arguments fc)),
                            st)
                      else (Raise err, st)
                  end
              | None => (Raise (Exn AttributeError "arguments"), st)
              end
          | Throws e => (Raise e, st)
          end
      | Raise e => (Raise e, st)
      | Timeout => (Timeout, st)
      end
  | Raise e => (Raise e, st)
  | Timeout => (Timeout, st)
  end.
Proof.
  unfold execute_function.
  rewrite run_bind, (pure_run _ st (pure_subscript f "function")).
  cbn [fst]. destruct (fst (subscript f "function" st)) as [function|e|];
    try reflexivity.
  rewrite run_bind, (pure_run _ st (pure_subscript function "type")).
  cbn [fst]. destruct (fst (subscript function "type" st)) as [type|e|];
    try reflexivity.
  rewrite run_bind.
  destruct (get_function_executor type) as [function_executor|e];
    [|reflexivity].
  cbn [of_answer ret]. rewrite run_bind.
  destruct (fcall m) as [fc|]; [|reflexivity]. cbn [ret].
  rewrite run_bind.
  destruct (json_loads (fc_arguments fc)) as [arguments|err].
  2:{ destruct (isinstance err JSONDecodeError); reflexivity. }
  cbn [ret]. rewrite run_bind. cbn [log]. rewrite run_bind.
  unfold call_host at 1. cbn [world add_event].
  destruct (execute _ _ _ _ _ _) as [[result|e] w]; [|reflexivity].
  rewrite run_bind. reflexivity.
Qed.

(** *** The bound on the recursion *)

Lemma emits_read_list φ loc : emits φ (read_list (W := W) loc).
Proof. apply emits_state. auto. Qed.

Lemma emits_list_append φ loc m : emits φ (list_append (W := W) loc m).
Proof. apply (emits_state φ (fun _ => tt)). auto. Qed.

Lemma emits_new_list φ l : emits φ (new_list (W := W) l).
Proof. apply emits_state. auto. Qed.

Lemma emits_history_store φ c loc : emits φ (history_store (W := W) c loc).
Proof. apply (emits_state φ (fun _ => tt)). auto. Qed.

Lemma emits_history_lookup φ c : emits φ (history_lookup (W := W) c).
Proof. apply emits_state. auto. Qed.

Lemma emits_the_world φ : emits φ (the_world (W := W)).
Proof. apply emits_state. auto. Qed.

Lemma emits_new_ulid φ : emits φ new_ulid.
Proof. apply emits_state. auto. Qed.

(** [execute_function] dispatches once and then does what [query]
    does. *)
Lemma execute_function_spends I (φ : event -> Prop) b T
  (q : query_t) ui loc m ex n f :
  (forall fn a, φ (EvExecute fn a)) ->
  spends I φ b T (q ui loc ex n) ->
  spends I φ (S b) T (execute_function q ui loc m ex n f).
Proof.
  intros Hφ Hq. unfold execute_function.
  apply spends_bind_l; [apply emits_pure, pure_subscript|]. intros function.
  apply spends_bind_l; [apply emits_pure, pure_subscript|]. intros type.
  apply spends_bind_l; [apply emits_pure, pure_of_answer|]. intros fe.
  apply spends_bind_l.
  { apply emits_pure. destruct (fcall m); [apply pure_ret|apply pure_raise]. }
  intros fc. apply spends_bind_l.
  { apply emits_pure. destruct (json_loads _) as [a|err];
      [apply pure_ret|].
    destruct (isinstance err JSONDecodeError);
      [apply pure_raise|apply pure_reraise]. }
  intros arguments.
  apply (spends_bind I φ 1 b T).
  { intros st _. split; [|discriminate]. split; [reflexivity|].
    exists [EvExecute function arguments].
    repeat split; auto. }
  intros _. apply spends_bind_l; [apply emits_call_host|]. intros result.
  apply spends_bind_l; [apply emits_list_append|]. intros _.
  apply spends_bind_r; [exact Hq|]. intros r. apply emits_pure, pure_ret.
Qed.

Lemma execute_function_call_spends I (φ : event -> Prop) b T
  (q : query_t) ui loc m ex n :
  (forall fn a, φ (EvExecute fn a)) ->
  spends I φ b T (q ui loc ex n) ->
  spends I φ (S b) T (execute_function_call q ui loc m ex n).
Proof.
  intros Hφ Hq. unfold execute_function_call.
  apply spends_bind_l.
  { apply emits_pure. destruct (fcall m); [apply pure_ret|apply pure_raise]. }
  intros nm.
  apply spends_bind_l; [apply emits_pure, pure_configured_functions|].
  intros fs. apply spends_bind_l; [apply emits_pure, pure_find_function|].
  intros [f|]; [|apply emits_spends, emits_pure, pure_raise].
  apply execute_function_spends; assumption.
Qed.

Lemma is_service_within n N ev : is_service ev -> Spec.request_within n N ev.
Proof. destruct ev; simpl; auto; discriminate. Qed.

Lemma request_within_weaken n n' N ev :
  (n <= n')%Z -> Spec.request_within n' N ev -> Spec.request_within n N ev.
Proof.
  intros Hn. destruct ev; simpl; auto. intros [H1 H2]. split; [lia|auto].
Qed.

(** The request of [query] at the maximum does not allow a function
    call. *)
Lemma chat_request_for_max o fs msgs n :
  n = max_function_calls_per_conversation o ->
  req_function_call (chat_request_for o fs msgs n) <> Some "auto" /\
  (req_functions (chat_request_for o fs msgs n) <> None ->
   req_function_call (chat_request_for o fs msgs n) = Some "none").
Proof.
  intros ->. unfold chat_request_for. rewrite Z.eqb_refl.
  destruct (Nat.eqb (length fs) 0); simpl.
  - split; [discriminate|congruence].
  - split; [discriminate|reflexivity].
Qed.

(** Under its maximum [N], with an obedient endpoint, [query] started at
    the counter [n] dispatches at most [N - n] function calls, sends
    requests within the bounds only, and has fuel enough with more than
    [N - n]. *)
Lemma query_spends N fuel : forall n ui loc ex,
  Spec.obedient -> (n <= N)%Z ->
  spends (fun o => max_function_calls_per_conversation o = N)
    (Spec.request_within n N) (Z.to_nat (N - n))
    (Z.to_nat (N - n) < fuel) (query fuel ui loc ex n).
Proof.
  induction fuel as [|f IH]; intros n ui loc ex Hob Hn.
  - intros st _. split; [apply steps_refl|]. intros H. lia.
  - cbn [query]. apply spends_the_options. intros o Ho.
    apply spends_bind_l; [apply emits_pure, pure_function_specs|]. intros fs.
    apply spends_bind_l; [apply emits_read_list|]. intros msgs.
    apply spends_bind_l.
    { apply emits_log; [|reflexivity]. simpl. split; [lia|].
      intros ->. apply chat_request_for_max. symmetry. exact Ho. }
    intros _. apply spends_call_host. intros ch w w' Hch.
    apply spends_bind_r; [|intros; eapply spends_weaken;
                            [| | | |apply emits_postprocess]; auto;
                            apply is_service_within].
    destruct (String.eqb_spec (finish_reason ch) "function_call") as [Hf|_];
      [|apply emits_spends, emits_pure, pure_ret].
    assert (n <> N) as Hne.
    { intros ->. specialize (Hob _ _ _ _ Hch Hf).
      destruct (chat_request_for_max o fs msgs N (eq_sym Ho)) as [H _].
      contradiction. }
    eapply spends_weaken;
      [| | | |apply (execute_function_call_spends
                       (fun o' => max_function_calls_per_conversation o' = N)
                       (Spec.request_within (n + 1) N)
                       (Z.to_nat (N - (n + 1)))
                       (Z.to_nat (N - (n + 1)) < f))].
    + intros o' ->. exact Ho.
    + intros ev. apply request_within_weaken. lia.
    + lia.
    + lia.
    + intros; exact I.
    + apply IH; [assumption|lia].
Qed.

End QueryFacts.

Section TurnFacts.

Context {W : Type} {host : Host W}.

(** A direct answer of the endpoint goes to [postprocess]. *)
Lemma query_direct f ui loc ex n st fs ch w :
  fst (function_specs st) = Ret fs ->
  chat_completions_create
    (chat_request_for (options st) fs (default [] (heap st !! loc)) n)
    (world st) = (Value ch, w) ->
  String.eqb (finish_reason ch) "function_call" = false ->
  query (S f) ui loc ex n st =
  postprocess (choice_message ch)
    (set_world w
       (add_event
          (EvChat n (chat_request_for (options st) fs
                       (default [] (heap st !! loc)) n)) st)).
Proof.
  intros Hfs Hch Hfr. rewrite query_eq, Hfs. cbv zeta. rewrite Hch, Hfr.
  reflexivity.
Qed.

(** The content [query] returns went through [tidy]. *)
Lemma query_content fuel ui loc ex n st sc m st' :
  query fuel ui loc ex n st = (Ret (sc, m), st') ->
  exists c, content m = Some (tidy c).
Proof.
  destruct fuel as [|f]; [discriminate|]. rewrite query_eq.
  destruct (fst (function_specs st)) as [fs|e|]; try discriminate.
  cbv zeta. destruct (chat_completions_create _ _) as [[ch|e] w];
    [|discriminate].
  destruct (String.eqb _ _); intros H.
  - apply bind_inv in H as [(m1 & st2 & _ & H)|[(e & _ & ?)|[_ ?]]];
      try discriminate.
    apply postprocess_inv in H as (c & sc0 & c' & _ & _ & H).
    injection H as _ ->. eauto.
  - apply postprocess_inv in H as (c & sc0 & c' & _ & _ & H).
    injection H as _ ->. eauto.
Qed.

Lemma requests_app e1 e2 :
  Spec.requests (e1 ++ e2) = Spec.requests e1 + Spec.requests e2.
Proof. unfold Spec.requests. rewrite List.filter_app, length_app. reflexivity. Qed.

Lemma services_app e1 e2 :
  Spec.services (e1 ++ e2) = Spec.services e1 + Spec.services e2.
Proof. unfold Spec.services. rewrite List.filter_app, length_app. reflexivity. Qed.

Lemma only_services evs :
  Forall is_service evs ->
  Spec.requests evs = 0 /\ Spec.services evs = length evs /\
  Spec.dispatches evs = 0.
Proof.
  unfold Spec.requests, Spec.services, Spec.dispatches.
  induction 1 as [|ev evs Hev _ IH]; [auto|].
  destruct ev; try discriminate. simpl. lia.
Qed.

(** The services [query] reports are those of a direct answer: with
    one request in the call they are the host calls made, with more
    (the answer came out of the recursion) there are none. *)
Lemma query_services fuel : forall ui loc ex n st sc m st',
  query fuel ui loc ex n st = (Ret (sc, m), st') ->
  exists evs,
    trace st' = trace st ++ evs /\
    ((Spec.requests evs = 1 /\ length sc = Spec.services evs) \/
     (2 <= Spec.requests evs /\ sc = [])).
Proof.
  induction fuel as [|f IH]; intros ui loc ex n st sc m st';
    [discriminate|].
  rewrite query_eq.
  destruct (fst (function_specs st)) as [fs|e|]; try discriminate.
  cbv zeta. destruct (chat_completions_create _ _) as [[ch|e] w];
    [|discriminate].
  set (req := chat_request_for _ _ _ _).
  destruct (String.eqb _ _); intros H.
  - apply bind_inv in H as [(m1 & st2 & Hc & H)|[(e & _ & ?)|[_ ?]]];
      try discriminate.
    rewrite execute_function_call_eq in Hc.
    destruct (fcall (choice_message ch)) as [fc|] eqn:Efc; [|discriminate].
    destruct (fst (configured_functions _)) as [fs'|e|]; try discriminate.
    destruct (fst (find_function _ _ _)) as [[fn|]|e|]; try discriminate.
    rewrite execute_function_eq, Efc in Hc.
    destruct (fst (subscript fn _ _)) as [function|e|]; try discriminate.
    destruct (fst (subscript function _ _)) as [type|e|]; try discriminate.
    destruct (get_function_executor type) as [fe|e]; [|discriminate].
    destruct (json_loads _) as [arguments|err];
      [|destruct (isinstance err JSONDecodeError); discriminate].
    cbv zeta in Hc.
    destruct (execute _ _ _ _ _ _) as [[result|e] w2]; [|discriminate].
    apply bind_inv in Hc as [([sc1 m1'] & st3 & Hq & Hc)|[(e & _ & ?)|[_ ?]]];
      try discriminate.
    injection Hc as <- <-.
    destruct (query_content _ _ _ _ _ _ _ _ _ Hq) as (c & Hcontent).
    rewrite (postprocess_clean _ _ _ Hcontent (clean_tidy c)) in H.
    injection H as <- _ <-.
    apply IH in Hq as (evs & Ht & Hcount). simpl in Ht.
    exists ([EvChat n req; EvExecute function arguments] ++ evs).
    split.
    + rewrite Ht, <- !app_assoc. reflexivity.
    + right. split; [|reflexivity]. rewrite requests_app.
      unfold Spec.requests at 1. simpl.
      destruct Hcount as [[-> _]|[Hr _]]; lia.
  - apply postprocess_inv in H as (c & sc0 & c' & _ & Hr & H).
    injection H as <- _.
    apply run_directives_count in Hr as (evs & Ht & Hf & Hl).
    simpl in Ht. exists (EvChat n req :: evs). split.
    + rewrite Ht, <- app_assoc. reflexivity.
    + left. destruct (only_services _ Hf) as (Hr & Hs & _).
      change (EvChat n req :: evs) with ([EvChat n req] ++ evs).
      rewrite requests_app, services_app, Hr, Hs. split; [reflexivity|].
      exact Hl.
Qed.

(** The turn from [query] on, when [query] returns. *)
Lemma respond_returns fuel ui cid loc ex st sc m st1 :
  query fuel ui loc ex 0 st = (Ret (sc, m), st1) ->
  exists st',
    respond fuel ui cid loc ex st =
    (Ret {| response :=
              Speech (language ui)
                (if Nat.ltb 0 (length sc)
                 then option_map (fun c => c +:+ SERVICE_EXECUTED) (content m)
                 else content m);
            result_conversation_id := cid |}, st') /\
    trace st' = trace st1.
Proof.
  intros Hq. unfold respond. rewrite run_bind. unfold attempt. rewrite Hq.
  destruct (query_content _ _ _ _ _ _ _ _ _ Hq) as (c & Hc).
  rewrite run_bind. cbn [list_append]. rewrite run_bind.
  destruct cid as [cid|]; simpl; rewrite run_bind;
    destruct (Nat.ltb 0 (length sc)); rewrite Hc; simpl; eauto.
Qed.

(** The turn from [query] on, when [query] raises. *)
Lemma respond_raises fuel ui cid loc ex st e st1 :
  query fuel ui loc ex 0 st = (Raise e, st1) ->
  respond fuel ui cid loc ex st =
  if isinstance e OpenAIError then
    (Ret (error_result ui
            ("Sorry, I had a problem talking to OpenAI: " +:+ str_exn e) cid),
     st1)
  else if isinstance e HomeAssistantError then
    (Ret (error_result ui ("Something went wrong: " +:+ str_exn e) cid), st1)
  else (Raise e, st1).
Proof.
  intros Hq. unfold respond. rewrite run_bind. unfold attempt. rewrite Hq.
  destruct (isinstance e OpenAIError); [reflexivity|].
  destruct (isinstance e HomeAssistantError); reflexivity.
Qed.

End TurnFacts.

Section ProcessFacts.

Context {W : Type} {host : Host W}.

Lemma emits_get_exposed_entities φ : emits φ get_exposed_entities.
Proof.
  unfold get_exposed_entities.
  apply emits_bind; [apply emits_the_world|]. intros w.
  apply emits_pure, pure_mapM. intros s.
  destruct (states_get w (state_entity_id s)); [apply pure_ret|apply pure_raise].
Qed.

Lemma emits_open_conversation φ ui ex : emits φ (open_conversation ui ex).
Proof.
  unfold open_conversation.
  apply emits_bind; [apply emits_pure, pure_the_options|]. intros opts.
  apply emits_bind; [apply emits_new_list|]. intros messages.
  apply emits_bind; [apply emits_history_lookup|]. intros [stored|].
  { destruct (ignore_convoid opts); apply emits_pure, pure_ret. }
  apply emits_bind.
  { destruct (ignore_convoid opts); [apply emits_pure, pure_ret|].
    apply emits_bind; [apply emits_new_ulid|]. intros c.
    apply emits_pure, pure_ret. }
  intros ci. apply emits_bind.
  { apply emits_attempt.
    apply emits_bind; [apply emits_call_host|]. intros u.
    apply emits_bind; [|intros; apply emits_pure, pure_ret].
    unfold _async_generate_prompt.
    apply emits_bind; [apply emits_the_world|]. intros w.
    apply emits_pure, pure_of_answer. }
  intros [p|err].
  - apply emits_bind; [apply emits_new_list|]. intros m.
    apply emits_pure, pure_ret.
  - destruct (isinstance err TemplateError);
      [apply emits_pure, pure_ret|apply emits_pure, pure_reraise].
Qed.

Lemma respond_spends I φ b T fuel ui cid loc ex :
  spends I φ b T (query fuel ui loc ex 0) ->
  spends I φ b T (respond fuel ui cid loc ex).
Proof.
  intros Hq. unfold respond.
  apply spends_bind_r; [apply spends_attempt, Hq|].
  intros [[sc m]|err].
  - apply emits_bind; [apply emits_list_append|]. intros _.
    apply emits_bind.
    { destruct cid; [apply emits_history_store|apply emits_pure, pure_ret]. }
    intros _. apply emits_bind; [|intros; apply emits_pure, pure_ret].
    destruct (Nat.ltb 0 (length sc)); [|apply emits_pure, pure_ret].
    destruct (content m); [apply emits_pure, pure_ret|apply emits_pure, pure_raise].
  - destruct (isinstance err OpenAIError); [apply emits_pure, pure_ret|].
    destruct (isinstance err HomeAssistantError);
      [apply emits_pure, pure_ret|apply emits_pure, pure_reraise].
Qed.

Lemma async_process_spends I φ b T fuel ui :
  (forall ui loc ex, spends I φ b T (query fuel ui loc ex 0)) ->
  spends I φ b T (async_process fuel ui).
Proof.
  intros Hq. unfold async_process.
  apply spends_bind_l; [apply emits_pure, pure_the_options|]. intros opts.
  apply spends_bind_l; [apply emits_get_exposed_entities|]. intros ex.
  apply spends_bind_l; [apply emits_open_conversation|].
  intros [[[cid messages] ui']|result];
    [|apply emits_spends, emits_pure, pure_ret].
  apply spends_bind_l.
  { destruct (attach_username opts); [|apply emits_pure, pure_ret].
    apply emits_bind; [apply emits_call_host|]. intros u.
    apply emits_pure, pure_ret. }
  intros user_name. apply spends_bind_l; [apply emits_list_append|].
  intros _. apply respond_spends, Hq.
Qed.

(** With well-named functions the search is [lookup_function]. *)
Lemma find_function_lookup nm fs (st : state W) :
  Forall Spec.well_named fs ->
  find_function nm fs st = (Ret (Spec.lookup_function nm fs), st).
Proof.
  induction 1 as [|s fs (sd & d & n & -> & Hs & Hn) _ IH]; [reflexivity|].
  cbn [find_function]. rewrite run_bind. unfold subscript at 1.
  unfold Spec.lookup_function. cbn [find]. unfold Spec.has_name.
  rewrite Hs. cbn [ret]. rewrite run_bind. unfold subscript at 1.
  rewrite Hn. cbn [ret].
  destruct n; try exact IH.
  destruct (String.eqb s nm); [reflexivity|exact IH].
Qed.

End ProcessFacts.

(* ===================================================================== *)
(** * The claims *)
(* ===================================================================== *)

Section DirectiveClaims.

Context {W : Type} {host : Host W}.

(** When [json.loads] raises nothing but [JSONDecodeError] for the
    matches, the loop keeps those it reads. *)
Lemma valid_jsons_filter ps :
  forallb Spec.decided ps = true ->
  valid_jsons ps = Value (List.filter Spec.is_valid_json ps).
Proof.
  induction ps as [|p ps IH]; simpl; [reflexivity|].
  unfold Spec.decided at 1, Spec.is_valid_json at 1.
  intros H. apply andb_prop in H as [Hp Hps]. rewrite (IH Hps).
  destruct (json_loads p) as [v|e]; [reflexivity|]. rewrite Hp. reflexivity.
Qed.

(** The first exception of [json.loads] that is no [JSONDecodeError]
    leaves the loop. *)
Lemma valid_jsons_raises before p after e :
  forallb Spec.decided before = true ->
  json_loads p = Throws e ->
  isinstance e JSONDecodeError = false ->
  valid_jsons (before ++ p :: after) = Throws e.
Proof.
  intros Hb Hp He. induction before as [|q before IH]; simpl.
  - rewrite Hp, He. reflexivity.
  - simpl in Hb. apply andb_prop in Hb as [Hq Hb]. rewrite (IH Hb).
    unfold Spec.decided in Hq.
    destruct (json_loads q) as [v|e']; [reflexivity|]. rewrite Hq.
    reflexivity.
Qed.

(** C10, amended.  For every text, the scan of the pattern is the one
    sequence of minimal (non-greedy) brace-delimited substrings that lie
    on one line, taken from the left, and of the characters outside
    them.  [extract_json_objects] returns those of the substrings that
    [json.loads] reads, provided [json.loads] raises nothing but
    [JSONDecodeError] for the others; otherwise it raises what
    [json.loads] raises for the first substring for which it raises
    something else.  [remove_json_objects] returns what is outside the
    substrings, whether or not they are valid JSON.  Hence a text with
    two closing braces, as an object with a nested object has, is no
    match (neither extracted nor removed whole), and what is left after
    the removal has no part in braces on one line. *)
Theorem C10_matches_lie_on_one_line (text : string) :
  (exists ps, Spec.scan Spec.same_line text ps) /\
  (forall ps,
      Spec.scan Spec.same_line text ps ->
      ps = Re.finditer text /\
      (forallb Spec.decided (Re.hits ps) = true ->
       extract_json_objects text =
       Value (List.filter Spec.is_valid_json (Re.hits ps))) /\
      (forall before x after e,
          Re.hits ps = before ++ x :: after ->
          forallb Spec.decided before = true ->
          json_loads x = Throws e ->
          isinstance e JSONDecodeError = false ->
          extract_json_objects text = Throws e) /\
      remove_json_objects text = Re.gaps ps /\
      (forall x, 2 <= Spec.closings x -> ~ In (Re.Hit x) ps)) /\
  (forall x, Spec.one_line_braced x ->
             ~ Spec.occurs x (remove_json_objects text)).
Proof.
  split; [exists (Re.finditer text); apply finditer_scan|]. split.
  - intros ps Hs. pose proof (scan_finditer _ _ Hs) as ->.
    split; [reflexivity|]. split; [apply valid_jsons_filter|].
    split.
    { intros before x after e Hh Hb Hx He.
      unfold extract_json_objects, Re.findall. rewrite Hh.
      apply valid_jsons_raises; assumption. }
    split; [reflexivity|].
    intros x Hx Hin. pose proof (scan_hit_closings _ _ _ _ Hs Hin). lia.
  - intros x Hx. apply clean_no_braced; [|exact Hx]. apply clean_sub_empty.
Qed.

(** C5, amended.  A directive whose service has the domain [script] is
    passed to the host as [script.turn_on], with the service string as
    [entity_id] and the other keys of the directive as [variables].  A
    directive of another domain whose service reads [domain.name] and
    that has at least one other key is passed as it is, to the service
    [name] of [domain] with the other keys as data. *)
Theorem C5_script_and_plain_directives (segment : string) (d : dict)
  (s : string) (st : state W) :
  json_loads segment = Value (JObj d) ->
  Dict.get "service" d = Some (JStr s) ->
  (hd "" (PyStr.split "." s) = "script" ->
   Dict.wf (Dict.del "service" d) = true ->
   let data := [("entity_id", JStr s);
                ("variables", JObj (Dict.del "service" d))] in
   trace (snd (call_service segment st)) =
     trace st ++ [EvService "script" "turn_on" data] /\
   world (snd (call_service segment st)) =
     snd (services_async_call "script" "turn_on" data (world st))) /\
  (forall domain service_name more,
      PyStr.split "." s = domain :: service_name :: more ->
      domain <> "script" ->
      Dict.del "service" d <> [] ->
      let data := Dict.del "service" d in
      trace (snd (call_service segment st)) =
        trace st ++ [EvService domain service_name data] /\
      world (snd (call_service segment st)) =
        snd (services_async_call domain service_name data (world st))).
Proof.
  intros Hj Hg. split.
  - intros Hd Hwf data.
    rewrite (call_service_script _ _ _ _ Hj Hg Hd Hwf), invoke_run.
    cbv zeta. fold data.
    destruct (services_async_call _ _ _ _) as [[[]|e] w]; split; reflexivity.
  - intros domain service_name more Hs Hd Hr data.
    rewrite (call_service_plain _ _ _ _ _ _ _ Hj Hg Hs Hd Hr), invoke_run.
    cbv zeta. fold data.
    destruct (services_async_call _ _ _ _) as [[[]|e] w]; split; reflexivity.
Qed.

(** C8.  An [Exception] raised while a directive is executed ends the
    loop with the [NameError] of the undefined name [_lOGGER], which a
    direct answer's [query] raises in turn and the turn does not catch;
    the loop never ends with its flag set, so the error text is never
    added to the content. *)
Theorem C8_handler_raises_NameError :
  (forall segment rest failed called (st : state W) e st1,
      call_service segment st = (Raise e, st1) ->
      isinstance e Exception = true ->
      service_loop (segment :: rest) failed called st =
      (Raise (Exn NameError "_lOGGER"), st1)) /\
  (forall segments called (st : state W) flag sc st',
      service_loop segments false called st = (Ret (flag, sc), st') ->
      flag = false) /\
  (forall content1 (st : state W) sc c' st',
      run_directives content1 st = (Ret (sc, c'), st') -> c' = content1) /\
  (forall f ui loc ex n (st : state W) fs ch w c segment rest e st2,
      fst (function_specs st) = Ret fs ->
      chat_completions_create
        (chat_request_for (options st) fs (default [] (heap st !! loc)) n)
        (world st) = (Value ch, w) ->
      String.eqb (finish_reason ch) "function_call" = false ->
      content (choice_message ch) = Some c ->
      PyStr.contains SENTINEL (PyStr.remove_char "\" c) = true ->
      extract_json_objects (PyStr.remove_char "\" c)
      = Value (segment :: rest) ->
      call_service segment
        (set_world w
           (add_event
              (EvChat n (chat_request_for (options st) fs
                           (default [] (heap st !! loc)) n)) st))
      = (Raise e, st2) ->
      isinstance e Exception = true ->
      query (S f) ui loc ex n st = (Raise (Exn NameError "_lOGGER"), st2)) /\
  (forall fuel ui cid loc ex (st : state W) st1,
      query fuel ui loc ex 0 st = (Raise (Exn NameError "_lOGGER"), st1) ->
      respond fuel ui cid loc ex st = (Raise (Exn NameError "_lOGGER"), st1)).
Proof.
  split; [|split; [|split; [|split]]].
  - intros. eapply service_loop_raises; eassumption.
  - intros segments called st flag sc st' H.
    pose proof (service_loop_outcome segments false called st) as Ho.
    rewrite H in Ho. exact Ho.
  - intros. eapply run_directives_content; eassumption.
  - intros f ui loc ex n st fs ch w c segment rest e st2
      Hfs Hch Hfr Hc Hs Hx Hcall He.
    rewrite (query_direct _ _ _ _ _ _ _ _ _ Hfs Hch Hfr).
    unfold postprocess. rewrite run_bind, Hc. cbn [ret].
    rewrite run_bind. unfold run_directives. rewrite Hs, run_bind, Hx.
    cbn [of_answer ret]. rewrite run_bind.
    rewrite (service_loop_raises _ _ _ _ _ _ _ Hcall He). reflexivity.
  - intros fuel ui cid loc ex st st1 H.
    rewrite (respond_raises _ _ _ _ _ _ _ _ H). reflexivity.
Qed.


(** C2, amended.  With a maximum [N] that is not negative and an
    endpoint that answers with a function call only a request that
    allows one, a turn with more fuel than [N] ends, dispatches at most
    [N] function calls, and every request has its counter within [0..N];
    the request at the counter [N] does not allow a function call: it
    says "none" when it carries functions. *)
Theorem C2_recursion_bounded (fuel : nat) (ui : conversation_input)
  (st : state W) :
  Spec.obedient ->
  (0 <= max_function_calls_per_conversation (options st))%Z ->
  Z.to_nat (max_function_calls_per_conversation (options st)) < fuel ->
  fst (async_process fuel ui st) <> Timeout /\
  exists evs,
    trace (snd (async_process fuel ui st)) = trace st ++ evs /\
    Spec.dispatches evs <=
      Z.to_nat (max_function_calls_per_conversation (options st)) /\
    Forall (Spec.request_within 0
              (max_function_calls_per_conversation (options st))) evs.
Proof.
  intros Hob HN Hfuel.
  set (N := max_function_calls_per_conversation (options st)) in *.
  assert (spends (fun o => max_function_calls_per_conversation o = N)
            (Spec.request_within 0 N) (Z.to_nat N) (Z.to_nat N < fuel)
            (async_process fuel ui)) as Hsp.
  { apply async_process_spends. intros ui' loc ex.
    pose proof (query_spends N fuel 0 ui' loc ex Hob HN) as Hq.
    rewrite Z.sub_0_r in Hq. exact Hq. }
  destruct (Hsp st eq_refl) as [[_ (evs & Ht & Hf & Hd)] Hto].
  split; [exact (Hto Hfuel)|]. exists evs. auto.
Qed.

End DirectiveClaims.

Section TurnClaims.

Context {W : Type} {host : Host W}.

Lemma get_functions_same (st st' : state W) :
  options st' = options st ->
  fst (get_functions st') = fst (get_functions st).
Proof. intros H. apply (pure_get_functions st), H. Qed.

Lemma configured_functions_same (st st' : state W) :
  options st' = options st ->
  fst (configured_functions st') = fst (configured_functions st).
Proof. intros H. apply (pure_configured_functions st), H. Qed.

Lemma function_specs_same (st st' : state W) :
  options st' = options st ->
  fst (function_specs st') = fst (function_specs st).
Proof. intros H. apply (pure_function_specs st), H. Qed.

Lemma subscript_same v k (st st' : state W) :
  fst (subscript v k st') = fst (subscript v k st).
Proof.
  unfold subscript. destruct v; try reflexivity.
  destruct (Dict.get k kvs); reflexivity.
Qed.

Lemma bind_ret_bind {A B C} (m : M W A) (g : A -> B) (k : B -> M W C) st :
  ((m ≫= fun r => ret (g r)) ≫= k) st = (m ≫= fun r => k (g r)) st.
Proof.
  rewrite !run_bind. destruct (m st) as [[a|e|] st1]; reflexivity.
Qed.

(** A function-call answer goes to [execute_function] with the
    configured function of that name, or raises [FunctionNotFound]. *)
Lemma query_function_call f ui loc ex n (st : state W) functions fs ch w fc :
  fst (function_specs st) = Ret functions ->
  fst (configured_functions st) = Ret fs ->
  chat_completions_create
    (chat_request_for (options st) functions (default [] (heap st !! loc)) n)
    (world st) = (Value ch, w) ->
  finish_reason ch = "function_call" ->
  fcall (choice_message ch) = Some fc ->
  Forall Spec.well_named fs ->
  query (S f) ui loc ex n st =
  let st1 := set_world w
               (add_event
                  (EvChat n (chat_request_for (options st) functions
                               (default [] (heap st !! loc)) n)) st) in
  match Spec.lookup_function (fc_name fc) fs with
  | Some fn =>
      (execute_function (query f) ui loc (choice_message ch) ex (n + 1) fn
         ≫= postprocess) st1
  | None => (Raise (Exn FunctionNotFound (fc_name fc)), st1)
  end.
Proof.
  intros Hsp Hfs Hch Hfr Hfc Hwn. rewrite query_eq, Hsp. cbv zeta.
  rewrite Hch, Hfr, String.eqb_refl.
  set (st1 := set_world w _).
  rewrite run_bind, execute_function_call_eq, Hfc.
  rewrite (configured_functions_same st st1 eq_refl), Hfs.
  rewrite (find_function_lookup _ _ _ Hwn). cbn [fst].
  destruct (Spec.lookup_function (fc_name fc) fs) as [fn|];
    [|reflexivity].
  rewrite run_bind. reflexivity.
Qed.

(** The dispatch of a function call, up to the recursion. *)
Lemma query_dispatch f ui loc ex n (st : state W) functions fs ch w fc fn
  function type fe arguments result w2 :
  fst (function_specs st) = Ret functions ->
  fst (configured_functions st) = Ret fs ->
  chat_completions_create
    (chat_request_for (options st) functions (default [] (heap st !! loc)) n)
    (world st) = (Value ch, w) ->
  finish_reason ch = "function_call" ->
  fcall (choice_message ch) = Some fc ->
  Forall Spec.well_named fs ->
  Spec.lookup_function (fc_name fc) fs = Some fn ->
  fst (subscript fn "function" st) = Ret function ->
  fst (subscript function "type" st) = Ret type ->
  get_function_executor type = Value fe ->
  json_loads (fc_arguments fc) = Value arguments ->
  execute fe function arguments ui ex w = (Value result, w2) ->
  query (S f) ui loc ex n st =
  (query f ui loc ex (n + 1) ≫= fun r => postprocess (snd r))
    (set_heap
       (alter (fun l => l ++ [function_message fc result]) loc (heap st))
       (set_world w2
          (add_event (EvExecute function arguments)
             (set_world w
                (add_event
                   (EvChat n (chat_request_for (options st) functions
                                (default [] (heap st !! loc)) n)) st))))).
Proof.
  intros Hsp Hfs Hch Hfr Hfc Hwn Hl Hfn Hty Hfe Hargs Hex.
  rewrite (query_function_call _ _ _ _ _ _ _ _ _ _ _
             Hsp Hfs Hch Hfr Hfc Hwn).
  cbv zeta. rewrite Hl. rewrite run_bind, execute_function_eq.
  rewrite (subscript_same fn "function" st), Hfn.
  rewrite (subscript_same function "type" st), Hty.
  rewrite Hfe, Hfc, Hargs. cbv zeta.
  change (world (set_world w _)) with w.
  rewrite Hex, <- run_bind. apply bind_ret_bind.
Qed.

(** Arguments [json.loads] refuses make the dispatch raise: what
    [json.loads] raises, or [ParseArgumentsFailed] in the place of a
    [JSONDecodeError]. *)
Lemma query_bad_arguments f ui loc ex n (st : state W) functions fs ch w fc
  fn function type fe err :
  fst (function_specs st) = Ret functions ->
  fst (configured_functions st) = Ret fs ->
  chat_completions_create
    (chat_request_for (options st) functions (default [] (heap st !! loc)) n)
    (world st) = (Value ch, w) ->
  finish_reason ch = "function_call" ->
  fcall (choice_message ch) = Some fc ->
  Forall Spec.well_named fs ->
  Spec.lookup_function (fc_name fc) fs = Some fn ->
  fst (subscript fn "function" st) = Ret function ->
  fst (subscript function "type" st) = Ret type ->
  get_function_executor type = Value fe ->
  json_loads (fc_arguments fc) = Throws err ->
  query (S f) ui loc ex n st =
  (Raise (if isinstance err JSONDecodeError
          then Exn ParseArgumentsFailed (fc_arguments fc) else err),
   set_world w
     (add_event
        (EvChat n (chat_request_for (options st) functions
                     (default [] (heap st !! loc)) n)) st)).
Proof.
  intros Hsp Hfs Hch Hfr Hfc Hwn Hl Hfn Hty Hfe Hargs.
  rewrite (query_function_call _ _ _ _ _ _ _ _ _ _ _
             Hsp Hfs Hch Hfr Hfc Hwn).
  cbv zeta. rewrite Hl, run_bind, execute_function_eq.
  rewrite (subscript_same fn "function" st), Hfn.
  rewrite (subscript_same function "type" st), Hty.
  rewrite Hfe, Hfc, Hargs.
  destruct (isinstance err JSONDecodeError); reflexivity.
Qed.

(** C6.  When the endpoint answers with a function call and every
    configured function has a named spec: if a function of that name is
    configured, [query] dispatches to the executor of its type, appends
    the message of role [function] with the function's name and the
    stringified result to the messages, and goes on as [query] with the
    counter plus one, whose message it processes; if none is,
    [FunctionNotFound] is raised. *)
Theorem C6_function_call_dispatch (f : nat) (ui : conversation_input)
  (loc : nat) (ex : list exposed_entity) (n : Z) (st : state W)
  (functions fs : list json) (ch : chat_choice) (w : W) (fc : fn_call) :
  fst (function_specs st) = Ret functions ->
  fst (configured_functions st) = Ret fs ->
  chat_completions_create
    (chat_request_for (options st) functions (default [] (heap st !! loc)) n)
    (world st) = (Value ch, w) ->
  finish_reason ch = "function_call" ->
  fcall (choice_message ch) = Some fc ->
  Forall Spec.well_named fs ->
  let st1 := set_world w
               (add_event
                  (EvChat n (chat_request_for (options st) functions
                               (default [] (heap st !! loc)) n)) st) in
  match Spec.lookup_function (fc_name fc) fs with
  | Some fn =>
      forall function type fe arguments result w2,
        fst (subscript fn "function" st) = Ret function ->
        fst (subscript function "type" st) = Ret type ->
        get_function_executor type = Value fe ->
        json_loads (fc_arguments fc) = Value arguments ->
        execute fe function arguments ui ex w = (Value result, w2) ->
        query (S f) ui loc ex n st =
        (query f ui loc ex (n + 1) ≫= fun r => postprocess (snd r))
          (set_heap
             (alter
                (fun l => l ++ [{| role := "function";
                                   content := Some (py_str result);
                                   name := Some (fc_name fc);
                                   fcall := None |}])
                loc (heap st))
             (set_world w2
                (add_event (EvExecute function arguments) st1)))
  | None =>
      query (S f) ui loc ex n st =
      (Raise (Exn FunctionNotFound (fc_name fc)), st1)
  end.
Proof.
  intros Hsp Hfs Hch Hfr Hfc Hwn st1.
  destruct (Spec.lookup_function (fc_name fc) fs) as [fn|] eqn:Hl.
  - intros function type fe arguments result w2 Hfn Hty Hfe Hargs Hex.
    exact (query_dispatch _ _ _ _ _ _ _ _ _ _ _ _ _ _ _ _ _ _
             Hsp Hfs Hch Hfr Hfc Hwn Hl Hfn Hty Hfe Hargs Hex).
  - rewrite (query_function_call _ _ _ _ _ _ _ _ _ _ _
               Hsp Hfs Hch Hfr Hfc Hwn).
    cbv zeta. rewrite Hl. reflexivity.
Qed.

Lemma respond_timeout fuel ui cid loc ex (st : state W) st1 :
  query fuel ui loc ex 0 st = (Timeout, st1) ->
  respond fuel ui cid loc ex st = (Timeout, st1).
Proof.
  intros Hq. unfold respond. rewrite run_bind. unfold attempt. rewrite Hq.
  reflexivity.
Qed.

(** C9, amended.  [execute_function] does the same whatever services the
    [query] it recurses into reports.  When the turn answers with speech,
    the text " \n\nService executed successfully." is added to the
    content [query] returned exactly when the turn sent one request (the
    endpoint answered directly) and made at least one host service call;
    a turn that went through a function call, with two requests or
    more, never adds it. *)
Theorem C9_suffix_only_for_direct_answers :
  (forall (q : query_t) ui loc m ex n fn (st : state W),
      execute_function q ui loc m ex n fn st =
      execute_function
        (fun a b c d => r ← q a b c d; ret ([], snd r))
        ui loc m ex n fn st) /\
  (forall fuel ui cid loc ex (st : state W) res st',
      respond fuel ui cid loc ex st = (Ret res, st') ->
      (exists msg, response res = ErrorResponse (language ui) msg) \/
      (exists services_called message st1 evs,
          query fuel ui loc ex 0 st = (Ret (services_called, message), st1) /\
          trace st' = trace st ++ evs /\
          ((Spec.requests evs = 1 /\ 1 <= Spec.services evs /\
            response res =
            Speech (language ui)
              (option_map (fun c => c +:+ SERVICE_EXECUTED) (content message)))
           \/
           ((2 <= Spec.requests evs \/ Spec.services evs = 0) /\
            response res = Speech (language ui) (content message))))).
Proof.
  split.
  - intros q ui loc m ex n fn st. rewrite !execute_function_eq.
    destruct (fst (subscript fn _ _)) as [function|e|]; try reflexivity.
    destruct (fst (subscript function _ _)) as [type|e|]; try reflexivity.
    destruct (get_function_executor type); [|reflexivity].
    destruct (fcall m) as [fc|]; [|reflexivity].
    destruct (json_loads _); [|reflexivity]. cbv zeta.
    destruct (execute _ _ _ _ _ _) as [[result|e] w2]; [|reflexivity].
    rewrite !run_bind.
    destruct (q _ _ _ _ _) as [[[sc m1]|e|] st4]; reflexivity.
  - intros fuel ui cid loc ex st res st' H.
    destruct (query fuel ui loc ex 0 st) as [[[sc m]|e|] st1] eqn:Hq.
    + right. destruct (respond_returns _ _ cid _ _ _ _ _ _ Hq) as (st2 & Hr & Ht).
      rewrite Hr in H. injection H as <- <-.
      destruct (query_services _ _ _ _ _ _ _ _ _ Hq) as (evs & Hevs & Hc).
      exists sc, m, st1, evs. split; [reflexivity|].
      split; [congruence|]. simpl.
      destruct Hc as [[Hone Hlen]|[Htwo ->]].
      * destruct sc as [|rec sc]; simpl in *.
        -- right. split; [right; lia|reflexivity].
        -- left. split; [assumption|]. split; [lia|reflexivity].
      * right. split; [left; assumption|reflexivity].
    + rewrite (respond_raises _ _ _ _ _ _ _ _ Hq) in H.
      destruct (isinstance e OpenAIError).
      { injection H as <- _. left. eexists. reflexivity. }
      destruct (isinstance e HomeAssistantError); [|discriminate].
      injection H as <- _. left. eexists. reflexivity.
    + rewrite (respond_timeout _ _ _ _ _ _ _ Hq) in H. discriminate.
Qed.

(** C7.  [async_setup_entry] first validates the credentials.  On an
    authentication error it returns [False], on another error of the
    client it raises [ConfigEntryNotReady], any other exception of the
    validation it passes on, and in these cases nothing is stored or
    registered.  When the validation succeeds the agent is constructed:
    if its constructor returns, the set-up returns [True] with the new
    agent stored in the entry's data, next to the API key, and
    registered as the conversation agent of the entry; if its
    constructor raises, the set-up raises the same and nothing is
    stored or registered.  The agent is registered only when the
    validation succeeded. *)
Theorem C7_setup_validates_first (entry : config_entry) (h : hass W) :
  let v := validate_authentication (api_key entry) (base_url entry)
             (api_version entry) (skip_authentication entry) (hass_world h) in
  let r := async_setup_entry entry h in
  hass_world (snd r) = snd v /\
  (forall err, fst v = Throws err ->
               isinstance err AuthenticationError = true ->
               fst r = Ret false /\
               hass_data (snd r) = hass_data h /\
               conversation_agents (snd r) = conversation_agents h) /\
  (forall err, fst v = Throws err ->
               isinstance err AuthenticationError = false ->
               isinstance err OpenAIError = true ->
               fst r = Raise (Exn ConfigEntryNotReady (str_exn err)) /\
               hass_data (snd r) = hass_data h /\
               conversation_agents (snd r) = conversation_agents h) /\
  (forall err, fst v = Throws err ->
               isinstance err AuthenticationError = false ->
               isinstance err OpenAIError = false ->
               fst r = Raise err /\
               hass_data (snd r) = hass_data h /\
               conversation_agents (snd r) = conversation_agents h) /\
  (forall u agent,
      fst v = Value u ->
      new_agent entry = Value agent ->
      fst r = Ret true /\
      conversation_agents (snd r) !! entry_id entry = Some agent /\
      (exists domain_data data,
          hass_data (snd r) = Some domain_data /\
          domain_data !! entry_id entry = Some data /\
          data !! DATA_AGENT = Some (DataAgent agent) /\
          data !! CONF_API_KEY = Some (DataStr (api_key entry)))) /\
  (forall u err,
      fst v = Value u ->
      new_agent entry = Throws err ->
      fst r = Raise err /\
      hass_data (snd r) = hass_data h /\
      conversation_agents (snd r) = conversation_agents h) /\
  (conversation_agents (snd r) <> conversation_agents h ->
   exists u, fst v = Value u).
Proof.
  intros v r. subst r. unfold async_setup_entry. fold v.
  destruct v as [[u|err] w]; cbn [fst snd].
  - destruct (new_agent entry) as [agent|err];
      cbn [fst snd hass_world hass_data conversation_agents];
      (split; [reflexivity|]); (split; [discriminate|]);
      (split; [discriminate|]); (split; [discriminate|]).
    + split; [|split; [discriminate|eauto]].
      intros _ agent' _ H. injection H as <-. split; [reflexivity|].
      split; [apply lookup_insert_eq|].
      eexists _, _. split; [reflexivity|].
      split; [apply lookup_insert_eq|].
      split; [apply lookup_insert_eq|].
      rewrite lookup_insert_ne by discriminate. apply lookup_insert_eq.
    + split; [discriminate|]. split; [|eauto].
      intros _ err' _ H. injection H as <-. auto.
  - destruct (isinstance err AuthenticationError) eqn:Ha;
      [|destruct (isinstance err OpenAIError) eqn:Ho];
      cbn [fst snd hass_world hass_data conversation_agents];
      (split; [reflexivity|]);
      (split; [intros err' H Ha'; injection H as <-;
               first [solve [auto] | congruence]|]);
      (split; [intros err' H Hb' Ho'; injection H as <-;
               first [solve [auto] | congruence]|]);
      (split; [intros err' H Hb' Ho'; injection H as <-;
               first [solve [auto] | congruence]|]);
      (split; [discriminate|]); (split; [discriminate|]);
      intros H; contradiction.
Qed.

End TurnClaims.

(* ===================================================================== *)
(** * The stored history only grows *)
(* ===================================================================== *)

Section HistoryFacts.

Context {W : Type} {host : Host W}.

(** From [st] to [st']: the history maps the same ids to the same lists,
    the options are the same, and every list has only been appended
    to. *)
Definition grows (st st' : state W) : Prop :=
  history st' = history st /\
  options st' = options st /\
  forall loc l, heap st !! loc = Some l ->
                exists suffix, heap st' !! loc = Some (l ++ suffix).

Lemma grows_refl st : grows st st.
Proof.
  repeat split. intros loc l H. exists []. rewrite app_nil_r. exact H.
Qed.

Lemma grows_trans st1 st2 st3 : grows st1 st2 -> grows st2 st3 -> grows st1 st3.
Proof.
  intros (Hh1 & Ho1 & H1) (Hh2 & Ho2 & H2).
  split; [congruence|]. split; [congruence|].
  intros loc l Hl. destruct (H1 _ _ Hl) as (s1 & Hs1).
  destruct (H2 _ _ Hs1) as (s2 & Hs2). exists (s1 ++ s2).
  rewrite Hs2, app_assoc. reflexivity.
Qed.

Lemma grows_same st st' :
  history st' = history st -> options st' = options st ->
  heap st' = heap st -> grows st st'.
Proof.
  intros Hh Ho Hp. repeat split; [assumption..|].
  intros loc l H. exists []. rewrite app_nil_r, Hp. exact H.
Qed.

(** [m] keeps the history growing. *)
Definition keeps {A} (m : M W A) : Prop := forall st, grows st (snd (m st)).

Lemma keeps_bind {A B} (m : M W A) (k : A -> M W B) :
  keeps m -> (forall a, keeps (k a)) -> keeps (m ≫= k).
Proof.
  intros Hm Hk st. rewrite run_bind. specialize (Hm st).
  destruct (m st) as [[a|e|] st1]; simpl in *; [|assumption..].
  eapply grows_trans; [exact Hm|apply Hk].
Qed.

Lemma keeps_pure {A} (m : M W A) : pure m -> keeps m.
Proof. intros H st. destruct (H st) as (-> & _). apply grows_refl. Qed.

Lemma keeps_attempt {A} (m : M W A) : keeps m -> keeps (attempt m).
Proof.
  intros Hm st. unfold attempt. specialize (Hm st).
  destruct (m st) as [[a|e|] st1]; exact Hm.
Qed.

Lemma keeps_call_host {A} (op : W -> answer A * W) : keeps (call_host op).
Proof.
  intros st. unfold call_host.
  destruct (op (world st)) as [[a|e] w]; apply grows_same; reflexivity.
Qed.

Lemma keeps_log e : keeps (log (W := W) e).
Proof. intros st. apply grows_same; reflexivity. Qed.

Lemma keeps_the_world : keeps (the_world (W := W)).
Proof. intros st. apply grows_refl. Qed.

Lemma keeps_read_list loc : keeps (read_list (W := W) loc).
Proof. intros st. apply grows_refl. Qed.

Lemma keeps_history_lookup c : keeps (history_lookup (W := W) c).
Proof. intros st. apply grows_refl. Qed.

Lemma keeps_new_ulid : keeps new_ulid.
Proof. intros st. apply grows_same; reflexivity. Qed.

(** [messages.append] grows the list it is given and no other. *)
Lemma keeps_list_append loc m : keeps (list_append (W := W) loc m).
Proof.
  intros st. repeat split. intros loc' l H. cbn [list_append snd set_heap heap].
  destruct (decide (loc = loc')) as [->|Hne].
  - exists [m]. rewrite list_lookup_alter_eq, H. reflexivity.
  - exists []. rewrite app_nil_r, list_lookup_alter_ne by exact Hne. exact H.
Qed.

(** A new list leaves the others alone. *)
Lemma keeps_new_list l : keeps (new_list (W := W) l).
Proof.
  intros st. repeat split. intros loc l' H. cbn [new_list snd set_heap heap].
  exists []. rewrite app_nil_r. apply lookup_app_l_Some, H.
Qed.

Lemma keeps_mapM {A B} (f : A -> M W B) l :
  (forall a, keeps (f a)) -> keeps (mapM f l).
Proof.
  intros Hf. induction l as [|a l IH]; simpl; [apply keeps_pure, pure_ret|].
  apply keeps_bind; [apply Hf|]. intros b.
  apply keeps_bind; [apply IH|]. intros bs. apply keeps_pure, pure_ret.
Qed.

Lemma keeps_call_service segment : keeps (call_service segment).
Proof.
  unfold call_service. apply keeps_bind.
  { apply keeps_pure, pure_of_answer. }
  intros [| | | | |d]; try (apply keeps_pure, pure_raise).
  destruct (Dict.pop "service" d) as [[v rest]|];
    [|apply keeps_pure, pure_raise].
  destruct v; try (apply keeps_pure, pure_raise).
  destruct (if String.eqb _ _ then _ else _) as [service service_call].
  destruct (_ || _); [apply keeps_pure, pure_ret|].
  destruct (nth_error _ _); [|apply keeps_pure, pure_raise].
  apply keeps_bind; [apply keeps_log|]. intros _.
  apply keeps_bind; [apply keeps_call_host|]. intros _.
  apply keeps_pure, pure_ret.
Qed.

Lemma keeps_service_loop segments failed called :
  keeps (service_loop segments failed called).
Proof.
  revert failed called.
  induction segments as [|segment rest IH]; intros failed called; simpl.
  - apply keeps_pure, pure_ret.
  - apply keeps_bind; [apply keeps_attempt, keeps_call_service|].
    intros [[sc|]|e]; try apply IH.
    destruct (isinstance e Exception); [|apply keeps_pure, pure_reraise].
    apply keeps_bind; [|intros; apply IH].
    unfold on_service_error.
    apply keeps_bind; [apply keeps_pure, pure_raise|].
    intros; apply keeps_pure, pure_ret.
Qed.

Lemma keeps_postprocess message : keeps (postprocess message).
Proof.
  unfold postprocess. apply keeps_bind.
  { apply keeps_pure. destruct (content message);
      [apply pure_ret|apply pure_raise]. }
  intros c. apply keeps_bind; [|intros; apply keeps_pure, pure_ret].
  unfold run_directives. destruct (PyStr.contains _ _).
  - apply keeps_bind; [apply keeps_pure, pure_of_answer|]. intros segs.
    apply keeps_bind; [apply keeps_service_loop|].
    intros [flag sc]. apply keeps_pure, pure_ret.
  - apply keeps_pure, pure_ret.
Qed.

Lemma keeps_execute_function_call (q : query_t) ui loc m ex n :
  (forall ui loc ex n, keeps (q ui loc ex n)) ->
  keeps (execute_function_call q ui loc m ex n).
Proof.
  intros Hq. unfold execute_function_call.
  apply keeps_bind.
  { apply keeps_pure. destruct (fcall m); [apply pure_ret|apply pure_raise]. }
  intros nm.
  apply keeps_bind; [apply keeps_pure, pure_configured_functions|].
  intros fs. apply keeps_bind; [apply keeps_pure, pure_find_function|].
  intros [f|]; [|apply keeps_pure, pure_raise].
  unfold execute_function.
  apply keeps_bind; [apply keeps_pure, pure_subscript|]. intros function.
  apply keeps_bind; [apply keeps_pure, pure_subscript|]. intros type.
  apply keeps_bind; [apply keeps_pure, pure_of_answer|]. intros fe.
  apply keeps_bind.
  { apply keeps_pure. destruct (fcall m); [apply pure_ret|apply pure_raise]. }
  intros fc. apply keeps_bind.
  { apply keeps_pure, pure_arguments. }
  intros arguments. apply keeps_bind; [apply keeps_log|]. intros _.
  apply keeps_bind; [apply keeps_call_host|]. intros result.
  apply keeps_bind; [apply keeps_list_append|]. intros _.
  apply keeps_bind; [apply Hq|]. intros r. apply keeps_pure, pure_ret.
Qed.

(** [query] appends to lists and stores nothing. *)
Lemma keeps_query fuel : forall ui loc ex n, keeps (query fuel ui loc ex n).
Proof.
  induction fuel as [|f IH]; intros ui loc ex n.
  - intros st. apply grows_refl.
  - cbn [query].
    apply keeps_bind; [apply keeps_pure, pure_the_options|]. intros opts.
    apply keeps_bind; [apply keeps_pure, pure_function_specs|]. intros fs.
    apply keeps_bind; [apply keeps_read_list|]. intros msgs.
    apply keeps_bind; [apply keeps_log|]. intros _.
    apply keeps_bind; [apply keeps_call_host|]. intros ch.
    apply keeps_bind; [|intros; apply keeps_postprocess].
    destruct (String.eqb _ _); [|apply keeps_pure, pure_ret].
    apply keeps_execute_function_call, IH.
Qed.

Lemma keeps_get_exposed_entities : keeps get_exposed_entities.
Proof.
  unfold get_exposed_entities.
  apply keeps_bind; [apply keeps_the_world|]. intros w.
  apply keeps_pure, pure_mapM. intros s.
  destruct (states_get w (state_entity_id s)); [apply pure_ret|apply pure_raise].
Qed.

(** Storing a list under the id it is stored under changes nothing. *)
Lemma respond_grows fuel ui c loc ex (st : state W) :
  history st !! c = Some loc ->
  grows st (snd (respond fuel ui (Some c) loc ex st)).
Proof.
  intros Hc. unfold respond. rewrite run_bind. unfold attempt.
  pose proof (keeps_query fuel ui loc ex 0 st) as Hq.
  destruct (query fuel ui loc ex 0 st) as [[[sc m]|e|] st1]; cbn [snd] in *.
  - rewrite run_bind. cbn [list_append]. rewrite run_bind.
    cbn [history_store]. rewrite run_bind.
    eapply grows_trans; [exact Hq|].
    eapply grows_trans; [apply (keeps_list_append loc m st1)|].
    cbn [list_append snd].
    assert (grows (set_heap (alter (fun l => l ++ [m]) loc (heap st1)) st1)
              (set_history
                 (<[c:=loc]> (history
                    (set_heap (alter (fun l => l ++ [m]) loc (heap st1)) st1)))
                 (set_heap (alter (fun l => l ++ [m]) loc (heap st1)) st1)))
      as Hs.
    { apply grows_same; try reflexivity. cbn [history set_history set_heap].
      apply insert_id. destruct Hq as (-> & _). exact Hc. }
    destruct (Nat.ltb 0 (length sc)); [destruct (content m)|]; exact Hs.
  - destruct (isinstance e OpenAIError); [exact Hq|].
    destruct (isinstance e HomeAssistantError); exact Hq.
  - exact Hq.
Qed.

(** For a conversation id that is stored, with the option "ignore
    conversation id" unset, a turn of [async_process], whatever its
    outcome, leaves every id of the history on its list and only appends
    to the lists: the stored history of the id is a prefix of what is
    stored after the turn. *)
Lemma stored_history_grows fuel ui (st : state W) c loc old :
  conversation_id ui = Some c ->
  history st !! c = Some loc ->
  heap st !! loc = Some old ->
  ignore_convoid (options st) = false ->
  history (snd (async_process fuel ui st)) = history st /\
  exists suffix,
    heap (snd (async_process fuel ui st)) !! loc = Some (old ++ suffix).
Proof.
  intros Hc Hh Hl Hi.
  assert (grows st (snd (async_process fuel ui st))) as (Hg1 & _ & Hg3).
  { unfold async_process. rewrite run_bind. cbn [the_options].
    rewrite run_bind.
    pose proof (keeps_get_exposed_entities st) as He.
    destruct (get_exposed_entities st) as [[ex|e|] st1]; cbn [snd] in *;
      [|exact He..].
    eapply grows_trans; [exact He|].
    destruct He as (Hh1 & Ho1 & _).
    rewrite run_bind. unfold open_conversation. rewrite run_bind.
    cbn [the_options]. rewrite run_bind. cbn [new_list]. rewrite run_bind.
    cbn [history_lookup]. rewrite Hc. cbn [history set_heap].
    rewrite Hh1, Hh, Ho1, Hi. cbn [ret].
    eapply grows_trans; [apply (keeps_new_list [] st1)|].
    cbn [new_list snd].
    set (st2 := set_heap (heap st1 ++ [[]]) st1).
    assert (history st2 !! c = Some loc) as Hh2.
    { subst st2. cbn [history set_heap]. rewrite Hh1. exact Hh. }
    rewrite run_bind.
    destruct (attach_username (options st)).
    - rewrite run_bind.
      pose proof (keeps_call_host (auth_async_get_user (user_id ui)) st2) as Hu.
      destruct (call_host _ st2) as [[u|e|] st3]; cbn [snd] in *;
        [|exact Hu..].
      eapply grows_trans; [exact Hu|]. cbn [ret].
      rewrite run_bind. cbn [list_append].
      match goal with
      | |- grows ?a (snd (respond _ _ _ _ _ ?b)) =>
          apply (grows_trans a b);
          [exact (keeps_list_append loc _ a)|apply respond_grows]
      end.
      cbn [history set_heap]. destruct Hu as (-> & _). exact Hh2.
    - cbn [ret]. rewrite run_bind. cbn [list_append].
      match goal with
      | |- grows ?a (snd (respond _ _ _ _ _ ?b)) =>
          apply (grows_trans a b);
          [exact (keeps_list_append loc _ a)|apply respond_grows]
      end.
      exact Hh2. }
  split; [exact Hg1|]. exact (Hg3 _ _ Hl).
Qed.

End HistoryFacts.

(* ===================================================================== *)
(** * The claims on the concrete environment *)
(* ===================================================================== *)

Lemma obedient_host_obedient b refused configured :
  b = true -> Spec.obedient (host := Scenario.make_host b refused configured).
Proof.
  intros -> req w ch w' H Hf. simpl in H. unfold Scenario.endpoint in H.
  destruct (Scenario.script w) as [|c cs].
  - injection H as <- _. discriminate.
  - destruct (String.eqb (finish_reason c) "function_call") eqn:Hc;
      cbn [andb] in H.
    + destruct (req_function_call req) as [fc|]; cbn [negb] in H.
      * destruct (String.eqb fc "auto") eqn:Hfc; cbn [negb] in H.
        -- apply String.eqb_eq in Hfc. congruence.
        -- injection H as <- _. discriminate.
      * injection H as <- _. discriminate.
    + injection H as <- _. apply String.eqb_neq in Hc. contradiction.
Qed.

Lemma open_host_accepts : Spec.host_accepts (host := Scenario.open_host).
Proof. intros domain service_name data w. reflexivity. Qed.

(** C10, as stated, fails on a line feed: by the claim's words the empty
    object written with a line feed between its braces is the one minimal
    brace-delimited substring of the text, and it is valid JSON; the code
    neither extracts nor removes it. *)
Lemma C10_counterexample_line_feed :
  Spec.scan Spec.any_char Scenario.braces_on_lines
    [Re.Hit Scenario.braces_on_lines] /\
  PyJson.loads Scenario.braces_on_lines = PyJson.Parsed (JObj []) /\
  extract_json_objects (host := Scenario.obedient_host)
    Scenario.braces_on_lines = Value [] /\
  remove_json_objects Scenario.braces_on_lines = Scenario.braces_on_lines.
Proof.
  split; [|repeat split; reflexivity].
  exact (Spec.scan_hit Spec.any_char (String PyStr.nl EmptyString) EmptyString []
           eq_refl (Spec.scan_nil _)).
Qed.

(** C10 at an object with a nested object: it is no match, nothing of it
    is extracted, and its last brace is left behind; at two directives,
    which are both extracted; and at a directive with an integer of 4301
    digits, for which [json.loads] raises [ValueError] and so does
    [extract_json_objects]. *)
Lemma C10_witness :
  ~ In (Re.Hit Scenario.nested_object) (Re.finditer Scenario.nested_object) /\
  extract_json_objects (host := Scenario.obedient_host)
    Scenario.nested_object = Value [] /\
  remove_json_objects Scenario.nested_object = "}" /\
  extract_json_objects (host := Scenario.obedient_host)
    Scenario.two_directives
  = Value [Scenario.light_directive; Scenario.script_directive] /\
  extract_json_objects (host := Scenario.obedient_host)
    Scenario.long_integer_directive
  = Throws (Exn ValueError
              "Exceeds the limit (4300 digits) for integer string conversion").
Proof.
  split; [|split; [|split; [|split]]].
  - destruct (C10_matches_lie_on_one_line (host := Scenario.obedient_host)
                Scenario.nested_object) as (_ & H & _).
    destruct (H (Re.finditer Scenario.nested_object) (finditer_scan _))
      as (_ & _ & _ & _ & Hn).
    apply Hn. vm_compute. lia.
  - vm_compute. reflexivity.
  - vm_compute. reflexivity.
  - destruct (C10_matches_lie_on_one_line (host := Scenario.obedient_host)
                Scenario.two_directives) as (_ & H & _).
    destruct (H (Re.finditer Scenario.two_directives) (finditer_scan _))
      as (_ & Hx & _).
    rewrite Hx; vm_compute; reflexivity.
  - destruct (C10_matches_lie_on_one_line (host := Scenario.obedient_host)
                Scenario.long_integer_directive) as (_ & H & _).
    destruct (H (Re.finditer Scenario.long_integer_directive)
                (finditer_scan _)) as (_ & _ & Hx & _).
    apply (Hx [] Scenario.long_integer_directive []);
      vm_compute; reflexivity.
Defined.

(** C5, as stated, fails on a directive of another domain with nothing
    besides its service: the guard passes it over, no host call is made.
    A service without a dot is not split into domain and name either: the
    directive raises [IndexError]. *)
Lemma C5_counterexample_guard :
  PyJson.loads Scenario.lone_service
  = PyJson.Parsed (JObj [("service", JStr "light.turn_on")]) /\
  call_service (host := Scenario.obedient_host) Scenario.lone_service
    (Scenario.start 2 false [])
  = (Ret None, Scenario.start 2 false []) /\
  call_service (host := Scenario.obedient_host) Scenario.no_dot_directive
    (Scenario.start 2 false [])
  = (Raise (Exn IndexError "list index out of range"),
     Scenario.start 2 false []).
Proof. repeat split; reflexivity. Qed.

(** C5 at a script with a variable and at a light with an entity. *)
Lemma C5_witness :
  trace (snd (call_service (host := Scenario.obedient_host)
                Scenario.script_directive (Scenario.start 2 false [])))
  = [EvService "script" "turn_on"
       [("entity_id", JStr "script.bedtime");
        ("variables", JObj [("delay", JNum "5")])]] /\
  trace (snd (call_service (host := Scenario.obedient_host)
                Scenario.light_directive (Scenario.start 2 false [])))
  = [EvService "light" "turn_on" [("entity_id", JStr "light.kitchen")]].
Proof.
  split.
  - apply (proj1 (C5_script_and_plain_directives
                    (host := Scenario.obedient_host)
                    Scenario.script_directive
                    [("service", JStr "script.bedtime"); ("delay", JNum "5")]
                    "script.bedtime" (Scenario.start 2 false [])
                    eq_refl eq_refl) eq_refl eq_refl).
  - apply (proj2 (C5_script_and_plain_directives
                    (host := Scenario.obedient_host)
                    Scenario.light_directive
                    [("service", JStr "light.turn_on");
                     ("entity_id", JStr "light.kitchen")]
                    "light.turn_on" (Scenario.start 2 false [])
                    eq_refl eq_refl) "light" "turn_on" [] eq_refl);
      discriminate.
Defined.



(** C2, as stated, fails for a negative maximum: the counter, which
    starts at 0 and grows, never equals it, every request says "auto",
    and an endpoint that keeps to the API is answered three function
    calls in a turn whose maximum is -1. *)
Lemma C2_counterexample_negative_maximum :
  let st := Scenario.start (-1) false
              [Scenario.calls "lookup" "{}"; Scenario.calls "lookup" "{}";
               Scenario.calls "lookup" "{}"; Scenario.says "Done."] in
  let r := async_process (host := Scenario.obedient_host) 9
             (Scenario.hears "look it up" None) st in
  Spec.obedient (host := Scenario.obedient_host) /\
  max_function_calls_per_conversation (options st) = (-1)%Z /\
  fst r = Ret {| response := Speech "en" (Some "Done.");
                 result_conversation_id := Some "ulid0" |} /\
  Spec.dispatches (trace (snd r)) = 3 /\
  map req_function_call (Scenario.requests_of (trace (snd r)))
  = [Some "auto"; Some "auto"; Some "auto"; Some "auto"].
Proof.
  cbv zeta. split; [apply obedient_host_obedient; reflexivity|].
  repeat split; vm_compute; reflexivity.
Qed.

(** C2 at a maximum of 2 with an endpoint that would go on calling. *)
Lemma C2_witness :
  let st := Scenario.start 2 false
              [Scenario.calls "lookup" "{}"; Scenario.calls "lookup" "{}";
               Scenario.calls "lookup" "{}"; Scenario.calls "lookup" "{}"] in
  let r := async_process (host := Scenario.obedient_host) 3
             (Scenario.hears "look it up" None) st in
  fst r <> Timeout /\
  exists evs,
    trace (snd r) = trace st ++ evs /\
    Spec.dispatches evs <= 2 /\
    Forall (Spec.request_within 0 2) evs.
Proof.
  cbv zeta.
  apply (C2_recursion_bounded (host := Scenario.obedient_host) 3
           (Scenario.hears "look it up" None)
           (Scenario.start 2 false
              [Scenario.calls "lookup" "{}"; Scenario.calls "lookup" "{}";
               Scenario.calls "lookup" "{}"; Scenario.calls "lookup" "{}"])).
  - apply obedient_host_obedient. reflexivity.
  - simpl. lia.
  - simpl. lia.
Defined.

(** C3 fails in the code: a conversation stored while the option was
    unset and continued after it was set starts from the user message
    alone, with no system prompt; the sibling branch, for an id that is
    not stored, starts from a fresh system prompt. *)
Theorem C3_stored_conversation_gets_no_prompt :
  let first := async_process (host := Scenario.obedient_host) 3
                 (Scenario.hears "hello" None)
                 (Scenario.start 2 false [Scenario.says "Hi."]) in
  let st := Scenario.next_turn [Scenario.says "Again."]
              (Scenario.set_ignore_convoid true (snd first)) in
  let stored := async_process (host := Scenario.obedient_host) 3
                  (Scenario.hears "again" (Some "ulid0")) st in
  let unknown := async_process (host := Scenario.obedient_host) 3
                   (Scenario.hears "again" (Some "other")) st in
  ignore_convoid (options st) = true /\
  history st !! "ulid0" = Some 1 /\
  heap st !! 1 = Some [Scenario.system_message; Scenario.user_message "hello";
                       Scenario.assistant_message "Hi."] /\
  map req_messages (Scenario.requests_of (trace (snd stored)))
  = [[Scenario.user_message "again"]] /\
  map req_messages (Scenario.requests_of (trace (snd unknown)))
  = [[Scenario.system_message; Scenario.user_message "again"]].
Proof. cbv zeta. repeat split; vm_compute; reflexivity. Qed.

Lemma lookup_function_well_named :
  Forall Spec.well_named [Scenario.lookup_function].
Proof.
  constructor; [|constructor].
  exists [("spec", JObj [("name", JStr "lookup")]);
          ("function", JObj [("type", JStr "native")])],
    [("name", JStr "lookup")], (JStr "lookup").
  repeat split; reflexivity.
Qed.

(** C6 at a call of the configured function [lookup], on a list that
    holds the user's message: the function message is appended to it and
    sent with the next request. *)
Lemma C6_witness :
  let st := set_heap [[Scenario.user_message "look it up"]]
              (Scenario.start 2 false
                 [Scenario.calls "lookup" (dq "{'q': 1}")]) in
  let ui := Scenario.hears "look it up" None in
  let w := {| Scenario.script := []; Scenario.ulids := 0 |} in
  let function_message :=
    {| role := "function"; content := Some "result";
       name := Some "lookup"; fcall := None |} in
  query (host := Scenario.obedient_host) 2 ui 0 [] 0 st =
  (query (host := Scenario.obedient_host) 1 ui 0 [] 1
     ≫= fun r => postprocess (host := Scenario.obedient_host) (snd r))
    (set_heap
       (alter (fun l => l ++ [function_message]) 0 (heap st))
       (set_world w
          (add_event
             (EvExecute (JObj [("type", JStr "native")])
                (JObj [("q", JNum "1")]))
             (set_world w
                (add_event
                   (EvChat 0
                      (chat_request_for (options st)
                         [JObj [("name", JStr "lookup")]]
                         [Scenario.user_message "look it up"] 0)) st))))) /\
  alter (fun l => l ++ [function_message]) 0 (heap st)
  = [[Scenario.user_message "look it up"; function_message]] /\
  heap (snd (query (host := Scenario.obedient_host) 2 ui 0 [] 0 st))
  = [[Scenario.user_message "look it up"; function_message]] /\
  map req_messages
    (Scenario.requests_of
       (trace (snd (query (host := Scenario.obedient_host) 2 ui 0 [] 0 st))))
  = [[Scenario.user_message "look it up"];
     [Scenario.user_message "look it up"; function_message]].
Proof.
  cbv zeta. split; [|repeat split; vm_compute; reflexivity].
  exact (C6_function_call_dispatch (host := Scenario.obedient_host)
           1 (Scenario.hears "look it up" None) 0 [] 0
           (set_heap [[Scenario.user_message "look it up"]]
              (Scenario.start 2 false
                 [Scenario.calls "lookup" (dq "{'q': 1}")]))
           [JObj [("name", JStr "lookup")]]
           [Scenario.lookup_function]
           (Scenario.calls "lookup" (dq "{'q': 1}"))
           {| Scenario.script := []; Scenario.ulids := 0 |}
           {| fc_name := "lookup"; fc_arguments := dq "{'q': 1}" |}
           eq_refl eq_refl eq_refl eq_refl eq_refl
           lookup_function_well_named
           (JObj [("type", JStr "native")]) (JStr "native") "native"
           (JObj [("q", JNum "1")]) (JObj [("q", JNum "1")])
           {| Scenario.script := []; Scenario.ulids := 0 |}
           eq_refl eq_refl eq_refl eq_refl eq_refl).
Defined.

(** C7 at a refused key, at a good one, and at a good key with an Azure
    endpoint and no API version, for which the constructor of the client
    raises. *)
Lemma C7_witness :
  let h := {| hass_world := {| Scenario.script := []; Scenario.ulids := 0 |};
              hass_data := None; conversation_agents := ∅ |} in
  let entry key url := {| entry_id := "e1"; api_key := key; base_url := url;
                          api_version := None; skip_authentication := false |} in
  let azure := Some "https://home.openai.azure.com" in
  (fst (async_setup_entry (host := Scenario.obedient_host)
          (entry "sk-bad" None) h) = Ret false /\
   hass_data (snd (async_setup_entry (host := Scenario.obedient_host)
                     (entry "sk-bad" None) h)) = None /\
   conversation_agents
     (snd (async_setup_entry (host := Scenario.obedient_host)
             (entry "sk-bad" None) h)) = ∅) /\
  (fst (async_setup_entry (host := Scenario.obedient_host)
          (entry "sk-good" None) h) = Ret true /\
   conversation_agents
     (snd (async_setup_entry (host := Scenario.obedient_host)
             (entry "sk-good" None) h)) !! "e1"
   = Some {| agent_entry := entry "sk-good" None;
             agent_client := AsyncOpenAI "sk-good" None |} /\
   exists domain_data data,
     hass_data (snd (async_setup_entry (host := Scenario.obedient_host)
                       (entry "sk-good" None) h)) = Some domain_data /\
     domain_data !! "e1" = Some data /\
     data !! DATA_AGENT
     = Some (DataAgent {| agent_entry := entry "sk-good" None;
                          agent_client := AsyncOpenAI "sk-good" None |}) /\
     data !! CONF_API_KEY = Some (DataStr "sk-good")) /\
  (fst (async_setup_entry (host := Scenario.obedient_host)
          (entry "sk-good" azure) h)
   = Raise (Exn ValueError "Must provide the api_version argument") /\
   hass_data (snd (async_setup_entry (host := Scenario.obedient_host)
                     (entry "sk-good" azure) h)) = None /\
   conversation_agents
     (snd (async_setup_entry (host := Scenario.obedient_host)
             (entry "sk-good" azure) h)) = ∅).
Proof.
  cbv zeta. split; [|split].
  - apply (proj1 (proj2 (C7_setup_validates_first
                           (host := Scenario.obedient_host)
                           {| entry_id := "e1"; api_key := "sk-bad";
                              base_url := None; api_version := None;
                              skip_authentication := false |}
                           {| hass_world := {| Scenario.script := [];
                                               Scenario.ulids := 0 |};
                              hass_data := None; conversation_agents := ∅ |}))
             (Exn AuthenticationError "401") eq_refl eq_refl).
  - apply (proj1 (proj2 (proj2 (proj2 (proj2
             (C7_setup_validates_first
                (host := Scenario.obedient_host)
                {| entry_id := "e1"; api_key := "sk-good";
                   base_url := None; api_version := None;
                   skip_authentication := false |}
                {| hass_world := {| Scenario.script := [];
                                    Scenario.ulids := 0 |};
                   hass_data := None; conversation_agents := ∅ |})))))
             tt _ eq_refl eq_refl).
  - apply (proj1 (proj2 (proj2 (proj2 (proj2 (proj2
             (C7_setup_validates_first
                (host := Scenario.obedient_host)
                {| entry_id := "e1"; api_key := "sk-good";
                   base_url := Some "https://home.openai.azure.com";
                   api_version := None;
                   skip_authentication := false |}
                {| hass_world := {| Scenario.script := [];
                                    Scenario.ulids := 0 |};
                   hass_data := None; conversation_agents := ∅ |}))))))
             tt _ eq_refl eq_refl).
Defined.

(** C8 at a directive without a [service] key: the [KeyError] of the
    directive becomes the [NameError] of the turn. *)
Lemma C8_witness :
  let st := Scenario.start 2 false
              [Scenario.says ("$ActionRequired " +:+ Scenario.no_key_directive)] in
  let ui := Scenario.hears "turn on" None in
  call_service (host := Scenario.obedient_host) Scenario.no_key_directive st
  = (Raise (Exn KeyError "service"), st) /\
  fst (query (host := Scenario.obedient_host) 1 ui 0 [] 0 st)
  = Raise (Exn NameError "_lOGGER") /\
  fst (async_process (host := Scenario.obedient_host) 1 ui st)
  = Raise (Exn NameError "_lOGGER").
Proof.
  cbv zeta. split; [reflexivity|]. split; [|vm_compute; reflexivity].
  erewrite (proj1 (proj2 (proj2 (proj2
              (C8_handler_raises_NameError (host := Scenario.obedient_host)))))
              0 (Scenario.hears "turn on" None) 0 [] 0%Z
              (Scenario.start 2 false
                 [Scenario.says ("$ActionRequired " +:+ Scenario.no_key_directive)])
              [JObj [("name", JStr "lookup")]]
              (Scenario.says ("$ActionRequired " +:+ Scenario.no_key_directive))
              {| Scenario.script := []; Scenario.ulids := 0 |}
              ("$ActionRequired " +:+ Scenario.no_key_directive)
              Scenario.no_key_directive [] (Exn KeyError "service"));
    reflexivity.
Defined.

(** C9, as stated, fails: a directive is extracted from the top-level
    message of the model, the guard passes it over, and the text is not
    added to the answer. *)
Lemma C9_counterexample_extracted_not_called :
  let st := Scenario.start 2 false
              [Scenario.says ("$ActionRequired " +:+ Scenario.lone_service)] in
  extract_json_objects (host := Scenario.obedient_host)
    ("$ActionRequired " +:+ Scenario.lone_service)
  = Value [Scenario.lone_service] /\
  PyJson.loads Scenario.lone_service
  = PyJson.Parsed (JObj [("service", JStr "light.turn_on")]) /\
  fst (async_process (host := Scenario.obedient_host) 2
         (Scenario.hears "turn on" None) st)
  = Ret {| response := Speech "en" (Some "");
           result_conversation_id := Some "ulid0" |}.
Proof. cbv zeta. repeat split; vm_compute; reflexivity. Qed.

(** C9 at a direct answer with a directive that is called. *)
Lemma C9_witness :
  let st := Scenario.start 2 false
              [Scenario.says ("$ActionRequired " +:+ Scenario.light_directive)] in
  let ui := Scenario.hears "turn on" None in
  let res := {| response := Speech "en" (Some SERVICE_EXECUTED);
                result_conversation_id := None |} in
  let st' := snd (respond (host := Scenario.obedient_host) 2 ui None 0 [] st) in
  (exists msg, response res = ErrorResponse (language ui) msg) \/
  (exists services_called message st1 evs,
      query (host := Scenario.obedient_host) 2 ui 0 [] 0 st
      = (Ret (services_called, message), st1) /\
      trace st' = trace st ++ evs /\
      ((Spec.requests evs = 1 /\ 1 <= Spec.services evs /\
        response res =
        Speech (language ui)
          (option_map (fun c => c +:+ SERVICE_EXECUTED) (content message)))
       \/
       ((2 <= Spec.requests evs \/ Spec.services evs = 0) /\
        response res = Speech (language ui) (content message)))).
Proof.
  cbv zeta.
  apply (proj2 (C9_suffix_only_for_direct_answers
                  (host := Scenario.obedient_host))
           2 (Scenario.hears "turn on" None) None 0 []
           (Scenario.start 2 false
              [Scenario.says ("$ActionRequired " +:+ Scenario.light_directive)])).
  vm_compute. reflexivity.
Defined.

(* ===================================================================== *)
(** * Further properties of the module *)
(* ===================================================================== *)

(** ** Unloading the entry *)

Section UnloadFacts.

Context {W : Type} {host : Host W}.

(** X1.  After a set-up that succeeded, [async_unload_entry] succeeds:
    it removes the entry's data and its agent and touches nothing else.
    For an entry id that was new to the host the registered agents are
    then as they were before the set-up, and so is the data of the
    integration when the host had some; on a host that had none, the
    empty dictionary the set-up put under [DOMAIN] is left behind. *)
Theorem X1_unload_undoes_setup (entry : config_entry) (h h1 : hass W) :
  async_setup_entry entry h = (Ret true, h1) ->
  exists h2,
    async_unload_entry entry h1 = (Ret true, h2) /\
    hass_world h2 = hass_world h1 /\
    hass_data h2
    = Some (delete (entry_id entry) (default ∅ (hass_data h))) /\
    conversation_agents h2 =
      delete (entry_id entry) (conversation_agents h) /\
    (forall d, hass_data h = Some d -> d !! entry_id entry = None ->
               hass_data h2 = hass_data h) /\
    (hass_data h = None -> hass_data h2 = Some ∅) /\
    (conversation_agents h !! entry_id entry = None ->
     conversation_agents h2 = conversation_agents h).
Proof.
  unfold async_setup_entry, async_unload_entry.
  destruct (validate_authentication _ _ _ _ _) as [[[]|err] w].
  - destruct (new_agent entry) as [agent|err]; [|discriminate].
    intros H. injection H as <-. cbn [hass_data conversation_agents hass_world].
    rewrite lookup_insert_eq. eexists. split; [reflexivity|].
    cbn [hass_data conversation_agents hass_world].
    rewrite !delete_insert_eq.
    split; [reflexivity|]. split; [reflexivity|]. split; [reflexivity|].
    split; [|split].
    + intros d -> Hd. cbn. f_equal. apply delete_id, Hd.
    + intros ->. cbn. rewrite ?delete_empty. reflexivity.
    + apply delete_id.
  - destruct (isinstance err AuthenticationError); [discriminate|].
    destruct (isinstance err OpenAIError); discriminate.
Qed.

(** X2.  [async_unload_entry] raises [KeyError] and leaves the host as
    it is, the agent registered, when there is nothing to remove: the
    [KeyError] of [DOMAIN] on a host that has no data of the
    integration, the [KeyError] of the entry id when the integration
    has data but none of the entry.  So unloading is not repeatable:
    after an unload that returned, a second one raises the [KeyError]
    of the entry id. *)
Theorem X2_unload_without_data_raises_KeyError (entry : config_entry)
  (h : hass W) :
  (hass_data h = None ->
   async_unload_entry entry h = (Raise (Exn KeyError DOMAIN), h)) /\
  (forall d, hass_data h = Some d -> d !! entry_id entry = None ->
             async_unload_entry entry h
             = (Raise (Exn KeyError (entry_id entry)), h)) /\
  (forall b h1,
      async_unload_entry entry h = (Ret b, h1) ->
      async_unload_entry entry h1
      = (Raise (Exn KeyError (entry_id entry)), h1) /\
      conversation_agents h1
      = delete (entry_id entry) (conversation_agents h)).
Proof.
  unfold async_unload_entry. split; [|split].
  - intros ->. reflexivity.
  - intros d -> ->. reflexivity.
  - intros b h1. destruct (hass_data h) as [d|]; [|discriminate].
    destruct (d !! entry_id entry); [|discriminate].
    intros H. injection H as _ <-. cbn [hass_data conversation_agents].
    rewrite lookup_delete_eq. split; reflexivity.
Qed.

End UnloadFacts.

(** ** The text [query] returns *)

Section TextFacts.

Context {W : Type} {host : Host W}.

(** The characters of a text. *)
Definition chars (s : string) : list ascii := list_ascii_of_string s.

Lemma chars_append a b : chars (a +:+ b) = chars a ++ chars b.
Proof. induction a as [|c a IH]; simpl; [reflexivity|]. f_equal. exact IH. Qed.

Lemma deleted_chars P s t c :
  Spec.deleted P s t -> In c (chars t) -> In c (chars s).
Proof.
  induction 1 as [|d s t _ IH|d s t _ _ IH]; simpl; [auto| |auto].
  intros [H|H]; auto.
Qed.

Lemma remove_char_chars c s : ~ In c (chars (PyStr.remove_char c s)).
Proof.
  induction s as [|d s IH]; simpl; [auto|].
  destruct (Ascii.eqb_spec d c) as [->|Hne]; [exact IH|].
  simpl. intros [H|H]; [contradiction|auto].
Qed.

(** What the scan leaves outside the matches is made of characters of
    the text; with no match it is the text. *)
Lemma gaps_chars inner s ps c :
  Spec.scan inner s ps -> In c (chars (Re.gaps ps)) -> In c (chars s).
Proof.
  induction 1 as [|m r ps _ _ IH|d s ps _ _ IH]; simpl; [auto| |].
  - intros H. right. change (In c (chars (m +:+ String "}" r))).
    rewrite chars_append. apply in_or_app. right. right. auto.
  - intros [H|H]; auto.
Qed.

Lemma gaps_no_hits inner s ps :
  Spec.scan inner s ps -> Re.hits ps = [] -> Re.gaps ps = s.
Proof.
  induction 1 as [|m r ps _ _ IH|d s ps _ _ IH]; simpl;
    [reflexivity|discriminate|].
  intros H. rewrite (IH H). reflexivity.
Qed.

Lemma strip_chars s c : In c (chars (PyStr.strip s)) -> In c (chars s).
Proof.
  unfold PyStr.strip. intros H.
  destruct (lstrip_suffix s) as [a Ha].
  destruct (rstrip_prefix (PyStr.lstrip s)) as [b Hb].
  rewrite Ha, chars_append. apply in_or_app. right.
  rewrite Hb, chars_append. apply in_or_app. left. exact H.
Qed.

Lemma tidy_chars content c : In c (chars (tidy content)) -> In c (chars content).
Proof.
  unfold tidy. intros H. apply strip_chars in H.
  apply (deleted_chars _ _ _ _ (replace_del_deleted _ _)) in H.
  apply (deleted_chars _ _ _ _ (replace_del_deleted _ _)) in H.
  exact (gaps_chars _ _ _ _ (finditer_scan content) H).
Qed.

(** *** [strip] leaves nothing to strip *)

Lemma rstrip_rstrip s : PyStr.rstrip (PyStr.rstrip s) = PyStr.rstrip s.
Proof.
  induction s as [|c s IH]; [reflexivity|]. cbn [PyStr.rstrip].
  destruct (PyStr.rstrip s) as [|d r] eqn:E.
  - destruct (PyStr.is_space c) eqn:Ec; [reflexivity|].
    cbn [PyStr.rstrip]. rewrite Ec. reflexivity.
  - change (PyStr.rstrip (String c (String d r)))
      with (match PyStr.rstrip (String d r) with
            | EmptyString =>
                if PyStr.is_space c then EmptyString else String c EmptyString
            | x => String c x
            end).
    rewrite IH. reflexivity.
Qed.

Lemma lstrip_head s :
  match PyStr.lstrip s with
  | EmptyString => True
  | String c _ => PyStr.is_space c = false
  end.
Proof.
  induction s as [|c s IH]; simpl; [exact I|].
  destruct (PyStr.is_space c) eqn:E; [exact IH|exact E].
Qed.

Lemma rstrip_head c s :
  PyStr.is_space c = false ->
  exists r, PyStr.rstrip (String c s) = String c r.
Proof.
  intros H. cbn [PyStr.rstrip]. destruct (PyStr.rstrip s); rewrite ?H; eauto.
Qed.

Lemma strip_strip s : PyStr.strip (PyStr.strip s) = PyStr.strip s.
Proof.
  unfold PyStr.strip. pose proof (lstrip_head s) as H.
  destruct (PyStr.lstrip s) as [|c u]; [reflexivity|].
  destruct (rstrip_head c u H) as [r Hr]. rewrite Hr.
  cbn [PyStr.lstrip]. rewrite H, <- Hr. apply rstrip_rstrip.
Qed.

(** *** [remove_json_objects] and [extract_json_objects] *)

Lemma scan_hit inner s ps x :
  Spec.scan inner s ps -> In (Re.Hit x) ps ->
  Spec.occurs x s /\
  exists y, x = String "{" (y +:+ "}") /\ Spec.body_ok inner y = true.
Proof.
  induction 1 as [|m r ps Hm _ IH|d s ps _ _ IH]; simpl; intros Hin.
  - contradiction.
  - destruct Hin as [Hin|Hin].
    + injection Hin as <-. split; [|eauto].
      exists EmptyString, r. simpl. rewrite append_assoc. reflexivity.
    + destruct (IH Hin) as [(a & b & ->) Hy]. split; [|exact Hy].
      exists (String "{" (m +:+ String "}" a)), b. simpl.
      rewrite !append_assoc. reflexivity.
  - destruct Hin as [Hin|Hin]; [discriminate|].
    destruct (IH Hin) as [(a & b & ->) Hy]. split; [|exact Hy].
    exists (String d a), b. reflexivity.
Qed.

Lemma body_ok_same_line y :
  Spec.body_ok Spec.same_line y = true ->
  forallb Spec.same_line (list_ascii_of_string y) = true.
Proof.
  induction y as [|c y IH]; simpl; [reflexivity|]. intros H.
  apply andb_prop in H as [H Hy]. apply andb_prop in H as [-> _].
  simpl. auto.
Qed.

(** The closing braces of a text are those of its matches, one each,
    and those outside the matches. *)
Lemma scan_closings inner s ps :
  Spec.scan inner s ps ->
  Spec.closings s = length (Re.hits ps) + Spec.closings (Re.gaps ps).
Proof.
  induction 1 as [|m r ps Hm _ IH|d s ps _ _ IH]; simpl; [reflexivity| |].
  - rewrite closings_append, (body_ok_closings _ _ Hm). simpl. lia.
  - rewrite IH. lia.
Qed.

(** What the loop returns, when it returns. *)
Lemma valid_jsons_value ps xs :
  valid_jsons ps = Value xs -> xs = List.filter Spec.is_valid_json ps.
Proof.
  revert xs. induction ps as [|p ps IH]; intros xs; simpl.
  - intros H. injection H as <-. reflexivity.
  - unfold Spec.is_valid_json at 1.
    destruct (json_loads p) as [v|e].
    + destruct (valid_jsons ps) as [l|e]; [|discriminate].
      intros H. injection H as <-. f_equal. apply IH. reflexivity.
    + destruct (isinstance e JSONDecodeError); [apply IH|discriminate].
Qed.

Lemma valid_jsons_In x ps xs :
  valid_jsons ps = Value xs ->
  In x xs <-> In x ps /\ Spec.is_valid_json x = true.
Proof. intros H. rewrite (valid_jsons_value _ _ H). apply List.filter_In. Qed.

Lemma valid_jsons_length ps xs :
  valid_jsons ps = Value xs -> length xs <= length ps.
Proof.
  intros H. rewrite (valid_jsons_value _ _ H). apply List.filter_length_le.
Qed.

(** X7.  Whatever [extract_json_objects] returns is a part of the
    text, stands in braces on one line with no closing brace before its
    last character, and is text [json.loads] reads; and the text has at
    least as many closing braces as objects are returned. *)
Theorem X7_extracted_objects (text x : string) (xs : list string) :
  extract_json_objects text = Value xs ->
  In x xs ->
  Spec.occurs x text /\
  Spec.one_line_braced x /\
  Spec.closings x = 1 /\
  (exists v, json_loads x = Value v) /\
  length xs <= Spec.closings text.
Proof.
  unfold extract_json_objects, Re.findall. intros Hxs H.
  apply (valid_jsons_In _ _ _ Hxs) in H as [H Hv]. apply In_hits in H.
  pose proof (finditer_scan text) as Hs.
  destruct (scan_hit _ _ _ _ Hs H) as [Ho (y & -> & Hy)].
  split; [exact Ho|]. split.
  { exists y. split; [reflexivity|]. apply body_ok_same_line, Hy. }
  split; [exact (scan_hit_closings _ _ _ _ Hs H)|]. split.
  { unfold Spec.is_valid_json in Hv.
    destruct (json_loads _) as [v|e]; [eauto|discriminate]. }
  pose proof (valid_jsons_length _ _ Hxs).
  pose proof (scan_closings _ _ _ Hs). lia.
Qed.

(** X8.  [remove_json_objects] leaves nothing to remove: in its result
    [extract_json_objects] finds no object, and removing again changes
    nothing. *)
Theorem X8_remove_json_objects_idempotent (text : string) :
  extract_json_objects (remove_json_objects text) = Value [] /\
  remove_json_objects (remove_json_objects text) = remove_json_objects text.
Proof.
  pose proof (proj1 (clean_finditer (remove_json_objects text))
                (proj1 (clean_sub_empty text))) as H.
  split.
  - unfold extract_json_objects. rewrite H. reflexivity.
  - unfold remove_json_objects at 1. unfold Re.sub_empty.
    apply (gaps_no_hits _ _ _ (finditer_scan _)). exact H.
Qed.

(** The content [query] returns, from the content of the message it
    processed. *)
Lemma query_returns_tidy fuel ui loc ex n st sc m st' :
  query fuel ui loc ex n st = (Ret (sc, m), st') ->
  exists c, content m = Some (tidy (PyStr.remove_char "\" c)).
Proof.
  destruct fuel as [|f]; [discriminate|]. rewrite query_eq.
  destruct (fst (function_specs st)) as [fs|e|]; try discriminate.
  cbv zeta. destruct (chat_completions_create _ _) as [[ch|e] w];
    [|discriminate].
  destruct (String.eqb _ _); intros H.
  - apply bind_inv in H as [(m1 & st2 & _ & H)|[(e & _ & ?)|[_ ?]]];
      try discriminate.
    apply postprocess_inv in H as (c & sc0 & c' & _ & Hr & H).
    apply run_directives_content in Hr as ->.
    injection H as _ ->. eauto.
  - apply postprocess_inv in H as (c & sc0 & c' & _ & Hr & H).
    apply run_directives_content in Hr as ->.
    injection H as _ ->. eauto.
Qed.

(** X6.  Every message [query] returns, directly or out of the
    recursion, has a content, and this content has no white space at
    either end, no backslash, no part in braces on one line, and hence
    nothing [extract_json_objects] would find. *)
Theorem X6_returned_content_is_tidy (fuel : nat) (ui : conversation_input)
  (loc : nat) (ex : list exposed_entity) (n : Z) (st st' : state W)
  (sc : list dict) (m : chat_message) :
  query fuel ui loc ex n st = (Ret (sc, m), st') ->
  exists t,
    content m = Some t /\
    PyStr.strip t = t /\
    ~ In "\"%char (list_ascii_of_string t) /\
    (forall x, Spec.one_line_braced x -> ~ Spec.occurs x t) /\
    extract_json_objects t = Value [].
Proof.
  intros H. apply query_returns_tidy in H as (c & Hc).
  exists (tidy (PyStr.remove_char "\" c)). split; [exact Hc|].
  split; [apply strip_strip|]. split.
  { intros Hin. apply tidy_chars in Hin.
    exact (remove_char_chars _ _ Hin). }
  split.
  { intros x Hx. apply clean_no_braced; [|exact Hx]. apply clean_tidy. }
  unfold extract_json_objects.
  rewrite (proj1 (clean_finditer _) (clean_tidy _)). reflexivity.
Qed.

End TextFacts.

(** ** The directives that are not carried out *)

Section MalformedFacts.

Context {W : Type} {host : Host W}.

(** The service string has no dot. *)
Definition no_dot (s : string) : bool :=
  forallb (fun c => negb (Ascii.eqb c ".")) (list_ascii_of_string s).

Lemma split_aux_no_sep sep cur s :
  forallb (fun c => negb (Ascii.eqb c sep)) (list_ascii_of_string s) = true ->
  PyStr.split_aux sep cur s = [cur s].
Proof.
  revert cur. induction s as [|c s IH]; intros cur; simpl; [reflexivity|].
  intros H. apply andb_prop in H as [Hc Hs].
  destruct (Ascii.eqb c sep); [discriminate|]. rewrite IH by exact Hs.
  reflexivity.
Qed.

Lemma split_no_dot s : no_dot s = true -> PyStr.split "." s = [s].
Proof. intros H. exact (split_aux_no_sep "." (fun r => r) s H). Qed.

(** X9.  A directive that [json.loads] reads as an object but that does
    not name a service never reaches the host: without the key
    [service] it raises [KeyError], with a service that is no string
    [AttributeError], with a service without a dot (other than [script]
    itself) and some other key [IndexError], each before any host call
    and with nothing changed; with the empty service string it is
    passed over. *)
Theorem X9_malformed_directive (segment : string) (d : dict)
  (st : state W) :
  json_loads segment = Value (JObj d) ->
  (Dict.get "service" d = None ->
   call_service segment st = (Raise (Exn KeyError "service"), st)) /\
  (forall v, Dict.get "service" d = Some v ->
             (forall s, v <> JStr s) ->
             call_service segment st =
             (Raise (Exn AttributeError "split"), st)) /\
  (forall s, Dict.get "service" d = Some (JStr s) ->
             no_dot s = true -> s <> "" -> s <> "script" ->
             Dict.del "service" d <> [] ->
             call_service segment st =
             (Raise (Exn IndexError "list index out of range"), st)) /\
  (Dict.get "service" d = Some (JStr "") ->
   call_service segment st = (Ret None, st)).
Proof.
  intros Hj. unfold call_service. rewrite run_bind, Hj. cbn [of_answer ret].
  unfold Dict.pop. repeat split.
  - intros ->. reflexivity.
  - intros v -> Hv. destruct v; try reflexivity. destruct (Hv s eq_refl).
  - intros s -> Hs Hne Hscript Hrest. rewrite (split_no_dot s Hs). cbn [hd].
    destruct (String.eqb_spec s "script") as [->|_]; [contradiction|].
    destruct (String.eqb_spec s "") as [->|_]; [contradiction|].
    destruct (Dict.del "service" d); [contradiction|].
    cbn [orb Nat.eqb length]. rewrite (split_no_dot s Hs). reflexivity.
  - intros ->. reflexivity.
Qed.

End MalformedFacts.

(** ** The configured functions and the exposed entities *)

Section ConfigFacts.

Context {W : Type} {host : Host W}.

(** What [get_functions] loads: the option [functions] read by
    [yaml.safe_load] when it is set and not empty, the default
    otherwise. *)
Definition loaded_functions (st : state W) : answer json :=
  match functions (options st) with
  | Some (String c s) => yaml_safe_load (String c s)
  | _ => Value DEFAULT_CONF_FUNCTIONS
  end.

(** What the handlers of [get_functions] make of an exception. *)
Definition passed_on (e : exn) : exn :=
  if isinstance e InvalidFunction || isinstance e FunctionNotFound
  then e else Exn FunctionLoadFailed "".

(** The function of a setting and its type: [setting["function"]] and
    [setting["function"]["type"]] of a dictionary that has them. *)
Definition typed_function (s : json) : option (dict * json * json) :=
  match s with
  | JObj d =>
      match Dict.get "function" d with
      | Some (JObj f) =>
          match Dict.get "type" f with
          | Some type => Some (d, JObj f, type)
          | None => None
          end
      | _ => None
      end
  | _ => None
  end.

(** The setting [s] is converted to [s']: the executor of its type
    makes arguments of its function, which take the function's place. *)
Definition converted (s s' : json) : Prop :=
  exists d f type function_executor arguments,
    typed_function s = Some (d, f, type) /\
    get_function_executor type = Value function_executor /\
    to_arguments function_executor f = Value arguments /\
    s' = JObj (Dict.set "function" arguments d).

(** The conversion of the setting [s] raises [e]: there is no executor
    of its type, or the executor refuses its function. *)
Definition refused (s : json) (e : exn) : Prop :=
  exists d f type,
    typed_function s = Some (d, f, type) /\
    (get_function_executor type = Throws e \/
     exists function_executor,
       get_function_executor type = Value function_executor /\
       to_arguments function_executor f = Throws e).

(** The body of the loop of [get_functions]. *)
Definition convert (setting : json) : M W json :=
  function ← subscript setting "function";
  type ← subscript function "type";
  function_executor ← of_answer (get_function_executor type);
  function ← of_answer (to_arguments function_executor function);
  store setting "function" function.

(** An exception of the language, which the handlers turn into
    [FunctionLoadFailed]. *)
Definition plain (e : exn) : Prop :=
  exn_cls e = KeyError \/ exn_cls e = TypeError.

Lemma plain_passed_on e : plain e -> passed_on e = Exn FunctionLoadFailed "".
Proof.
  intros [H|H]; unfold passed_on, isinstance; rewrite H; reflexivity.
Qed.

Lemma convert_converted s s' (st : state W) :
  converted s s' -> convert s st = (Ret s', st).
Proof.
  intros (d & f & type & fe & a & Ht & Hfe & Ha & ->).
  unfold typed_function in Ht.
  destruct s as [| | | | |d0]; try discriminate.
  destruct (Dict.get "function" d0) as [f0|] eqn:Hf; [|discriminate].
  destruct f0 as [| | | | |fd]; try discriminate.
  destruct (Dict.get "type" fd) as [t|] eqn:Hty; [|discriminate].
  injection Ht as <- <- <-.
  unfold convert. rewrite run_bind. cbn [subscript]. rewrite Hf. cbn [ret].
  rewrite run_bind. cbn [subscript]. rewrite Hty. cbn [ret].
  rewrite run_bind, Hfe. cbn [of_answer ret]. rewrite run_bind, Ha.
  reflexivity.
Qed.

Lemma convert_refused s e (st : state W) :
  refused s e -> convert s st = (Raise e, st).
Proof.
  intros (d & f & type & Ht & H).
  unfold typed_function in Ht.
  destruct s as [| | | | |d0]; try discriminate.
  destruct (Dict.get "function" d0) as [f0|] eqn:Hf; [|discriminate].
  destruct f0 as [| | | | |fd]; try discriminate.
  destruct (Dict.get "type" fd) as [t|] eqn:Hty; [|discriminate].
  injection Ht as <- <- <-.
  unfold convert. rewrite run_bind. cbn [subscript]. rewrite Hf. cbn [ret].
  rewrite run_bind. cbn [subscript]. rewrite Hty. cbn [ret].
  rewrite run_bind.
  destruct H as [Hfe|(fe & Hfe & Ha)]; rewrite Hfe; [reflexivity|].
  cbn [of_answer ret]. rewrite run_bind, Ha. reflexivity.
Qed.

Lemma convert_untyped s (st : state W) :
  typed_function s = None ->
  exists e, convert s st = (Raise e, st) /\ plain e.
Proof.
  intros Ht. unfold typed_function in Ht. unfold convert, plain.
  rewrite run_bind.
  destruct s as [| | | | |d0]; try (eexists; split; [reflexivity|]; auto).
  cbn [subscript].
  destruct (Dict.get "function" d0) as [f0|] eqn:Hf;
    [|eexists; split; [reflexivity|]; auto].
  cbn [ret]. rewrite run_bind.
  destruct f0 as [| | | | |fd]; try (eexists; split; [reflexivity|]; auto).
  cbn [subscript].
  destruct (Dict.get "type" fd) as [t|] eqn:Hty; [discriminate|].
  eexists; split; [reflexivity|]; auto.
Qed.

Lemma mapM_converted l l' (st : state W) :
  Forall2 converted l l' -> mapM convert l st = (Ret l', st).
Proof.
  induction 1 as [|s s' l l' Hs _ IH]; cbn [mapM]; [reflexivity|].
  rewrite run_bind, (convert_converted _ _ _ Hs), run_bind, IH.
  reflexivity.
Qed.

Lemma mapM_raises before before' s after e (st : state W) :
  Forall2 converted before before' ->
  convert s st = (Raise e, st) ->
  mapM convert (before ++ s :: after) st = (Raise e, st).
Proof.
  intros Hb Hs. induction Hb as [|b b' l l' Hc _ IH]; cbn [mapM app].
  - rewrite run_bind, Hs. reflexivity.
  - rewrite run_bind, (convert_converted _ _ _ Hc), run_bind, IH.
    reflexivity.
Qed.

(** A true value that is no list makes the loop raise at once. *)
Lemma no_list_raises result (st : state W) :
  truthy result = true ->
  (forall l, result <> JArr l) ->
  exists e, (iterate result ≫= mapM convert) st = (Raise e, st) /\ plain e.
Proof.
  intros Ht Hl. rewrite run_bind. unfold plain.
  destruct result as [|b|lit|s|xs|d];
    try (eexists; split; [reflexivity|]; auto).
  - destruct s as [|c s]; [discriminate|].
    eexists; split; [reflexivity|]; auto.
  - destruct (Hl xs eq_refl).
  - destruct d as [|[k v] d]; [discriminate|].
    eexists; split; [reflexivity|]; auto.
Qed.

(** One call of [get_functions]. *)
Lemma get_functions_run (st : state W) :
  get_functions st =
  match loaded_functions st with
  | Throws e => (Raise (passed_on e), st)
  | Value result =>
      if truthy result then
        match (iterate result ≫= mapM convert) st with
        | (Ret settings, _) => (Ret (JArr settings), st)
        | (Raise e, _) => (Raise (passed_on e), st)
        | (Timeout, _) => (Timeout, st)
        end
      else (Ret result, st)
  end.
Proof.
  unfold get_functions. rewrite run_bind. unfold attempt.
  rewrite run_bind. cbn [the_options]. rewrite run_bind.
  assert ((if truthy_str (functions (options st))
           then of_answer (yaml_safe_load (default "" (functions (options st))))
           else ret DEFAULT_CONF_FUNCTIONS) st =
          (match loaded_functions st with
           | Value l => Ret l
           | Throws e => Raise e
           end, st))
    as ->.
  { unfold loaded_functions. destruct (functions (options st)) as [[|c s]|];
      try reflexivity.
    simpl. destruct (yaml_safe_load (String c s)); reflexivity. }
  assert (forall e, (if isinstance e InvalidFunction
                        || isinstance e FunctionNotFound
                     then reraise e else raise FunctionLoadFailed "") st
                    = (Raise (passed_on e) : res json, st)) as Hh.
  { intros e. unfold passed_on.
    destruct (isinstance e InvalidFunction || isinstance e FunctionNotFound);
      reflexivity. }
  destruct (loaded_functions st) as [result|e]; [|apply Hh].
  destruct (truthy result); [|reflexivity].
  change (fun setting : json => _) with convert.
  assert (pure (iterate result ≫= mapM convert)) as Hp.
  { apply pure_bind; [apply pure_iterate|]. intros l. apply pure_mapM.
    intros s. unfold convert.
    apply pure_bind; [apply pure_subscript|]. intros f.
    apply pure_bind; [apply pure_subscript|]. intros t.
    apply pure_bind; [apply pure_of_answer|]. intros fe.
    apply pure_bind; [apply pure_of_answer|]. intros a. apply pure_store. }
  destruct (Hp st) as (Hs & _).
  rewrite !run_bind. rewrite run_bind in Hs.
  destruct (iterate result st) as [[l|e|] st1]; cbn [snd] in *.
  - rewrite run_bind. destruct (mapM convert l st1) as [[l'|e|] st2];
      cbn [snd] in Hs; subst st2; [reflexivity|apply Hh|reflexivity].
  - subst st1. apply Hh.
  - subst st1. reflexivity.
Qed.

(** X3.  [get_functions] changes nothing.  It loads the option
    [functions] with [yaml.safe_load] when the option is set and not
    empty, and the default functions otherwise.  A false value that was
    loaded ([None], an empty list) is returned as it is.  A list of
    settings is gone through in order: each setting that has a function
    with a type is converted in its place by the executor of that type,
    and the list of the converted settings is returned.  An exception
    of [yaml.safe_load], of the search for the executor or of the
    conversion is passed on as it is when it is an [InvalidFunction] or
    a [FunctionNotFound], and raised as [FunctionLoadFailed] otherwise;
    a setting without a function or a type, and a true value that is no
    list, give [FunctionLoadFailed] too. *)
Theorem X3_get_functions_outcome (st : state W) :
  snd (get_functions st) = st /\
  match loaded_functions st with
  | Throws e => fst (get_functions st) = Raise (passed_on e)
  | Value result =>
      if truthy result then
        match result with
        | JArr settings =>
            (forall settings',
                Forall2 converted settings settings' ->
                fst (get_functions st) = Ret (JArr settings')) /\
            (forall before before' s after e,
                settings = before ++ s :: after ->
                Forall2 converted before before' ->
                refused s e ->
                fst (get_functions st) = Raise (passed_on e)) /\
            (forall before before' s after,
                settings = before ++ s :: after ->
                Forall2 converted before before' ->
                typed_function s = None ->
                fst (get_functions st) = Raise (Exn FunctionLoadFailed ""))
        | _ => fst (get_functions st) = Raise (Exn FunctionLoadFailed "")
        end
      else fst (get_functions st) = Ret result
  end.
Proof.
  split; [apply pure_get_functions|].
  rewrite get_functions_run.
  destruct (loaded_functions st) as [result|e]; [|reflexivity].
  destruct (truthy result) eqn:Ht; [|reflexivity].
  assert ((forall l, result <> JArr l) ->
          fst (match (iterate result ≫= mapM convert) st with
               | (Ret settings, _) => (Ret (JArr settings), st)
               | (Raise e, _) => (Raise (passed_on e), st)
               | (Timeout, _) => (Timeout, st)
               end) = Raise (Exn FunctionLoadFailed "")) as Hno.
  { intros Hl. destruct (no_list_raises result st Ht Hl) as (e & -> & He).
    cbn [fst]. rewrite (plain_passed_on _ He). reflexivity. }
  destruct result as [|b|lit|s|settings|d];
    try (apply Hno; intros l; discriminate).
  split; [|split].
  - intros settings' Hc. rewrite run_bind. cbn [iterate ret].
    rewrite (mapM_converted _ _ _ Hc). reflexivity.
  - intros before before' s after e -> Hb Hs. rewrite run_bind.
    cbn [iterate ret].
    rewrite (mapM_raises _ _ _ _ _ _ Hb (convert_refused _ _ st Hs)).
    reflexivity.
  - intros before before' s after -> Hb Hs. rewrite run_bind.
    cbn [iterate ret].
    destruct (convert_untyped s st Hs) as (e & He & Hp).
    rewrite (mapM_raises _ _ _ _ _ _ Hb He). cbn [fst].
    rewrite (plain_passed_on _ Hp). reflexivity.
Qed.

(** The loop of [get_exposed_entities] over the states [l]. *)
Definition exposed_entity_of (w : W) (s : hass_state)
  : M W exposed_entity :=
  let entity_id := state_entity_id s in
  let aliases :=
    match entity_registry_aliases w entity_id with
    | Some (a :: al) => a :: al
    | _ => []
    end in
  match states_get w entity_id with
  | Some s' =>
      ret {| entity_id := entity_id; entity_name := state_name s;
             entity_state := state_state s'; aliases := aliases |}
  | None => raise AttributeError "state"
  end.

Lemma exposed_loop (w : W) (l : list hass_state) (st : state W) :
  snd (mapM (exposed_entity_of w) l st) = st /\
  match fst (mapM (exposed_entity_of w) l st) with
  | Ret ex =>
      map entity_id ex = map state_entity_id l /\
      map entity_name ex = map state_name l /\
      Forall2 (fun s e => option_map state_state (states_get w (state_entity_id s))
                          = Some (entity_state e)) l ex
  | Raise e =>
      e = Exn AttributeError "state" /\
      Exists (fun s => states_get w (state_entity_id s) = None) l
  | Timeout => False
  end.
Proof.
  induction l as [|s l [IH1 IH2]]; cbn [mapM].
  - cbn. auto.
  - rewrite run_bind. unfold exposed_entity_of at 1 3.
    destruct (states_get w (state_entity_id s)) as [s'|] eqn:E; cbn [ret raise].
    + rewrite run_bind.
      destruct (mapM (exposed_entity_of w) l st) as [[ex|e|] st1];
        cbn [fst snd] in *; subst st1.
      * split; [reflexivity|]. cbn [fst ret map entity_id entity_name].
        destruct IH2 as (-> & -> & H). repeat split.
        constructor; [rewrite E; reflexivity|exact H].
      * split; [reflexivity|]. destruct IH2 as [-> H]. split; [reflexivity|].
        apply Exists_cons_tl, H.
      * contradiction.
    + cbn. split; [reflexivity|]. split; [reflexivity|].
      apply Exists_cons_hd, E.
Qed.

End ConfigFacts.

(** ** The shape of the trace of a turn *)

Section TraceFacts.

Context {W : Type} {host : Host W}.

(** Whatever its outcome, [m] adds to the trace events [evs] with
    [Q evs]. *)
Definition traces (Q : list event -> Prop) {A} (m : M W A) : Prop :=
  forall st, exists evs, trace (snd (m st)) = trace st ++ evs /\ Q evs.

(** [m] adds nothing to the trace. *)
Definition silent {A} (m : M W A) : Prop :=
  forall st, trace (snd (m st)) = trace st.

Lemma silent_emits {A} (m : M W A) : emits (fun _ => False) m -> silent m.
Proof.
  intros H st. destruct (H st I) as [[_ (evs & Ht & Hf & _)] _].
  destruct evs as [|ev evs]; [rewrite Ht; apply app_nil_r|].
  inversion Hf; contradiction.
Qed.

Lemma silent_pure {A} (m : M W A) : pure m -> silent m.
Proof. intros H. apply silent_emits, emits_pure, H. Qed.

Lemma silent_bind {A B} (m : M W A) (k : A -> M W B) :
  silent m -> (forall a, silent (k a)) -> silent (m ≫= k).
Proof.
  intros Hm Hk st. rewrite run_bind. specialize (Hm st).
  destruct (m st) as [[a|e|] st1]; cbn [snd] in *; [|assumption..].
  rewrite Hk. exact Hm.
Qed.

Lemma traces_weaken (Q Q' : list event -> Prop) {A} (m : M W A) :
  (forall evs, Q evs -> Q' evs) -> traces Q m -> traces Q' m.
Proof. intros HQ Hm st. destruct (Hm st) as (evs & Ht & H). eauto. Qed.

Lemma traces_silent (Q : list event -> Prop) {A} (m : M W A) :
  silent m -> Q [] -> traces Q m.
Proof. intros Hm HQ st. exists []. rewrite app_nil_r. auto. Qed.

Lemma traces_emits (φ : event -> Prop) {A} (m : M W A) :
  emits φ m -> traces (Forall φ) m.
Proof.
  intros H st. destruct (H st I) as [[_ (evs & Ht & Hf & _)] _]. eauto.
Qed.

Lemma traces_bind (Q1 Q2 Q : list event -> Prop) {A B} (m : M W A)
  (k : A -> M W B) :
  traces Q1 m -> (forall a, traces Q2 (k a)) ->
  (forall e1, Q1 e1 -> Q e1) ->
  (forall e1 e2, Q1 e1 -> Q2 e2 -> Q (e1 ++ e2)) ->
  traces Q (m ≫= k).
Proof.
  intros Hm Hk H1 H12 st. rewrite run_bind.
  destruct (Hm st) as (e1 & Ht1 & He1).
  destruct (m st) as [[a|e|] st1]; cbn [snd] in *; [|eauto..].
  destruct (Hk a st1) as (e2 & Ht2 & He2).
  exists (e1 ++ e2). rewrite Ht2, Ht1, app_assoc. auto.
Qed.

Lemma traces_silent_l (Q : list event -> Prop) {A B} (m : M W A)
  (k : A -> M W B) :
  silent m -> Q [] -> (forall a, traces Q (k a)) -> traces Q (m ≫= k).
Proof.
  intros Hm HQ Hk.
  apply (traces_bind (fun evs => evs = []) Q Q);
    [apply traces_silent; auto|exact Hk| |]; intros; subst; auto.
Qed.

Lemma traces_silent_r (Q : list event -> Prop) {A B} (m : M W A)
  (k : A -> M W B) :
  traces Q m -> (forall a, silent (k a)) -> traces Q (m ≫= k).
Proof.
  intros Hm Hk.
  apply (traces_bind Q (fun evs => evs = []) Q);
    [exact Hm|intros; apply traces_silent; auto|auto|].
  intros e1 e2 H ->. rewrite app_nil_r. exact H.
Qed.

Lemma traces_log (Q : list event -> Prop) e {B} (k : unit -> M W B) :
  traces (fun evs => Q (e :: evs)) (k tt) -> traces Q (log e ≫= k).
Proof.
  intros Hk st. rewrite run_bind. cbn [log].
  destruct (Hk (add_event e st)) as (evs & Ht & H).
  exists (e :: evs). split; [|exact H].
  rewrite Ht. cbn [trace add_event]. rewrite <- app_assoc. reflexivity.
Qed.

Lemma traces_attempt (Q : list event -> Prop) {A} (m : M W A) :
  traces Q m -> traces Q (attempt m).
Proof.
  intros Hm st. unfold attempt. specialize (Hm st).
  destruct (m st) as [[a|e|] st1]; exact Hm.
Qed.

Lemma silent_state {A} (f : state W -> A) (g : state W -> state W) :
  (forall st, trace (g st) = trace st) ->
  silent (fun st => (Ret (f st), g st)).
Proof. intros H st. apply H. Qed.

Lemma silent_call_host {A} (op : W -> answer A * W) : silent (call_host op).
Proof. apply silent_emits, emits_call_host. Qed.

Lemma silent_read_list loc : silent (read_list (W := W) loc).
Proof. intros st. reflexivity. Qed.

Lemma silent_list_append loc m : silent (list_append (W := W) loc m).
Proof. intros st. reflexivity. Qed.

Ltac silent_match :=
  match goal with
  | |- silent (match ?o with _ => _ end) =>
      destruct o; intros ?st; reflexivity
  end.

(** *** The request counters *)

(** The counters of the requests of a stretch of the trace. *)
Definition counters (evs : list event) : list Z :=
  flat_map (fun ev => match ev with EvChat k _ => [k] | _ => [] end) evs.

(** The requests of [evs] count up from [n], one by one, and between two
    of them a function call is dispatched. *)
Definition counted (n : Z) (evs : list event) : Prop :=
  counters evs =
    map (fun i => (n + Z.of_nat i)%Z) (seq 0 (Spec.requests evs)) /\
  Spec.requests evs <= Spec.dispatches evs + 1 /\
  Spec.dispatches evs <= Spec.requests evs.

Lemma counted_nil n : counted n [].
Proof. unfold counted, Spec.requests, Spec.dispatches. simpl. split; [auto|lia]. Qed.

Lemma counters_app e1 e2 : counters (e1 ++ e2) = counters e1 ++ counters e2.
Proof. unfold counters. rewrite !flat_map_concat_map, map_app, concat_app. reflexivity. Qed.

Lemma counters_services evs : Forall is_service evs -> counters evs = [].
Proof.
  induction 1 as [|ev evs Hev _ IH]; [reflexivity|].
  destruct ev; try discriminate. exact IH.
Qed.

Lemma counted_services n evs s :
  counted n evs -> Forall is_service s -> counted n (evs ++ s).
Proof.
  intros (Hc & Hr & Hd) Hs.
  destruct (only_services _ Hs) as (Hr0 & _ & Hd0).
  unfold counted.
  rewrite counters_app, (counters_services _ Hs), app_nil_r, requests_app,
    dispatches_app, Hr0, Hd0, !Nat.add_0_r.
  auto.
Qed.

Lemma counted_chat n req : counted n [EvChat n req].
Proof.
  unfold counted, Spec.requests, Spec.dispatches. simpl.
  rewrite Z.add_0_r. split; [reflexivity|lia].
Qed.

Lemma counted_dispatch n req fn a inner :
  counted (n + 1) inner ->
  counted n (EvChat n req :: EvExecute fn a :: inner).
Proof.
  intros (Hc & Hr & Hd). unfold counted.
  change (counters (EvChat n req :: EvExecute fn a :: inner))
    with (n :: counters inner).
  change (Spec.requests (EvChat n req :: EvExecute fn a :: inner))
    with (S (Spec.requests inner)).
  change (Spec.dispatches (EvChat n req :: EvExecute fn a :: inner))
    with (S (Spec.dispatches inner)).
  split; [|lia]. rewrite Hc. cbn [seq map]. rewrite Z.add_0_r. f_equal.
  rewrite <- seq_shift, map_map. apply map_ext. intros i. lia.
Qed.

Lemma query_counted fuel : forall n ui loc ex,
  traces (counted n) (query fuel ui loc ex n).
Proof.
  induction fuel as [|f IH]; intros n ui loc ex.
  - apply traces_silent; [intros st; reflexivity|apply counted_nil].
  - cbn [query].
    apply traces_silent_l;
      [apply silent_pure, pure_the_options|apply counted_nil|]. intros opts.
    apply traces_silent_l;
      [apply silent_pure, pure_function_specs|apply counted_nil|]. intros fs.
    apply traces_silent_l; [apply silent_read_list|apply counted_nil|].
    intros msgs. apply traces_log.
    set (req := chat_request_for opts fs msgs n).
    apply traces_silent_l; [apply silent_call_host|apply counted_chat|].
    intros ch.
    apply (traces_bind (fun evs => counted n (EvChat n req :: evs))
             (Forall is_service)).
    + destruct (String.eqb _ _);
        [|apply traces_silent; [intros st; reflexivity|apply counted_chat]].
      unfold execute_function_call.
      apply traces_silent_l; [silent_match|apply counted_chat|].
      intros nm.
      apply traces_silent_l;
        [apply silent_pure, pure_configured_functions|apply counted_chat|].
      intros fs'.
      apply traces_silent_l;
        [apply silent_pure, pure_find_function|apply counted_chat|].
      intros [fn|];
        [|apply traces_silent; [intros st; reflexivity|apply counted_chat]].
      unfold execute_function.
      apply traces_silent_l;
        [apply silent_pure, pure_subscript|apply counted_chat|].
      intros function.
      apply traces_silent_l;
        [apply silent_pure, pure_subscript|apply counted_chat|].
      intros type.
      apply traces_silent_l;
        [apply silent_pure, pure_of_answer|apply counted_chat|].
      intros fe.
      apply traces_silent_l; [silent_match|apply counted_chat|].
      intros fc.
      apply traces_silent_l;
        [apply silent_pure, pure_arguments|apply counted_chat|].
      intros arguments. apply traces_log.
      apply traces_silent_l;
        [apply silent_call_host|apply counted_dispatch, counted_nil|].
      intros result.
      apply traces_silent_l;
        [apply silent_list_append|apply counted_dispatch, counted_nil|].
      intros _.
      apply traces_silent_r; [|intros r st; reflexivity].
      eapply traces_weaken; [|apply IH].
      intros evs. apply counted_dispatch.
    + intros m. apply traces_emits, emits_postprocess.
    + auto.
    + intros e1 e2 H1 H2.
      exact (counted_services n (EvChat n req :: e1) e2 H1 H2).
Qed.

Lemma silent_respond_tail (ui : conversation_input) (cid : option string)
  (loc : nat) (r : answer (list dict * chat_message)) :
  silent (match r with
          | Throws err =>
              if isinstance err OpenAIError then
                ret (error_result ui
                       ("Sorry, I had a problem talking to OpenAI: "
                        +:+ str_exn err) cid)
              else if isinstance err HomeAssistantError then
                ret (error_result ui
                       ("Something went wrong: " +:+ str_exn err) cid)
              else reraise err
          | Value (services_called, response) =>
              list_append loc response;;
              match cid with
              | Some c => history_store c loc
              | None => ret tt
              end;;
              speech ← (if Nat.ltb 0 (length services_called) then
                           match content response with
                           | Some c => ret (Some (c +:+ SERVICE_EXECUTED))
                           | None => raise TypeError "+"
                           end
                         else ret (content response));
              ret {| response := Speech (language ui) speech;
                     result_conversation_id := cid |}
          end : M W conversation_result).
Proof.
  destruct r as [[sc m]|err].
  - apply silent_bind; [apply silent_list_append|]. intros _.
    apply silent_bind.
    { destruct cid; intros st; reflexivity. }
    intros _. apply silent_bind; [|intros s st; reflexivity].
    destruct (Nat.ltb 0 (length sc)); [|intros st; reflexivity].
    destruct (content m); intros st; reflexivity.
  - destruct (isinstance err OpenAIError); [intros st; reflexivity|].
    destruct (isinstance err HomeAssistantError); intros st; reflexivity.
Qed.

(** What holds of the trace of every [query] started at the counter 0
    holds of the trace of the turn: nothing else of the turn adds an
    event. *)
Lemma async_process_traces (Q : list event -> Prop) fuel ui :
  Q [] ->
  (forall ui loc ex, traces Q (query fuel ui loc ex 0)) ->
  traces Q (async_process fuel ui).
Proof.
  intros HQ Hq. unfold async_process.
  apply traces_silent_l; [apply silent_pure, pure_the_options|exact HQ|].
  intros opts.
  apply traces_silent_l;
    [apply silent_emits, emits_get_exposed_entities|exact HQ|].
  intros ex.
  apply traces_silent_l;
    [apply silent_emits, emits_open_conversation|exact HQ|].
  intros [[[cid messages] ui']|result];
    [|apply traces_silent; [intros st; reflexivity|exact HQ]].
  apply traces_silent_l; [|exact HQ|].
  { destruct (attach_username opts); [|intros st; reflexivity].
    apply silent_bind; [apply silent_call_host|]. intros u st. reflexivity. }
  intros user_name.
  apply traces_silent_l; [apply silent_list_append|exact HQ|]. intros _.
  unfold respond.
  apply traces_silent_r; [apply traces_attempt, Hq|].
  intros r. apply silent_respond_tail.
Qed.

(** X5.  In every turn, whatever its outcome, the requests sent to the
    endpoint carry the counters 0, 1, 2, ... in this order, and every
    request after the first follows a function call that was dispatched:
    there is at most one request more than dispatches, and no dispatch
    without a request. *)
Theorem X5_requests_count_up (fuel : nat) (ui : conversation_input)
  (st : state W) :
  exists evs,
    trace (snd (async_process fuel ui st)) = trace st ++ evs /\
    counters evs = map Z.of_nat (seq 0 (Spec.requests evs)) /\
    Spec.requests evs <= Spec.dispatches evs + 1 /\
    Spec.dispatches evs <= Spec.requests evs.
Proof.
  destruct (async_process_traces (counted 0) fuel ui (counted_nil 0)
              (fun ui' loc ex => query_counted fuel 0 ui' loc ex) st)
    as (evs & Ht & Hc & Hr).
  exists evs. split; [exact Ht|]. split; [|exact Hr].
  rewrite Hc. apply map_ext. intros i. lia.
Qed.

(** *** The requests are built from the options *)

(** A request of a turn under the options [o]: its counter is not
    negative, its model parameters are those of the options, it carries
    [functions] and [function_call] together or neither, the functions
    are not empty, and [function_call] is "none" at the maximum and
    "auto" elsewhere. *)
Definition request_ok (o : entry_options) (ev : event) : Prop :=
  match ev with
  | EvChat k req =>
      (0 <= k)%Z /\
      req_model req = chat_model o /\
      req_max_tokens req = max_tokens o /\
      req_top_p req = top_p o /\
      req_temperature req = temperature o /\
      match req_functions req, req_function_call req with
      | None, None => True
      | Some fs, Some fc =>
          fs <> [] /\
          fc = if Z.eqb k (max_function_calls_per_conversation o)
               then "none" else "auto"
      | _, _ => False
      end
  | _ => True
  end.

Lemma chat_request_for_ok o fs msgs n :
  (0 <= n)%Z -> request_ok o (EvChat n (chat_request_for o fs msgs n)).
Proof.
  intros Hn. unfold request_ok, chat_request_for.
  destruct fs as [|s l] eqn:E; cbn; repeat split; auto;
    discriminate.
Qed.

Lemma query_requests o fuel : forall n ui loc ex,
  (0 <= n)%Z ->
  spends (fun o' => o' = o) (request_ok o) fuel False
    (query fuel ui loc ex n).
Proof.
  induction fuel as [|f IH]; intros n ui loc ex Hn.
  - intros st _. split; [apply steps_refl|]. intros [].
  - cbn [query]. apply spends_the_options. intros o' ->.
    eapply spends_weaken with (I := fun o' => o' = o) (φ := request_ok o)
                              (b := S f) (T := False); auto.
    apply spends_bind_l; [apply emits_pure, pure_function_specs|]. intros fs.
    apply spends_bind_l; [apply emits_read_list|]. intros msgs.
    apply spends_bind_l.
    { apply emits_log; [|reflexivity]. apply chat_request_for_ok, Hn. }
    intros _. apply spends_call_host. intros ch w w' Hch.
    apply spends_bind_r.
    + destruct (String.eqb _ _); [|apply emits_spends, emits_pure, pure_ret].
      apply execute_function_call_spends; [intros; exact I|].
      apply IH. lia.
    + intros m. eapply spends_weaken; [| | | |apply emits_postprocess]; auto.
      intros [] H; try discriminate. exact I.
Qed.

(** X4.  Every request a turn sends, at any depth of the recursion,
    is built from the entry's options: model, [max_tokens], [top_p] and
    [temperature] are the options'; [functions] and [function_call] are
    both present, with a list that is not empty, or both left out; and
    [function_call] is "none" exactly at the configured maximum and
    "auto" elsewhere. *)
Theorem X4_requests_follow_the_options (fuel : nat)
  (ui : conversation_input) (st : state W) :
  exists evs,
    trace (snd (async_process fuel ui st)) = trace st ++ evs /\
    Forall (request_ok (options st)) evs.
Proof.
  assert (spends (fun o' => o' = options st) (request_ok (options st))
            fuel False (async_process fuel ui)) as H.
  { apply async_process_spends. intros ui' loc ex.
    apply query_requests. lia. }
  destruct (H st eq_refl) as [[_ (evs & Ht & Hf & _)] _]. eauto.
Qed.

(** *** The host calls of the directives *)

(** At most [k] events, all of them host service calls. *)
Definition service_calls (k : nat) (evs : list event) : Prop :=
  Forall is_service evs /\ length evs <= k.

Lemma service_calls_nil k : service_calls k [].
Proof. split; [constructor|simpl; lia]. Qed.

Lemma traces_call_service segment :
  traces (service_calls 1) (call_service segment).
Proof.
  unfold call_service.
  apply traces_silent_l;
    [apply silent_pure, pure_of_answer|apply service_calls_nil|].
  intros [| | | | |d];
    try (apply traces_silent; [intros st; reflexivity|apply service_calls_nil]).
  destruct (Dict.pop "service" d) as [[v rest]|];
    [|apply traces_silent; [intros st; reflexivity|apply service_calls_nil]].
  destruct v;
    try (apply traces_silent; [intros st; reflexivity|apply service_calls_nil]).
  destruct (if String.eqb _ _ then _ else _) as [service service_call].
  destruct (_ || _);
    [apply traces_silent; [intros st; reflexivity|apply service_calls_nil]|].
  destruct (nth_error _ _);
    [|apply traces_silent; [intros st; reflexivity|apply service_calls_nil]].
  apply traces_log. apply traces_silent.
  - apply silent_bind; [apply silent_call_host|]. intros _ st. reflexivity.
  - split; [repeat constructor|simpl; lia].
Qed.

Lemma traces_service_loop segments failed called :
  traces (service_calls (length segments))
    (service_loop segments failed called).
Proof.
  revert failed called.
  induction segments as [|segment rest IH]; intros failed called;
    cbn [service_loop].
  - apply traces_silent; [intros st; reflexivity|apply service_calls_nil].
  - apply (traces_bind (service_calls 1) (service_calls (length rest))).
    + apply traces_attempt, traces_call_service.
    + intros [[sc|]|e]; try apply IH.
      destruct (isinstance e Exception);
        [|apply traces_silent; [intros st; reflexivity|apply service_calls_nil]].
      apply traces_silent_l; [|apply service_calls_nil|intros; apply IH].
      unfold on_service_error. intros st. reflexivity.
    + intros e1 [H1 H2]. split; [exact H1|]. simpl. lia.
    + intros e1 e2 [H1 H2] [H3 H4]. split; [apply Forall_app; auto|].
      rewrite length_app. simpl. lia.
Qed.

(** X10.  Whatever the outcome, the host services [query] calls for a
    message are at most one for each object [extract_json_objects]
    finds in its content (the backslashes removed), none when
    [extract_json_objects] raises, and none at all when the content
    does not hold the sentinel [$ActionRequired]; a message without
    content raises [AttributeError] before anything is done. *)
Theorem X10_at_most_one_call_per_object (message : chat_message)
  (st : state W) :
  match content message with
  | Some c =>
      let content1 := PyStr.remove_char "\" c in
      exists evs,
        trace (snd (postprocess message st)) = trace st ++ evs /\
        Forall (fun ev => Spec.is_service ev = true) evs /\
        match extract_json_objects content1 with
        | Value objects => length evs <= length objects
        | Throws _ => evs = []
        end /\
        (PyStr.contains SENTINEL content1 = false -> evs = [])
  | None =>
      postprocess message st = (Raise (Exn AttributeError "replace"), st)
  end.
Proof.
  unfold postprocess. rewrite run_bind.
  destruct (content message) as [c|]; [|reflexivity].
  cbn [ret]. cbv zeta. set (content1 := PyStr.remove_char "\" c).
  rewrite run_bind.
  assert (exists evs,
             trace (snd (run_directives content1 st)) = trace st ++ evs /\
             Forall (fun ev => Spec.is_service ev = true) evs /\
             match extract_json_objects content1 with
             | Value objects => length evs <= length objects
             | Throws _ => evs = []
             end /\
             (PyStr.contains SENTINEL content1 = false -> evs = []))
    as (evs & Ht & H).
  { unfold run_directives.
    destruct (PyStr.contains SENTINEL content1).
    - rewrite run_bind.
      destruct (extract_json_objects content1) as [objects|e];
        cbn [of_answer ret reraise].
      + rewrite run_bind.
        destruct (traces_service_loop objects false [] st)
          as (evs & Ht & Hf & Hl).
        exists evs.
        split; [|split; [exact Hf|split; [exact Hl|discriminate]]].
        destruct (service_loop _ _ _ st) as [[[flag sc]|e|] st1]; exact Ht.
      + exists []. rewrite app_nil_r. repeat split; auto.
    - exists []. rewrite app_nil_r. repeat split; auto.
      destruct (extract_json_objects content1); simpl; [lia|reflexivity]. }
  exists evs. split; [|exact H].
  destruct (run_directives content1 st) as [[r|e|] st1]; exact Ht.
Qed.

End TraceFacts.

(** ** The lists of messages and the history *)

Section HeapFacts.

Context {W : Type} {host : Host W}.

(** From [st] to [st'] the list at [loc] got [sfx] appended, and the
    other lists, the history and the options are the same. *)
Definition appends (loc : nat) (sfx : list chat_message) (st st' : state W)
  : Prop :=
  history st' = history st /\ options st' = options st /\
  heap st' = alter (fun l => l ++ sfx) loc (heap st).

Lemma appends_nil loc (st st' : state W) :
  history st' = history st -> options st' = options st ->
  heap st' = heap st -> appends loc [] st st'.
Proof.
  intros Hh Ho Hp. repeat split; [assumption..|].
  rewrite Hp. symmetry. apply list_alter_id. intros l. apply app_nil_r.
Qed.

Lemma appends_trans loc s1 s2 (st1 st2 st3 : state W) :
  appends loc s1 st1 st2 -> appends loc s2 st2 st3 ->
  appends loc (s1 ++ s2) st1 st3.
Proof.
  intros (Hh1 & Ho1 & Hp1) (Hh2 & Ho2 & Hp2).
  split; [congruence|]. split; [congruence|].
  rewrite Hp2, Hp1, list_alter_alter_eq. apply list_alter_ext; [|reflexivity].
  intros l _. simpl. symmetry. apply app_assoc.
Qed.

(** [m] leaves the lists, the history and the options alone. *)
Definition still {A} (m : M W A) : Prop :=
  forall st, history (snd (m st)) = history st /\
             options (snd (m st)) = options st /\
             heap (snd (m st)) = heap st.

Lemma still_pure {A} (m : M W A) : pure m -> still m.
Proof. intros H st. destruct (H st) as (-> & _). auto. Qed.

Lemma still_bind {A B} (m : M W A) (k : A -> M W B) :
  still m -> (forall a, still (k a)) -> still (m ≫= k).
Proof.
  intros Hm Hk st. rewrite run_bind. specialize (Hm st).
  destruct (m st) as [[a|e|] st1]; cbn [snd] in *; [|assumption..].
  destruct Hm as (Hh & Ho & Hp). destruct (Hk a st1) as (Hh' & Ho' & Hp').
  repeat split; congruence.
Qed.

Lemma still_attempt {A} (m : M W A) : still m -> still (attempt m).
Proof.
  intros Hm st. unfold attempt. specialize (Hm st).
  destruct (m st) as [[a|e|] st1]; exact Hm.
Qed.

Lemma still_call_host {A} (op : W -> answer A * W) : still (call_host op).
Proof.
  intros st. unfold call_host.
  destruct (op (world st)) as [[a|e] w]; repeat split.
Qed.

Ltac unchanged := intros ?st; solve [repeat split].

Lemma still_log e : still (log (W := W) e).
Proof. unchanged. Qed.

Ltac still_match :=
  match goal with
  | |- still (match ?o with _ => _ end) => destruct o; unchanged
  end.

Lemma still_call_service segment : still (call_service segment).
Proof.
  unfold call_service.
  apply still_bind; [apply still_pure, pure_of_answer|].
  intros [| | | | |d]; try unchanged.
  destruct (Dict.pop "service" d) as [[v rest]|]; [|unchanged].
  destruct v; try unchanged.
  destruct (if String.eqb _ _ then _ else _) as [service service_call].
  destruct (_ || _); [unchanged|].
  destruct (nth_error _ _); [|unchanged].
  apply still_bind; [apply still_log|]. intros _.
  apply still_bind; [apply still_call_host|]. intros _. unchanged.
Qed.

Lemma still_service_loop segments failed called :
  still (service_loop segments failed called).
Proof.
  revert failed called.
  induction segments as [|segment rest IH]; intros failed called;
    cbn [service_loop].
  - unchanged.
  - apply still_bind; [apply still_attempt, still_call_service|].
    intros [[sc|]|e]; try apply IH.
    destruct (isinstance e Exception); [|unchanged].
    apply still_bind; [|intros; apply IH].
    unfold on_service_error. unchanged.
Qed.

Lemma still_postprocess message : still (postprocess message).
Proof.
  unfold postprocess. apply still_bind; [still_match|].
  intros c. apply still_bind; [|intros r; unchanged].
  unfold run_directives. destruct (PyStr.contains _ _).
  - apply still_bind; [apply still_pure, pure_of_answer|]. intros segs.
    apply still_bind; [apply still_service_loop|].
    intros [flag sc]. unchanged.
  - unchanged.
Qed.

Lemma still_get_exposed_entities : still get_exposed_entities.
Proof.
  intros st. destruct (exposed_loop (world st)
    (List.filter (fun s => async_should_expose (world st) (state_entity_id s))
       (states_async_all (world st))) st) as [H _].
  unfold get_exposed_entities. rewrite run_bind. cbn [the_world].
  change (mapM _ ?l st) with (mapM (exposed_entity_of (world st)) l st).
  rewrite H. auto.
Qed.

(** [m] appends to the list at [loc] messages of [φ] only, and leaves
    the rest alone. *)
Definition adds (loc : nat) (φ : chat_message -> Prop) {A} (m : M W A)
  : Prop :=
  forall st, exists sfx, appends loc sfx st (snd (m st)) /\ Forall φ sfx.

Lemma adds_still loc φ {A} (m : M W A) : still m -> adds loc φ m.
Proof.
  intros H st. destruct (H st) as (Hh & Ho & Hp). exists [].
  split; [apply appends_nil; assumption|constructor].
Qed.

Lemma adds_bind loc φ {A B} (m : M W A) (k : A -> M W B) :
  adds loc φ m -> (forall a, adds loc φ (k a)) -> adds loc φ (m ≫= k).
Proof.
  intros Hm Hk st. rewrite run_bind. destruct (Hm st) as (s1 & H1 & Hf1).
  destruct (m st) as [[a|e|] st1]; cbn [snd] in *; [|eauto..].
  destruct (Hk a st1) as (s2 & H2 & Hf2). exists (s1 ++ s2).
  split; [eapply appends_trans; eassumption|apply Forall_app; auto].
Qed.

Lemma adds_list_append loc (φ : chat_message -> Prop) m :
  φ m -> adds loc φ (list_append loc m).
Proof.
  intros H st. exists [m]. split; [repeat split|]. repeat constructor. exact H.
Qed.

(** A message as [execute_function] adds it. *)
Definition is_function_message (m : chat_message) : Prop :=
  role m = "function" /\ content m <> None /\ name m <> None /\
  fcall m = None.

Lemma query_adds fuel : forall ui loc ex n,
  adds loc is_function_message (query fuel ui loc ex n).
Proof.
  induction fuel as [|f IH]; intros ui loc ex n.
  - apply adds_still. unchanged.
  - cbn [query].
    apply adds_bind; [apply adds_still, still_pure, pure_the_options|].
    intros opts.
    apply adds_bind; [apply adds_still, still_pure, pure_function_specs|].
    intros fs.
    apply adds_bind; [apply adds_still; unchanged|].
    intros msgs.
    apply adds_bind; [apply adds_still, still_log|]. intros _.
    apply adds_bind; [apply adds_still, still_call_host|]. intros ch.
    apply adds_bind; [|intros; apply adds_still, still_postprocess].
    destruct (String.eqb _ _); [|apply adds_still; unchanged].
    unfold execute_function_call.
    apply adds_bind; [apply adds_still; still_match|]. intros nm.
    apply adds_bind;
      [apply adds_still, still_pure, pure_configured_functions|].
    intros fs'.
    apply adds_bind; [apply adds_still, still_pure, pure_find_function|].
    intros [fn|]; [|apply adds_still; unchanged].
    unfold execute_function.
    apply adds_bind; [apply adds_still, still_pure, pure_subscript|].
    intros function.
    apply adds_bind; [apply adds_still, still_pure, pure_subscript|].
    intros type.
    apply adds_bind; [apply adds_still, still_pure, pure_of_answer|].
    intros fe.
    apply adds_bind; [apply adds_still; still_match|]. intros fc.
    apply adds_bind; [apply adds_still, still_pure, pure_arguments|].
    intros arguments.
    apply adds_bind; [apply adds_still, still_log|]. intros _.
    apply adds_bind; [apply adds_still, still_call_host|]. intros result.
    apply adds_bind.
    { apply adds_list_append. repeat split; discriminate. }
    intros _. apply adds_bind; [apply IH|].
    intros r. apply adds_still. unchanged.
Qed.

(** X11.  Whatever its outcome, [query] changes the agent's memory in
    one way only: it appends to the list it was given the messages of
    the function calls it dispatched, each with the role [function], a
    name and a content.  Every other list, the history and the options
    are as before; the message it returns is not appended. *)
Theorem X11_query_appends_function_messages (fuel : nat)
  (ui : conversation_input) (loc : nat) (ex : list exposed_entity) (n : Z)
  (st : state W) :
  exists sfx,
    heap (snd (query fuel ui loc ex n st)) =
      alter (fun l => l ++ sfx) loc (heap st) /\
    Forall (fun m => role m = "function" /\ content m <> None /\
                     name m <> None /\ fcall m = None) sfx /\
    history (snd (query fuel ui loc ex n st)) = history st /\
    options (snd (query fuel ui loc ex n st)) = options st.
Proof.
  destruct (query_adds fuel ui loc ex n st) as (sfx & (Hh & Ho & Hp) & Hf).
  exists sfx. auto.
Qed.

End HeapFacts.

(** ** What a turn remembers *)

Section TurnMemory.

Context {W : Type} {host : Host W}.

(** The list the history holds for the conversation id of the input. *)
Definition stored_list (ui : conversation_input) (st : state W)
  : option nat :=
  match conversation_id ui with
  | Some c => history st !! c
  | None => None
  end.

(** The first message of a new conversation. *)
Definition system_message_of (opts : entry_options) (u : option user)
  (p : string) : chat_message :=
  {| role := "system";
     content :=
       Some (if attach_username_to_prompt opts then
               match u with
               | Some {| user_name := Some n |} =>
                   "User's name: " +:+ n +:+ String PyStr.nl p
               | _ => p
               end
             else p);
     name := None; fcall := None |}.

(** The message of the user. *)
Definition user_message_of (ui : conversation_input) (nm : option string)
  : chat_message :=
  {| role := "user"; content := Some (text ui); name := nm; fcall := None |}.

Definition template_error_text (err : exn) : string :=
  "Sorry, I had a problem with my template: " +:+ str_exn err.

(** For a stored id, the turn works on the stored list, or with the
    option "ignore conversation id" on a new one. *)
Lemma open_conversation_stored ui ex (st : state W) loc :
  stored_list ui st = Some loc ->
  open_conversation ui ex st =
  (Ret (inl (if ignore_convoid (options st)
             then (None, length (heap st), ui)
             else (conversation_id ui, loc, ui))),
   set_heap (heap st ++ [[]]) st).
Proof.
  intros H. unfold open_conversation. rewrite run_bind. cbn [the_options].
  rewrite run_bind. cbn [new_list]. rewrite run_bind. cbn [history_lookup].
  change (match conversation_id ui with
          | Some c => history (set_heap (heap st ++ [[]]) st) !! c
          | None => None
          end) with (stored_list ui st).
  rewrite H. destruct (ignore_convoid (options st)); reflexivity.
Qed.

(** For an id that is not stored, the turn makes a new list that starts
    with the rendered prompt, under a new id unless the option "ignore
    conversation id" is set. *)
Lemma open_conversation_fresh ui ex (st : state W) :
  stored_list ui st = None ->
  open_conversation ui ex st =
  let ignore := ignore_convoid (options st) in
  let c := fst (ulid (world st)) in
  let cid := if ignore then None else Some c in
  let ui' := if ignore then ui else with_conversation_id ui c in
  let st0 := set_heap (heap st ++ [[]]) st in
  let st1 := if ignore then st0 else set_world (snd (ulid (world st))) st0 in
  let handler (err : exn) (st2 : state W) :=
    if isinstance err TemplateError
    then (Ret (inr (error_result ui' (template_error_text err) cid)), st2)
    else (Raise err, st2) in
  match auth_async_get_user (user_id ui) (world st1) with
  | (Value u, w2) =>
      let st2 := set_world w2 st1 in
      match template_async_render (prompt (options st)) ex w2 with
      | Value p =>
          (Ret (inl (cid, S (length (heap st)), ui')),
           set_heap (heap st2 ++ [[system_message_of (options st) u p]]) st2)
      | Throws err => handler err st2
      end
  | (Throws err, w2) => handler err (set_world w2 st1)
  end.
Proof.
  intros H. unfold open_conversation. rewrite run_bind. cbn [the_options].
  rewrite run_bind. cbn [new_list]. rewrite run_bind. cbn [history_lookup].
  change (match conversation_id ui with
          | Some c => history (set_heap (heap st ++ [[]]) st) !! c
          | None => None
          end) with (stored_list ui st).
  rewrite H. cbv zeta. rewrite run_bind.
  destruct (ignore_convoid (options st)).
  - cbn [ret fst snd]. rewrite run_bind. unfold attempt. rewrite run_bind.
    unfold call_host at 1.
    destruct (auth_async_get_user (user_id ui) _) as [[u|err] w2];
      [|destruct (isinstance err TemplateError); reflexivity].
    rewrite run_bind. unfold _async_generate_prompt. rewrite run_bind.
    cbn [the_world world set_world].
    destruct (template_async_render _ _ _) as [p|err];
      cbn [of_answer ret reraise].
    + rewrite run_bind. cbn [new_list ret heap set_world set_heap].
      rewrite length_app, Nat.add_1_r. reflexivity.
    + destruct (isinstance err TemplateError); reflexivity.
  - rewrite run_bind. cbn [new_ulid ret fst snd]. rewrite run_bind.
    unfold attempt. rewrite run_bind. unfold call_host at 1.
    cbn [user_id with_conversation_id world set_world].
    destruct (auth_async_get_user (user_id ui) _) as [[u|err] w2];
      [|destruct (isinstance err TemplateError); reflexivity].
    rewrite run_bind. unfold _async_generate_prompt. rewrite run_bind.
    cbn [the_world world set_world].
    destruct (template_async_render _ _ _) as [p|err];
      cbn [of_answer ret reraise].
    + rewrite run_bind. cbn [new_list ret heap set_world set_heap].
      rewrite length_app, Nat.add_1_r. reflexivity.
    + destruct (isinstance err TemplateError); reflexivity.
Qed.

(** The turn once its list is known: the user's message is appended and
    [respond] does the rest. *)
Definition user_turn (fuel : nat) (opts : entry_options)
  (ui : conversation_input) (cid : option string) (loc : nat)
  (ex : list exposed_entity) : M W conversation_result :=
  user_name ← (if attach_username opts then
                  user ← call_host (auth_async_get_user (user_id ui));
                  ret match user with
                      | Some u => user_name u
                      | None => None
                      end
                else ret None);
  list_append loc (user_message_of ui user_name);;
  respond fuel ui cid loc ex.

Lemma async_process_run fuel ui (st : state W) :
  async_process fuel ui st =
  match fst (get_exposed_entities st) with
  | Ret ex =>
      match open_conversation ui ex st with
      | (Ret (inr result), st1) => (Ret result, st1)
      | (Ret (inl (cid, loc, ui')), st1) =>
          user_turn fuel (options st) ui' cid loc ex st1
      | (Raise e, st1) => (Raise e, st1)
      | (Timeout, st1) => (Timeout, st1)
      end
  | Raise e => (Raise e, st)
  | Timeout => (Timeout, st)
  end.
Proof.
  unfold async_process. rewrite run_bind. cbn [the_options]. rewrite run_bind.
  pose proof (exposed_loop (world st)
    (List.filter (fun s => async_should_expose (world st) (state_entity_id s))
       (states_async_all (world st))) st) as [Hs _].
  assert (snd (get_exposed_entities st) = st) as Hsnd.
  { unfold get_exposed_entities. rewrite run_bind. exact Hs. }
  destruct (get_exposed_entities st) as [[ex|e|] st0]; cbn [fst snd] in *;
    subst st0; try reflexivity.
  rewrite run_bind.
  destruct (open_conversation ui ex st) as [[[[[cid loc] ui']|result]|e|] st1];
    reflexivity.
Qed.

Lemma user_turn_run fuel opts ui cid loc ex (st : state W) :
  user_turn fuel opts ui cid loc ex st =
  let go nm st1 :=
    respond fuel ui cid loc ex
      (set_heap (alter (fun l => l ++ [user_message_of ui nm]) loc (heap st1))
         st1) in
  if attach_username opts then
    match auth_async_get_user (user_id ui) (world st) with
    | (Value u, w) =>
        go match u with Some u => user_name u | None => None end
           (set_world w st)
    | (Throws e, w) => (Raise e, set_world w st)
    end
  else go None st.
Proof.
  unfold user_turn. rewrite run_bind. destruct (attach_username opts).
  - rewrite run_bind. unfold call_host.
    destruct (auth_async_get_user _ _) as [[u|e] w]; reflexivity.
  - reflexivity.
Qed.

(** *** The lists that were there before the turn *)

(** From [st] to [st'] the history and the options are the same and the
    first [L] lists are untouched. *)
Definition above (L : nat) (st st' : state W) : Prop :=
  history st' = history st /\ options st' = options st /\
  L <= length (heap st') /\
  forall i, i < L -> heap st' !! i = heap st !! i.

Lemma above_trans L (st1 st2 st3 : state W) :
  above L st1 st2 -> above L st2 st3 -> above L st1 st3.
Proof.
  intros (Hh1 & Ho1 & Hl1 & H1) (Hh2 & Ho2 & Hl2 & H2).
  repeat split; [congruence|congruence|assumption|].
  intros i Hi. rewrite H2, H1 by assumption. reflexivity.
Qed.

Lemma above_same L (st st' : state W) :
  history st' = history st -> options st' = options st ->
  heap st' = heap st -> L <= length (heap st) -> above L st st'.
Proof. intros Hh Ho Hp HL. repeat split; congruence. Qed.

Lemma above_new L (st : state W) l :
  L <= length (heap st) -> above L st (set_heap (heap st ++ [l]) st).
Proof.
  intros HL. repeat split; cbn [heap set_heap].
  - rewrite length_app. lia.
  - intros i Hi. apply lookup_app_l. lia.
Qed.

Lemma above_appends L loc sfx (st st' : state W) :
  L <= loc -> L <= length (heap st) -> appends loc sfx st st' ->
  above L st st'.
Proof.
  intros HL Hlen (Hh & Ho & Hp). repeat split; [assumption..| |].
  - rewrite Hp, length_alter. exact Hlen.
  - intros i Hi. rewrite Hp. apply list_lookup_alter_ne. lia.
Qed.

Lemma above_length L (st st' : state W) :
  above L st st' -> L <= length (heap st').
Proof. intros (_ & _ & H & _). exact H. Qed.

Lemma respond_above L fuel ui loc ex (st : state W) :
  L <= loc -> L <= length (heap st) ->
  above L st (snd (respond fuel ui None loc ex st)) /\
  forall r, fst (respond fuel ui None loc ex st) = Ret r ->
            result_conversation_id r = None.
Proof.
  intros HL Hlen. unfold respond. rewrite run_bind. unfold attempt.
  destruct (query_adds fuel ui loc ex 0 st) as (sfx & Ha & _).
  apply (above_appends L _ _ _ _ HL Hlen) in Ha.
  destruct (query fuel ui loc ex 0 st) as [[[sc m]|e|] st1]; cbn [snd] in Ha.
  - rewrite run_bind. cbn [list_append]. rewrite run_bind. cbn [ret].
    rewrite run_bind.
    set (st2 := set_heap _ st1).
    assert (above L st st2) as Ha2.
    { eapply above_trans; [exact Ha|].
      apply (above_appends L loc [m]); [exact HL|exact (above_length _ _ _ Ha)|].
      repeat split. }
    destruct (Nat.ltb 0 (length sc)); [destruct (content m)|]; cbn;
      (split; [exact Ha2|]); intros r Hr; try discriminate;
      injection Hr as <-; reflexivity.
  - destruct (isinstance e OpenAIError);
      [|destruct (isinstance e HomeAssistantError)]; cbn;
      (split; [exact Ha|]); intros r Hr; try discriminate;
      injection Hr as <-; reflexivity.
  - cbn. split; [exact Ha|]. discriminate.
Qed.

Lemma user_turn_above L fuel opts ui loc ex (st : state W) :
  L <= loc -> L <= length (heap st) ->
  above L st (snd (user_turn fuel opts ui None loc ex st)) /\
  forall r, fst (user_turn fuel opts ui None loc ex st) = Ret r ->
            result_conversation_id r = None.
Proof.
  intros HL Hlen. rewrite user_turn_run. cbv zeta.
  assert (forall nm (st1 : state W),
             above L st st1 ->
             above L st
               (snd (respond fuel ui None loc ex
                       (set_heap
                          (alter (fun l => l ++ [user_message_of ui nm]) loc
                             (heap st1)) st1))) /\
             forall r,
               fst (respond fuel ui None loc ex
                      (set_heap
                         (alter (fun l => l ++ [user_message_of ui nm]) loc
                            (heap st1)) st1)) = Ret r ->
               result_conversation_id r = None) as Hgo.
  { intros nm st1 H1.
    assert (above L st1
              (set_heap (alter (fun l => l ++ [user_message_of ui nm]) loc
                           (heap st1)) st1)) as H2.
    { apply (above_appends L loc [user_message_of ui nm]);
        [exact HL|exact (above_length _ _ _ H1)|repeat split]. }
    destruct (respond_above L fuel ui loc ex _ HL (above_length _ _ _ H2))
      as [H3 H4].
    split; [|exact H4].
    eapply above_trans; [exact H1|]. eapply above_trans; eassumption. }
  destruct (attach_username opts).
  - destruct (auth_async_get_user _ _) as [[u|e] w].
    + apply Hgo. apply above_same; auto.
    + cbn. split; [apply above_same; auto|discriminate].
  - apply Hgo. apply above_same; auto.
Qed.

(** X12.  With the option "ignore conversation id" set the agent
    remembers nothing: whatever the turn's outcome, the history maps
    the same ids to the same lists, every list that existed before the
    turn is untouched, and a result carries no conversation id. *)
Theorem X12_ignore_remembers_nothing (fuel : nat) (ui : conversation_input)
  (st : state W) :
  ignore_convoid (options st) = true ->
  history (snd (async_process fuel ui st)) = history st /\
  (forall loc l, heap st !! loc = Some l ->
                 heap (snd (async_process fuel ui st)) !! loc = Some l) /\
  (forall r, fst (async_process fuel ui st) = Ret r ->
             result_conversation_id r = None).
Proof.
  intros Hi.
  assert (above (length (heap st)) st (snd (async_process fuel ui st)) /\
          forall r, fst (async_process fuel ui st) = Ret r ->
                    result_conversation_id r = None) as [(Hh & _ & _ & Hl) Hr].
  { rewrite async_process_run.
    destruct (fst (get_exposed_entities st)) as [ex|e|];
      [|split; [apply above_same; auto|discriminate]..].
    destruct (stored_list ui st) as [loc|] eqn:Es.
    - rewrite (open_conversation_stored _ _ _ _ Es), Hi.
      destruct (user_turn_above (length (heap st)) fuel (options st) ui
                  (length (heap st)) ex (set_heap (heap st ++ [[]]) st))
        as [H1 H2]; [lia|cbn; rewrite length_app; lia|].
      split; [|exact H2].
      eapply above_trans; [|exact H1]. apply above_new. lia.
    - rewrite (open_conversation_fresh _ _ _ Es), Hi. cbv zeta.
      pose proof (above_new (length (heap st)) st [] (le_n _)) as H0.
      destruct (auth_async_get_user _ _) as [[u|err] w2].
      + destruct (template_async_render _ _ _) as [p|err].
        * match goal with
          | |- context [user_turn _ _ _ _ _ _ ?s] =>
              destruct (user_turn_above (length (heap st)) fuel (options st)
                          ui (S (length (heap st))) ex s) as [H1 H2]
          end; [lia|cbn; rewrite !length_app; lia|].
          split; [|exact H2]. eapply above_trans; [|exact H1].
          eapply above_trans; [exact H0|].
          eapply above_trans; [|apply above_new; cbn; rewrite length_app; lia].
          apply above_same; auto. cbn. rewrite length_app. lia.
        * destruct (isinstance err TemplateError); cbn.
          -- split; [|intros r Hr; injection Hr as <-; reflexivity].
             eapply above_trans; [exact H0|]. apply above_same; auto.
             cbn. rewrite length_app. lia.
          -- split; [|discriminate].
             eapply above_trans; [exact H0|]. apply above_same; auto.
             cbn. rewrite length_app. lia.
      + destruct (isinstance err TemplateError); cbn.
        * split; [|intros r Hr; injection Hr as <-; reflexivity].
          eapply above_trans; [exact H0|]. apply above_same; auto.
          cbn. rewrite length_app. lia.
        * split; [|discriminate].
          eapply above_trans; [exact H0|]. apply above_same; auto.
          cbn. rewrite length_app. lia. }
  split; [exact Hh|]. split; [|exact Hr].
  intros loc l Hloc. rewrite Hl; [exact Hloc|].
  apply lookup_lt_Some in Hloc. exact Hloc.
Qed.

(** *** A conversation that is stored *)

(** X13.  In a turn on a stored conversation (the option "ignore
    conversation id" unset) the user's message is appended to the stored
    list itself before the endpoint is asked: once the exposed entities
    are listed (and the user looked up, if the user name is to be
    attached), the stored list is the old one, the user's message and
    whatever follows, and that whatever the outcome of the turn: also
    after a turn that ended in an error result or an exception. *)
Theorem X13_user_message_stays_stored (fuel : nat) (ui : conversation_input)
  (st : state W) (c : string) (loc : nat) (old : list chat_message)
  (ex : list exposed_entity) :
  conversation_id ui = Some c ->
  history st !! c = Some loc ->
  heap st !! loc = Some old ->
  ignore_convoid (options st) = false ->
  fst (get_exposed_entities st) = Ret ex ->
  (attach_username (options st) = true ->
   exists u w, auth_async_get_user (user_id ui) (world st) = (Value u, w)) ->
  exists um more,
    role um = "user" /\ content um = Some (text ui) /\
    heap (snd (async_process fuel ui st)) !! loc = Some (old ++ um :: more) /\
    history (snd (async_process fuel ui st)) !! c = Some loc.
Proof.
  intros Hc Hh Hl Hi Hex Hu.
  assert (stored_list ui st = Some loc) as Hs.
  { unfold stored_list. rewrite Hc. exact Hh. }
  rewrite async_process_run, Hex, (open_conversation_stored _ _ _ _ Hs), Hi, Hc.
  rewrite user_turn_run. cbv zeta.
  assert (forall nm (s1 : state W),
             history s1 = history st ->
             heap s1 !! loc = Some old ->
             let s2 := set_heap (alter (fun l => l ++ [user_message_of ui nm])
                                   loc (heap s1)) s1 in
             exists more,
               heap (snd (respond fuel ui (Some c) loc ex s2)) !! loc
               = Some (old ++ user_message_of ui nm :: more) /\
               history (snd (respond fuel ui (Some c) loc ex s2)) !! c
               = Some loc)
    as Hgo.
  { intros nm s1 Hh1 Hl1 s2.
    assert (history s2 !! c = Some loc) as Hh2.
    { subst s2. cbn [history set_heap]. rewrite Hh1. exact Hh. }
    assert (heap s2 !! loc = Some (old ++ [user_message_of ui nm])) as Hl2.
    { subst s2. cbn [heap set_heap]. rewrite list_lookup_alter_eq, Hl1.
      reflexivity. }
    destruct (respond_grows fuel ui c loc ex s2 Hh2) as (Hh3 & _ & Hg).
    destruct (Hg _ _ Hl2) as (suffix & Hs3). exists suffix.
    rewrite Hs3, Hh3, <- app_assoc. split; [reflexivity|exact Hh2]. }
  assert (heap (set_heap (heap st ++ [[]]) st) !! loc = Some old) as Hl0.
  { cbn [heap set_heap]. apply lookup_app_l_Some, Hl. }
  destruct (attach_username (options st)).
  - destruct (Hu eq_refl) as (u & w & Hau). cbn [world set_heap]. rewrite Hau.
    destruct (Hgo (match u with Some u0 => user_name u0 | None => None end)
                (set_world w (set_heap (heap st ++ [[]]) st)) eq_refl Hl0)
      as (more & H1 & H2).
    eexists _, more. split; [|split; [|split; [exact H1|exact H2]]];
      reflexivity.
  - destruct (Hgo None (set_heap (heap st ++ [[]]) st) eq_refl Hl0)
      as (more & H1 & H2).
    eexists _, more. split; [|split; [|split; [exact H1|exact H2]]];
      reflexivity.
Qed.

(** *** A conversation that is new *)

Lemma respond_speech fuel ui c loc ex (st : state W) r st' lang sp :
  respond fuel ui (Some c) loc ex st = (Ret r, st') ->
  response r = Speech lang sp ->
  exists sc m st1 t,
    query fuel ui loc ex 0 st = (Ret (sc, m), st1) /\
    content m = Some t /\
    (sp = Some t \/ sp = Some (t +:+ SERVICE_EXECUTED)) /\
    result_conversation_id r = Some c /\
    st' = set_history (<[c:=loc]> (history st1))
            (set_heap (alter (fun l => l ++ [m]) loc (heap st1)) st1).
Proof.
  unfold respond. rewrite run_bind. unfold attempt.
  destruct (query fuel ui loc ex 0 st) as [[[sc m]|e|] st1] eqn:Hq.
  - destruct (query_content _ _ _ _ _ _ _ _ _ Hq) as (c0 & Hc0).
    rewrite run_bind. cbn [list_append]. rewrite run_bind.
    cbn [history_store]. rewrite run_bind, Hc0.
    destruct (Nat.ltb 0 (length sc)); cbn; intros H Hr;
      injection H as <- <-; cbn in Hr; injection Hr as _ <-;
      exists sc, m, st1, (tidy c0); repeat split; auto.
  - destruct (isinstance e OpenAIError);
      [|destruct (isinstance e HomeAssistantError)]; cbn; intros H Hr;
      try discriminate; injection H as <- _; discriminate.
  - discriminate.
Qed.

(** X14.  A first turn that answers with speech (the id of the input
    is not stored, the option "ignore conversation id" is unset) stores
    the conversation under the new id it returns: the stored list starts
    with the system prompt and the user's message, goes on with the
    messages of the function calls and ends with the answer, whose
    content is what is spoken, but for the text on executed services;
    the lists that were there before are untouched. *)
Theorem X14_new_conversation_is_stored (fuel : nat) (ui : conversation_input)
  (st st' : state W) (r : conversation_result) (lang : string)
  (sp : option string) :
  stored_list ui st = None ->
  ignore_convoid (options st) = false ->
  async_process fuel ui st = (Ret r, st') ->
  response r = Speech lang sp ->
  let c := fst (ulid (world st)) in
  let loc := S (length (heap st)) in
  result_conversation_id r = Some c /\
  history st' = <[c := loc]> (history st) /\
  (exists sys um more answer t,
      heap st' !! loc = Some (sys :: um :: more ++ [answer]) /\
      role sys = "system" /\
      role um = "user" /\ content um = Some (text ui) /\
      Forall (fun m => role m = "function") more /\
      content answer = Some t /\
      (sp = Some t \/ sp = Some (t +:+ SERVICE_EXECUTED))) /\
  (forall i l, heap st !! i = Some l -> heap st' !! i = Some l).
Proof.
  intros Hs Hi H Hr c loc. rewrite async_process_run in H.
  destruct (fst (get_exposed_entities st)) as [ex|e|]; try discriminate.
  rewrite (open_conversation_fresh _ _ _ Hs), Hi in H.
  cbv beta iota zeta in H. fold c in H. fold loc in H.
  destruct (auth_async_get_user _ _) as [[u|err] w2].
  2:{ destruct (isinstance err TemplateError); [|discriminate].
      injection H as <- _. discriminate. }
  destruct (template_async_render _ _ _) as [p|err].
  2:{ destruct (isinstance err TemplateError); [|discriminate].
      injection H as <- _. discriminate. }
  rewrite user_turn_run in H. cbv zeta in H.
  set (s3 := set_heap _ _) in H.
  assert (forall nm (s : state W),
             history s = history st ->
             heap s = heap st ++ [[]] ++ [[system_message_of (options st) u p]] ->
             respond fuel (with_conversation_id ui c) (Some c) loc ex
               (set_heap
                  (alter (fun l => l ++
                                   [user_message_of (with_conversation_id ui c) nm])
                     loc (heap s)) s) = (Ret r, st') ->
             result_conversation_id r = Some c /\
             history st' = <[c := loc]> (history st) /\
             (exists sys um more answer t,
                 heap st' !! loc = Some (sys :: um :: more ++ [answer]) /\
                 role sys = "system" /\
                 role um = "user" /\ content um = Some (text ui) /\
                 Forall (fun m => role m = "function") more /\
                 content answer = Some t /\
                 (sp = Some t \/ sp = Some (t +:+ SERVICE_EXECUTED))) /\
             (forall i l, heap st !! i = Some l -> heap st' !! i = Some l))
    as Hgo.
  { intros nm s Hhs Hps Hresp.
    destruct (respond_speech _ _ _ _ _ _ _ _ _ _ Hresp Hr)
      as (sc & m & st1 & t & Hq & Hc & Hsp & Hid & ->).
    match type of Hq with
    | query _ _ _ _ _ ?s4 = _ =>
        destruct (query_adds fuel (with_conversation_id ui c) loc ex 0 s4)
          as (sfx & (Hh1 & _ & Hp1) & Hf)
    end.
    rewrite Hq in Hh1, Hp1. cbn [snd history heap set_heap] in Hh1, Hp1.
    split; [exact Hid|]. split.
    { cbn [history set_history]. rewrite Hh1, Hhs. reflexivity. }
    cbn [heap set_history set_heap]. rewrite Hp1, Hps. split.
    - exists (system_message_of (options st) u p),
        (user_message_of (with_conversation_id ui c) nm), sfx, m, t.
      split.
      { rewrite !list_lookup_alter_eq, app_assoc.
        rewrite (list_lookup_middle (heap st ++ [[]]) [] _ loc);
          [reflexivity|].
        subst loc. rewrite length_app. cbn. lia. }
      repeat split; auto.
      eapply Forall_impl; [exact Hf|]. intros x (Hx & _). exact Hx.
    - intros i l Hl. pose proof (lookup_lt_Some _ _ _ Hl) as Hlt.
      rewrite !list_lookup_alter_ne by (subst loc; lia).
      apply lookup_app_l_Some, Hl. }
  destruct (attach_username (options st)).
  - destruct (auth_async_get_user _ _) as [[u2|e2] w3]; [|discriminate].
    apply (Hgo _ (set_world w3 s3) eq_refl) in H; [exact H|].
    subst s3. cbn [heap set_heap set_world]. rewrite <- app_assoc. reflexivity.
  - apply (Hgo None s3 eq_refl) in H; [exact H|].
    subst s3. cbn [heap set_heap set_world]. rewrite <- app_assoc. reflexivity.
Qed.

(** *** A turn that fails *)

(** The texts of an error result. *)
Definition error_text (msg : string) : Prop :=
  exists e,
    (isinstance e TemplateError = true /\
     msg = "Sorry, I had a problem with my template: " +:+ str_exn e) \/
    (isinstance e OpenAIError = true /\
     msg = "Sorry, I had a problem talking to OpenAI: " +:+ str_exn e) \/
    (isinstance e OpenAIError = false /\
     isinstance e HomeAssistantError = true /\
     msg = "Something went wrong: " +:+ str_exn e).

(** An outcome, from the state [st]: a result in the language [lang],
    and unless it is speech the history of [st]. *)
Definition stores_on_speech_only (lang : string) (st : state W)
  (out : res conversation_result * state W) : Prop :=
  match fst out with
  | Ret r =>
      match response r with
      | Speech l _ => l = lang
      | ErrorResponse l msg =>
          l = lang /\ error_text msg /\ history (snd out) = history st
      end
  | _ => history (snd out) = history st
  end.

Lemma respond_stores_on_speech_only fuel ui cid loc ex (st : state W) :
  stores_on_speech_only (language ui) st (respond fuel ui cid loc ex st).
Proof.
  unfold stores_on_speech_only.
  destruct (keeps_query fuel ui loc ex 0 st) as (Hh & _).
  destruct (query fuel ui loc ex 0 st) as [[[sc m]|e|] st1] eqn:Hq;
    cbn [snd] in Hh.
  - destruct (respond_returns fuel ui cid loc ex st sc m st1 Hq)
      as (st2 & -> & _).
    reflexivity.
  - rewrite (respond_raises _ _ _ _ _ _ _ _ Hq).
    destruct (isinstance e OpenAIError) eqn:E1.
    { cbn. split; [reflexivity|]. split; [|exact Hh]. exists e. auto. }
    destruct (isinstance e HomeAssistantError) eqn:E2.
    { cbn. split; [reflexivity|]. split; [|exact Hh]. exists e. auto. }
    exact Hh.
  - rewrite (respond_timeout _ _ _ _ _ _ _ Hq). exact Hh.
Qed.

Lemma user_turn_stores_on_speech_only fuel opts ui cid loc ex (st : state W) :
  stores_on_speech_only (language ui) st (user_turn fuel opts ui cid loc ex st).
Proof.
  rewrite user_turn_run. cbv zeta.
  destruct (attach_username opts).
  - destruct (auth_async_get_user _ _) as [[u|e] w]; [|reflexivity].
    match goal with
    | |- stores_on_speech_only _ _ (respond _ _ _ _ _ ?s) =>
        exact (respond_stores_on_speech_only fuel ui cid loc ex s)
    end.
  - match goal with
    | |- stores_on_speech_only _ _ (respond _ _ _ _ _ ?s) =>
        exact (respond_stores_on_speech_only fuel ui cid loc ex s)
    end.
Qed.

Lemma async_process_stores_on_speech_only fuel ui (st : state W) :
  stores_on_speech_only (language ui) st (async_process fuel ui st).
Proof.
  rewrite async_process_run.
  destruct (fst (get_exposed_entities st)) as [ex|e|]; try reflexivity.
  assert (forall err c (ui' : conversation_input) (s : state W),
             language ui' = language ui -> history s = history st ->
             stores_on_speech_only (language ui) st
               match
                 (if isinstance err TemplateError
                  then (Ret (inr (error_result ui' (template_error_text err) c)),
                        s)
                  else (Raise err, s))
               with
               | (Ret (inr result), st1) => (Ret result, st1)
               | (Ret (inl (cid, loc, ui'')), st1) =>
                   user_turn fuel (options st) ui'' cid loc ex st1
               | (Raise e, st1) => (Raise e, st1)
               | (Timeout, st1) => (Timeout, st1)
               end) as Hh.
  { intros err c ui' s Hl Hs.
    destruct (isinstance err TemplateError) eqn:E; [|exact Hs].
    cbn. split; [exact Hl|]. split; [|exact Hs]. exists err. auto. }
  destruct (stored_list ui st) as [loc|] eqn:Es.
  - rewrite (open_conversation_stored _ _ _ _ Es).
    destruct (ignore_convoid (options st));
      match goal with
      | |- stores_on_speech_only _ _ (user_turn _ ?o _ ?c ?l _ ?s) =>
          exact (user_turn_stores_on_speech_only fuel o ui c l ex s)
      end.
  - rewrite (open_conversation_fresh _ _ _ Es). cbv beta zeta.
    assert (language (if ignore_convoid (options st) then ui
                      else with_conversation_id ui (fst (ulid (world st))))
            = language ui) as Hl.
    { destruct (ignore_convoid (options st)); reflexivity. }
    assert (history (if ignore_convoid (options st)
                     then set_heap (heap st ++ [[]]) st
                     else set_world (snd (ulid (world st)))
                            (set_heap (heap st ++ [[]]) st)) = history st)
      as Hs.
    { destruct (ignore_convoid (options st)); reflexivity. }
    destruct (auth_async_get_user _ _) as [[u|err] w2].
    + destruct (template_async_render _ _ _) as [p|err].
      * rewrite <- Hl.
        match goal with
        | |- stores_on_speech_only _ _ (user_turn _ ?o ?i ?c ?l _ ?s) =>
            pose proof (user_turn_stores_on_speech_only fuel o i c l ex s) as H
        end.
        unfold stores_on_speech_only in *. cbn [history set_heap set_world] in H.
        rewrite Hs in H. exact H.
      * apply Hh; [exact Hl|exact Hs].
    + apply Hh; [exact Hl|exact Hs].
Qed.

(** *** The lists a turn appends to *)

(** From [st] to [st'] each of the first [L] lists kept its messages,
    followed by what was appended, and only a list of [C] was appended
    to. *)
Definition grown_at (L : nat) (C : nat -> Prop) (st st' : state W) : Prop :=
  forall i l, i < L -> heap st !! i = Some l ->
    exists more, heap st' !! i = Some (l ++ more) /\ (more <> [] -> C i).

Lemma grown_at_same L C (st st' : state W) :
  heap st' = heap st -> grown_at L C st st'.
Proof.
  intros Hp i l _ Hl. exists []. rewrite app_nil_r, Hp.
  split; [exact Hl|]. intros H. destruct (H eq_refl).
Qed.

Lemma grown_at_trans L C (st1 st2 st3 : state W) :
  grown_at L C st1 st2 -> grown_at L C st2 st3 -> grown_at L C st1 st3.
Proof.
  intros H1 H2 i l Hi Hl. destruct (H1 i l Hi Hl) as (m1 & Hm1 & Hc1).
  destruct (H2 i _ Hi Hm1) as (m2 & Hm2 & Hc2).
  exists (m1 ++ m2). rewrite app_assoc. split; [exact Hm2|].
  intros Hne. destruct m1 as [|x m1]; [apply Hc2, Hne|].
  apply Hc1. discriminate.
Qed.

Lemma grown_at_new L C (st : state W) l :
  grown_at L C st (set_heap (heap st ++ [l]) st).
Proof.
  intros i l' _ Hl. exists []. rewrite app_nil_r. cbn [heap set_heap].
  split; [apply lookup_app_l_Some, Hl|]. intros H. destruct (H eq_refl).
Qed.

Lemma grown_at_appends L (C : nat -> Prop) loc sfx (st st' : state W) :
  (loc < L -> C loc) -> appends loc sfx st st' -> grown_at L C st st'.
Proof.
  intros HC (_ & _ & Hp) i l Hi Hl. rewrite Hp.
  destruct (decide (loc = i)) as [->|Hne].
  - exists sfx. rewrite list_lookup_alter_eq, Hl. split; [reflexivity|].
    intros _. apply HC, Hi.
  - exists []. rewrite app_nil_r, list_lookup_alter_ne by exact Hne.
    split; [exact Hl|]. intros H. destruct (H eq_refl).
Qed.

Lemma respond_grown L (C : nat -> Prop) fuel ui cid loc ex (st : state W) :
  (loc < L -> C loc) ->
  grown_at L C st (snd (respond fuel ui cid loc ex st)).
Proof.
  intros HC. unfold respond. rewrite run_bind. unfold attempt.
  destruct (query_adds fuel ui loc ex 0 st) as (sfx & Ha & _).
  apply (grown_at_appends L C _ _ _ _ HC) in Ha.
  destruct (query fuel ui loc ex 0 st) as [[[sc m]|e|] st1]; cbn [snd] in Ha.
  - rewrite run_bind. cbn [list_append]. rewrite run_bind.
    set (st2 := set_heap _ st1).
    assert (grown_at L C st st2) as Ha2.
    { eapply grown_at_trans; [exact Ha|].
      apply (grown_at_appends L C loc [m]); [exact HC|repeat split]. }
    assert (forall st3 : state W, heap st3 = heap st2 -> grown_at L C st st3)
      as Hgo.
    { intros st3 H3. eapply grown_at_trans; [exact Ha2|].
      apply grown_at_same, H3. }
    destruct cid as [c|]; cbn [history_store ret]; rewrite run_bind;
      (destruct (Nat.ltb 0 (length sc)); [destruct (content m)|]);
      apply Hgo; reflexivity.
  - destruct (isinstance e OpenAIError);
      [|destruct (isinstance e HomeAssistantError)]; exact Ha.
  - exact Ha.
Qed.

Lemma user_turn_grown L (C : nat -> Prop) fuel opts ui cid loc ex
  (st : state W) :
  (loc < L -> C loc) ->
  grown_at L C st (snd (user_turn fuel opts ui cid loc ex st)).
Proof.
  intros HC. rewrite user_turn_run. cbv zeta.
  assert (forall nm (st1 : state W),
             heap st1 = heap st ->
             grown_at L C st
               (snd (respond fuel ui cid loc ex
                       (set_heap
                          (alter (fun l => l ++ [user_message_of ui nm]) loc
                             (heap st1)) st1)))) as Hgo.
  { intros nm st1 H1.
    eapply grown_at_trans; [apply (grown_at_same L C st st1 H1)|].
    eapply grown_at_trans; [|apply respond_grown, HC].
    apply (grown_at_appends L C loc [user_message_of ui nm]);
      [exact HC|repeat split]. }
  destruct (attach_username opts).
  - destruct (auth_async_get_user _ _) as [[u|e] w].
    + apply Hgo. reflexivity.
    + apply grown_at_same. reflexivity.
  - apply Hgo. reflexivity.
Qed.

(** A turn appends to the lists it finds at most to the stored list of
    its conversation. *)
Lemma async_process_grown fuel ui (st : state W) :
  grown_at (length (heap st))
    (fun i => stored_list ui st = Some i /\
              ignore_convoid (options st) = false)
    st (snd (async_process fuel ui st)).
Proof.
  set (L := length (heap st)). set (C := fun i : nat => _).
  rewrite async_process_run.
  destruct (fst (get_exposed_entities st)) as [ex|e|];
    try (apply grown_at_same; reflexivity).
  destruct (stored_list ui st) as [loc|] eqn:Es.
  - rewrite (open_conversation_stored _ _ _ _ Es).
    eapply grown_at_trans; [apply (grown_at_new L C st [])|].
    destruct (ignore_convoid (options st)) eqn:Hi;
      apply user_turn_grown; subst L C; cbn; [lia|auto].
  - rewrite (open_conversation_fresh _ _ _ Es). cbv zeta.
    assert (forall (s : state W) err (c : option string)
                   (ui' : conversation_input),
               heap s = heap st ++ [[]] ->
               grown_at L C st
                 (snd match
                        (if isinstance err TemplateError
                         then (Ret (inr (error_result ui'
                                           (template_error_text err) c)), s)
                         else (Raise err, s))
                      with
                      | (Ret (inr result), st1) => (Ret result, st1)
                      | (Ret (inl (cid, loc, ui'')), st1) =>
                          user_turn fuel (options st) ui'' cid loc ex st1
                      | (Raise e, st1) => (Raise e, st1)
                      | (Timeout, st1) => (Timeout, st1)
                      end)) as Herr.
    { intros s err c ui' Hs.
      assert (grown_at L C st s) as Hg.
      { eapply grown_at_trans; [apply (grown_at_new L C st [])|].
        apply grown_at_same. exact Hs. }
      destruct (isinstance err TemplateError); exact Hg. }
    destruct (auth_async_get_user _ _) as [[u|err] w2].
    + destruct (template_async_render _ _ _) as [p|err].
      * match goal with
        | |- grown_at _ _ _ (snd (user_turn _ _ _ _ _ _ ?s)) =>
            apply (grown_at_trans L C st s)
        end.
        { eapply grown_at_trans; [apply (grown_at_new L C st [])|].
          eapply grown_at_trans;
            [|apply (grown_at_new L C _
                       [system_message_of (options st) u p])].
          apply grown_at_same.
          destruct (ignore_convoid (options st)); reflexivity. }
        apply user_turn_grown. subst L. lia.
      * apply Herr. destruct (ignore_convoid (options st)); reflexivity.
    + apply Herr. destruct (ignore_convoid (options st)); reflexivity.
Qed.

(** X15.  Only a turn that answers with speech stores a conversation:
    after a turn that returns an error result, raises or runs out of
    fuel the history has the same conversation ids, each with the list
    object it had.  The lists themselves are appended to in place:
    whatever the outcome of the turn, every list that was there keeps
    its messages, followed by what the turn appended, and the turn
    appends to one of them only, the stored list of its conversation
    (with the option "ignore conversation id" unset), which so grows
    also in a turn that fails.  Every result is in the language of the
    input, and the message of an error result is one of three texts: on
    the template for a [TemplateError], on talking to OpenAI for an
    [OpenAIError], "Something went wrong" for another
    [HomeAssistantError], each followed by the text of the exception. *)
Theorem X15_only_speech_is_stored (fuel : nat) (ui : conversation_input)
  (st : state W) :
  (forall loc l,
      heap st !! loc = Some l ->
      exists more,
        heap (snd (async_process fuel ui st)) !! loc = Some (l ++ more) /\
        (more <> [] ->
         stored_list ui st = Some loc /\
         ignore_convoid (options st) = false)) /\
  match fst (async_process fuel ui st) with
  | Ret r =>
      match response r with
      | Speech lang _ => lang = language ui
      | ErrorResponse lang msg =>
          lang = language ui /\
          (exists e,
              (isinstance e TemplateError = true /\
               msg = "Sorry, I had a problem with my template: "
                     +:+ str_exn e) \/
              (isinstance e OpenAIError = true /\
               msg = "Sorry, I had a problem talking to OpenAI: "
                     +:+ str_exn e) \/
              (isinstance e OpenAIError = false /\
               isinstance e HomeAssistantError = true /\
               msg = "Something went wrong: " +:+ str_exn e)) /\
          history (snd (async_process fuel ui st)) = history st
      end
  | _ => history (snd (async_process fuel ui st)) = history st
  end.
Proof.
  split.
  - intros loc l Hl.
    exact (async_process_grown fuel ui st loc l (lookup_lt_Some _ _ _ Hl) Hl).
  - exact (async_process_stores_on_speech_only fuel ui st).
Qed.

(** X16.  When the prompt template fails to render for a conversation
    that is not stored, the turn answers with an error result on the
    template, under the new conversation id (none with the option
    "ignore conversation id"); it sends no request, calls no service and
    stores nothing. *)
Theorem X16_template_error_is_reported (fuel : nat)
  (ui : conversation_input) (st : state W) (ex : list exposed_entity)
  (u : option user) (w2 : W) (err : exn) :
  stored_list ui st = None ->
  fst (get_exposed_entities st) = Ret ex ->
  auth_async_get_user (user_id ui)
    (if ignore_convoid (options st) then world st
     else snd (ulid (world st))) = (Value u, w2) ->
  template_async_render (prompt (options st)) ex w2 = Throws err ->
  isinstance err TemplateError = true ->
  exists st',
    async_process fuel ui st =
    (Ret {| response :=
              ErrorResponse (language ui)
                ("Sorry, I had a problem with my template: "
                 +:+ str_exn err);
            result_conversation_id :=
              if ignore_convoid (options st) then None
              else Some (fst (ulid (world st))) |}, st') /\
    trace st' = trace st /\ history st' = history st.
Proof.
  intros Hs Hex Hu Ht He.
  rewrite async_process_run, Hex, (open_conversation_fresh _ _ _ Hs).
  cbv zeta.
  destruct (ignore_convoid (options st)); cbn [world set_world set_heap];
    rewrite Hu, Ht, He; eexists; (split; [reflexivity|split; reflexivity]).
Qed.

End TurnMemory.

(** ** The services a message reports *)

Section ReportFacts.

Context {W : Type} {host : Host W}.

Lemma dict_get_set k v d : Dict.get k (Dict.set k v d) = Some v.
Proof.
  induction d as [|[k' v'] d IH]; simpl.
  - rewrite String.eqb_refl. reflexivity.
  - destruct (String.eqb k' k) eqn:E; simpl.
    + rewrite String.eqb_refl. reflexivity.
    + rewrite E. exact IH.
Qed.

(** The record [rec] of [services_called] reports the host call [ev]:
    it is the data passed to the host with the service string added
    under the key [service], and the call went to the domain and the
    service this string names. *)
Definition reports (rec : dict) (ev : event) : Prop :=
  exists s domain service_name more data,
    ev = EvService domain service_name data /\
    PyStr.split "." s = domain :: service_name :: more /\
    rec = Dict.set "service" (JStr s) data /\
    Dict.get "service" rec = Some (JStr s).

Lemma call_service_reports segment (st st' : state W) o :
  call_service segment st = (Ret o, st') ->
  match o with
  | None => trace st' = trace st
  | Some rec => exists ev, trace st' = trace st ++ [ev] /\ reports rec ev
  end.
Proof.
  unfold call_service. intros H.
  apply bind_inv in H as [(v & st1 & H1 & H)|[(e & _ & ?)|[_ ?]]];
    try discriminate.
  assert (st1 = st) as ->.
  { destruct (json_loads segment); cbv [of_answer ret reraise] in H1;
      congruence. }
  clear H1. destruct v as [| | | | |d]; try discriminate.
  destruct (Dict.pop "service" d) as [[v rest]|]; [|discriminate].
  destruct v; try discriminate.
  destruct (if String.eqb _ _ then _ else _) as [service service_call].
  destruct (_ || _).
  { injection H as <- <-. reflexivity. }
  destruct (PyStr.split "." service) as [|domain [|service_name more]] eqn:Es;
    try discriminate.
  cbn [nth_error hd] in H.
  change (invoke domain service_name service_call service st = (Ret o, st'))
    in H.
  rewrite invoke_run in H. cbv zeta in H.
  destruct (services_async_call _ _ _ _) as [[[]|e] w]; [|discriminate].
  injection H as <- <-. eexists. split; [reflexivity|].
  exists service, domain, service_name, more, service_call.
  repeat split; [exact Es|apply dict_get_set].
Qed.

Lemma service_loop_reports segments failed called (st st' : state W) flag sc :
  service_loop segments failed called st = (Ret (flag, sc), st') ->
  exists new evs,
    sc = called ++ new /\ trace st' = trace st ++ evs /\
    Forall2 reports new evs.
Proof.
  revert failed called st.
  induction segments as [|segment rest IH]; intros failed called st;
    cbn [service_loop].
  - intros H. injection H as _ <- <-. exists [], [].
    rewrite !app_nil_r. repeat split. constructor.
  - rewrite run_bind. unfold attempt.
    destruct (call_service segment st) as [[o|e|] st1] eqn:E;
      [| |discriminate].
    + apply call_service_reports in E. destruct o as [rec|]; intros H.
      * destruct E as (ev & Ht & Hr).
        apply IH in H as (new & evs & -> & Ht2 & Hf).
        exists (rec :: new), (ev :: evs). rewrite Ht2, Ht, <- !app_assoc.
        repeat split. constructor; assumption.
      * apply IH in H as (new & evs & -> & Ht2 & Hf).
        exists new, evs. rewrite Ht2, E. auto.
    + destruct (isinstance e Exception); discriminate.
Qed.

(** X18.  When a message is processed without an exception, the
    services [query] reports for it are exactly the host calls it made,
    in order: each record of [services_called] is the data passed to the
    host with the service string added under the key [service], and the
    call went to the domain and service that string names. *)
Theorem X18_reported_services_were_called (message m : chat_message)
  (st st' : state W) (services_called : list dict) :
  postprocess message st = (Ret (services_called, m), st') ->
  exists evs,
    trace st' = trace st ++ evs /\
    Forall2
      (fun rec ev =>
         exists s domain service_name more data,
           ev = EvService domain service_name data /\
           PyStr.split "." s = domain :: service_name :: more /\
           rec = Dict.set "service" (JStr s) data /\
           Dict.get "service" rec = Some (JStr s))
      services_called evs.
Proof.
  intros H. apply postprocess_inv in H as (c & sc & c' & _ & Hr & H).
  injection H as <- _. unfold run_directives in Hr.
  destruct (PyStr.contains _ _).
  - apply bind_inv in Hr as [(segs & st0 & H0 & Hr)|[(e & _ & ?)|[_ ?]]];
      try discriminate.
    assert (st0 = st) as ->.
    { destruct (extract_json_objects _); cbv [of_answer ret reraise] in H0;
        congruence. }
    apply bind_inv in Hr as [([flag sc0] & st1 & H1 & Hr)|[(e & _ & ?)|[_ ?]]];
      try discriminate.
    injection Hr as <- _ <-.
    apply service_loop_reports in H1 as (new & evs & -> & Ht & Hf).
    exists evs. split; [exact Ht|exact Hf].
  - injection Hr as <- _ <-. exists []. rewrite app_nil_r.
    split; [reflexivity|constructor].
Qed.

End ReportFacts.

(** ** What the endpoint is sent *)

Section FeedFacts.

Context {W : Type} {host : Host W}.

(** The message lists of the requests of a stretch of the trace. *)
Definition messages_sent (evs : list event) : list (list chat_message) :=
  flat_map (fun ev => match ev with
                      | EvChat _ req => [req_messages req]
                      | _ => []
                      end) evs.

(** The requests start with the list [l], and each next one carries
    the list of the one before with one message of a function call
    added. *)
Inductive fed_back (l : list chat_message)
  : list (list chat_message) -> Prop :=
| fed_back_nil : fed_back l []
| fed_back_last : fed_back l [l]
| fed_back_cons fm ms :
    role fm = "function" -> content fm <> None -> name fm <> None ->
    fed_back (l ++ [fm]) ms -> fed_back l (l :: ms).

Lemma messages_sent_app e1 e2 :
  messages_sent (e1 ++ e2) = messages_sent e1 ++ messages_sent e2.
Proof.
  unfold messages_sent. rewrite !flat_map_concat_map, map_app, concat_app.
  reflexivity.
Qed.

Lemma messages_sent_services evs :
  Forall is_service evs -> messages_sent evs = [].
Proof.
  induction 1 as [|ev evs Hev _ IH]; [reflexivity|].
  destruct ev; try discriminate. exact IH.
Qed.

(** After [m], the continuation [k] adds host service calls only. *)
Lemma trace_bind_services {A B} (m : M W A) (k : A -> M W B) (st : state W) :
  (forall a, emits is_service (k a)) ->
  exists svcs,
    trace (snd ((m ≫= k) st)) = trace (snd (m st)) ++ svcs /\
    Forall is_service svcs.
Proof.
  intros Hk. rewrite run_bind.
  destruct (m st) as [[a|e|] st1]; cbn [snd];
    try (exists []; rewrite app_nil_r; split; [reflexivity|constructor]).
  destruct (Hk a st1 I) as [[_ (evs & Ht & Hf & _)] _]. eauto.
Qed.

Lemma query_fed fuel : forall ui loc ex n (st : state W) l,
  heap st !! loc = Some l ->
  exists evs,
    trace (snd (query fuel ui loc ex n st)) = trace st ++ evs /\
    fed_back l (messages_sent evs) /\
    forall fs, fuel <> 0 -> fst (function_specs st) = Ret fs ->
               exists evs',
                 evs = EvChat n (chat_request_for (options st) fs l n) :: evs'.
Proof.
  induction fuel as [|f IH]; intros ui loc ex n st l Hl.
  { exists []. rewrite app_nil_r. split; [reflexivity|].
    split; [constructor|]. intros fs H. contradiction. }
  rewrite query_eq.
  destruct (fst (function_specs st)) as [fs|e|];
    try (exists []; rewrite app_nil_r; split; [reflexivity|];
         split; [constructor|]; intros fs' _ H'; discriminate).
  cbv zeta. rewrite Hl. change (default [] (Some l)) with l.
  set (req := chat_request_for (options st) fs l n).
  assert (forall evs',
             messages_sent evs' = [] ->
             fed_back l (messages_sent (EvChat n req :: evs')) /\
             forall fs', S f <> 0 -> Ret fs = Ret fs' ->
                         exists evs'',
                           EvChat n req :: evs' =
                           EvChat n (chat_request_for (options st) fs' l n)
                             :: evs'') as Hone.
  { intros evs' He. split.
    - change (messages_sent (EvChat n req :: evs'))
        with (req_messages req :: messages_sent evs').
      rewrite He. unfold req, chat_request_for.
      destruct (Nat.eqb _ _); apply fed_back_last.
    - intros fs' _ Hfs. injection Hfs as <-. eauto. }
  assert (req_messages req = l) as Hreq.
  { unfold req, chat_request_for. destruct (Nat.eqb _ _); reflexivity. }
  destruct (chat_completions_create req (world st)) as [[ch|e] w].
  2:{ exists [EvChat n req]. split; [reflexivity|]. apply Hone. reflexivity. }
  set (st1 := set_world w (add_event (EvChat n req) st)).
  assert (trace st1 = trace st ++ [EvChat n req]) as Ht1 by reflexivity.
  destruct (String.eqb (finish_reason ch) "function_call").
  2:{ destruct (emits_postprocess (choice_message ch) st1 I)
        as [[_ (svcs & Ht & Hf & _)] _].
      exists (EvChat n req :: svcs). split.
      { rewrite Ht, Ht1, <- app_assoc. reflexivity. }
      apply Hone, messages_sent_services, Hf. }
  destruct (trace_bind_services
              (execute_function_call (query f) ui loc (choice_message ch)
                 ex (n + 1)) postprocess st1 emits_postprocess)
    as (svcs & Ht & Hsv).
  rewrite Ht. clear Ht.
  assert (forall evs' : list event,
             messages_sent evs' = [] ->
             fed_back l (messages_sent (EvChat n req :: evs' ++ svcs)) /\
             forall fs', S f <> 0 -> Ret fs = Ret fs' ->
                         exists evs'',
                           EvChat n req :: evs' ++ svcs =
                           EvChat n (chat_request_for (options st) fs' l n)
                             :: evs'') as Hflat.
  { intros evs' He. apply Hone.
    rewrite messages_sent_app, He, (messages_sent_services _ Hsv).
    reflexivity. }
  assert (trace st1 ++ svcs = trace st ++ EvChat n req :: [] ++ svcs) as Hstop.
  { rewrite Ht1, <- app_assoc. reflexivity. }
  rewrite execute_function_call_eq.
  destruct (fcall (choice_message ch)) as [fc|] eqn:Efc;
    [|exists (EvChat n req :: [] ++ svcs); split; [cbn [snd]; exact Hstop|];
      apply Hflat; reflexivity].
  destruct (fst (configured_functions st1)) as [fs1|e|];
    try (exists (EvChat n req :: [] ++ svcs); split; [cbn [snd]; exact Hstop|];
         apply Hflat; reflexivity).
  destruct (fst (find_function (fc_name fc) fs1 st1)) as [[fn|]|e|];
    try (exists (EvChat n req :: [] ++ svcs); split; [cbn [snd]; exact Hstop|];
         apply Hflat; reflexivity).
  rewrite execute_function_eq, Efc.
  destruct (fst (subscript fn "function" st1)) as [function|e|];
    try (exists (EvChat n req :: [] ++ svcs); split; [cbn [snd]; exact Hstop|];
         apply Hflat; reflexivity).
  destruct (fst (subscript function "type" st1)) as [type|e|];
    try (exists (EvChat n req :: [] ++ svcs); split; [cbn [snd]; exact Hstop|];
         apply Hflat; reflexivity).
  destruct (get_function_executor type) as [fe|e];
    [|exists (EvChat n req :: [] ++ svcs); split; [cbn [snd]; exact Hstop|];
      apply Hflat; reflexivity].
  destruct (json_loads (fc_arguments fc)) as [arguments|err];
    [|exists (EvChat n req :: [] ++ svcs);
      split; [destruct (isinstance err JSONDecodeError); cbn [snd];
              exact Hstop|];
      apply Hflat; reflexivity].
  cbv zeta.
  destruct (execute fe function arguments ui ex (world st1))
    as [[result|e] w2].
  2:{ exists (EvChat n req :: [EvExecute function arguments] ++ svcs).
      split.
      { cbn [snd trace set_world add_event]. rewrite Ht1, <- !app_assoc.
        reflexivity. }
      apply Hflat. reflexivity. }
  set (st2 := set_heap _ _).
  assert (heap st2 !! loc = Some (l ++ [function_message fc result])) as Hl2.
  { unfold st2, st1. cbn [heap set_heap set_world add_event].
    rewrite list_lookup_alter_eq, Hl. reflexivity. }
  destruct (IH ui loc ex (n + 1)%Z st2 _ Hl2) as (inner & Hti & Hfi & _).
  assert (trace (snd ((query f ui loc ex (n + 1) ≫= fun r => ret (snd r)) st2))
          = trace st2 ++ inner) as Htq.
  { rewrite run_bind.
    destruct (query f ui loc ex (n + 1) st2) as [[r|e|] st3]; exact Hti. }
  rewrite Htq.
  exists (EvChat n req :: (EvExecute function arguments :: inner) ++ svcs).
  split.
  { unfold st2. cbn [trace set_heap set_world add_event].
    rewrite Ht1, <- !app_assoc. reflexivity. }
  split.
  - change (messages_sent
              (EvChat n req :: (EvExecute function arguments :: inner)
                                ++ svcs))
      with (req_messages req :: messages_sent (inner ++ svcs)).
    rewrite Hreq, messages_sent_app, (messages_sent_services _ Hsv),
      app_nil_r.
    apply (fed_back_cons l (function_message fc result));
      [reflexivity|discriminate|discriminate|exact Hfi].
  - intros fs' _ Hfs. injection Hfs as <-. eauto.
Qed.

(** X21.  The results of the function calls are fed back: whatever the
    outcome of [query] on a list of messages, its first request carries
    that list, and every further request of the recursion carries the
    messages of the request before it followed by one more message, the
    [function] message of the call dispatched in between. *)
Theorem X21_function_results_are_fed_back (fuel : nat)
  (ui : conversation_input) (loc : nat) (ex : list exposed_entity) (n : Z)
  (st : state W) (l : list chat_message) :
  heap st !! loc = Some l ->
  exists evs,
    trace (snd (query fuel ui loc ex n st)) = trace st ++ evs /\
    fed_back l (messages_sent evs).
Proof.
  intros Hl. destruct (query_fed fuel ui loc ex n st l Hl) as (evs & H1 & H2 & _).
  eauto.
Qed.

(** *** The first request of a turn *)

Lemma respond_first_request fuel ui cid loc ex (st : state W) l fs :
  heap st !! loc = Some l ->
  fst (function_specs st) = Ret fs ->
  exists evs,
    trace (snd (respond (S fuel) ui cid loc ex st)) =
    trace st ++ EvChat 0 (chat_request_for (options st) fs l 0) :: evs.
Proof.
  intros Hl Hfs.
  destruct (query_fed (S fuel) ui loc ex 0%Z st l Hl) as (evs & Ht & _ & H).
  destruct (H fs (Nat.neq_succ_0 _) Hfs) as (evs' & ->).
  exists evs'. rewrite <- Ht. unfold respond. rewrite run_bind.
  unfold attempt.
  destruct (query (S fuel) ui loc ex 0 st) as [[r|e|] st1]; cbn [snd];
    [|apply (silent_respond_tail ui cid loc (Throws e))|reflexivity].
  apply (silent_respond_tail ui cid loc (Value r)).
Qed.

(** The name attached to the user's message: the name of the user the
    host finds, when the option to attach it is set and the look-up
    succeeds in the world [w]. *)
Definition attached_name (opts : entry_options) (ui : conversation_input)
  (w : W) (nm : option string) : Prop :=
  if attach_username opts then
    exists u w', auth_async_get_user (user_id ui) w = (Value u, w') /\
                 nm = match u with Some x => user_name x | None => None end
  else nm = None.

Lemma user_turn_first_request fuel opts ui cid loc ex (st : state W) l fs nm :
  heap st !! loc = Some l ->
  fst (function_specs st) = Ret fs ->
  attached_name opts ui (world st) nm ->
  exists evs,
    trace (snd (user_turn (S fuel) opts ui cid loc ex st)) =
    trace st ++
    EvChat 0 (chat_request_for (options st) fs (l ++ [user_message_of ui nm]) 0)
    :: evs.
Proof.
  intros Hl Hfs Hn. rewrite user_turn_run. cbv zeta.
  unfold attached_name in Hn. destruct (attach_username opts).
  - destruct Hn as (u & w' & -> & ->).
    match goal with
    | |- context [respond _ _ _ _ _ ?s] =>
        destruct (respond_first_request fuel ui cid loc ex s
                    (l ++ [user_message_of ui
                             match u with Some x => user_name x | None => None end])
                    fs) as (evs & Ht)
    end.
    + cbn [heap set_heap set_world]. rewrite list_lookup_alter_eq, Hl.
      reflexivity.
    + rewrite <- Hfs. apply (pure_function_specs st). reflexivity.
    + exists evs. exact Ht.
  - subst nm.
    match goal with
    | |- context [respond _ _ _ _ _ ?s] =>
        destruct (respond_first_request fuel ui cid loc ex s
                    (l ++ [user_message_of ui None]) fs) as (evs & Ht)
    end.
    + cbn [heap set_heap]. rewrite list_lookup_alter_eq, Hl. reflexivity.
    + rewrite <- Hfs. apply (pure_function_specs st). reflexivity.
    + exists evs. exact Ht.
Qed.

(** X19.  A turn on a stored conversation (the option "ignore
    conversation id" unset) sends the endpoint, in its first request,
    the whole stored history followed by the user's message. *)
Theorem X19_stored_history_is_sent (fuel : nat) (ui : conversation_input)
  (st : state W) (c : string) (loc : nat) (old : list chat_message)
  (ex : list exposed_entity) (fs : list json)
  (nm : option string) :
  conversation_id ui = Some c ->
  history st !! c = Some loc ->
  heap st !! loc = Some old ->
  ignore_convoid (options st) = false ->
  fst (get_exposed_entities st) = Ret ex ->
  fst (function_specs st) = Ret fs ->
  attached_name (options st) ui (world st) nm ->
  exists evs,
    trace (snd (async_process (S fuel) ui st)) =
    trace st ++
    EvChat 0
      (chat_request_for (options st) fs
         (old ++ [{| role := "user"; content := Some (text ui);
                     name := nm; fcall := None |}]) 0) :: evs.
Proof.
  intros Hc Hh Hl Hi Hex Hfs Hn.
  assert (stored_list ui st = Some loc) as Hs.
  { unfold stored_list. rewrite Hc. exact Hh. }
  rewrite async_process_run, Hex, (open_conversation_stored _ _ _ _ Hs), Hi.
  apply (user_turn_first_request fuel (options st) ui (conversation_id ui)
           loc ex (set_heap (heap st ++ [[]]) st) old fs nm).
  - cbn [heap set_heap]. apply lookup_app_l_Some, Hl.
  - rewrite <- Hfs. apply (pure_function_specs st). reflexivity.
  - exact Hn.
Qed.

(** X20.  The first turn of a conversation (its id is not stored) sends
    the endpoint, in its first request, two messages: the system message
    with the rendered prompt, after the line with the user's name when
    that option is set and the user has a name, and the user's
    message. *)
Theorem X20_new_conversation_sends_the_prompt (fuel : nat)
  (ui : conversation_input) (st : state W) (ex : list exposed_entity)
  (fs : list json) (u : option user) (w2 : W) (p : string)
  (nm : option string) :
  stored_list ui st = None ->
  fst (get_exposed_entities st) = Ret ex ->
  fst (function_specs st) = Ret fs ->
  auth_async_get_user (user_id ui)
    (if ignore_convoid (options st) then world st
     else snd (ulid (world st))) = (Value u, w2) ->
  template_async_render (prompt (options st)) ex w2 = Value p ->
  attached_name (options st) ui w2 nm ->
  exists evs,
    trace (snd (async_process (S fuel) ui st)) =
    trace st ++
    EvChat 0
      (chat_request_for (options st) fs
         [{| role := "system";
             content :=
               Some (if attach_username_to_prompt (options st) then
                       match u with
                       | Some {| user_name := Some n |} =>
                           "User's name: " +:+ n +:+ String PyStr.nl p
                       | _ => p
                       end
                     else p);
             name := None; fcall := None |};
          {| role := "user"; content := Some (text ui);
             name := nm; fcall := None |}] 0) :: evs.
Proof.
  intros Hs Hex Hfs Hu Hp Hn.
  rewrite async_process_run, Hex, (open_conversation_fresh _ _ _ Hs).
  cbv zeta.
  destruct (ignore_convoid (options st)); cbn [world set_world set_heap];
    rewrite Hu, Hp;
    match goal with
    | |- context [user_turn _ ?o ?i ?cid ?loc _ ?s] =>
        destruct (user_turn_first_request fuel o i cid loc ex s
                    [system_message_of (options st) u p] fs nm)
          as (evs & Ht);
          [cbn [heap set_heap set_world];
           apply (list_lookup_middle (heap st ++ [[]]) []);
           rewrite length_app; cbn; lia
          |rewrite <- Hfs; apply (pure_function_specs st); reflexivity
          |exact Hn
          |exists evs; exact Ht]
    end.
Qed.

End FeedFacts.

(** ** Arguments that cannot be read *)

Section ParseFailure.

Context {W : Type} {host : Host W}.

(** The turn on [ui] in [st] comes to call [query]: the exposed
    entities [ex] are listed, the conversation is found or opened, with
    the id [cid], the list [loc] and the input [ui'], the user is looked
    up if the name is to be attached, and the user's message is appended
    to the list, which gives the state [st2]. *)
Definition asks (ui : conversation_input) (st : state W)
  (ui' : conversation_input) (cid : option string) (loc : nat)
  (ex : list exposed_entity) (st2 : state W) : Prop :=
  exists st1 nm,
    fst (get_exposed_entities st) = Ret ex /\
    open_conversation ui ex st = (Ret (inl (cid, loc, ui')), st1) /\
    (if attach_username (options st) then
       exists u w1,
         auth_async_get_user (user_id ui') (world st1) = (Value u, w1) /\
         nm = match u with Some x => user_name x | None => None end /\
         st2 = set_heap
                 (alter (fun l => l ++ [user_message_of ui' nm]) loc
                    (heap st1)) (set_world w1 st1)
     else
       nm = None /\
       st2 = set_heap
               (alter (fun l => l ++ [user_message_of ui' nm]) loc
                  (heap st1)) st1).

(** From there on the turn is the call of [query] with its handlers. *)
Lemma asks_run ui (st : state W) ui' cid loc ex st2 fuel :
  asks ui st ui' cid loc ex st2 ->
  async_process fuel ui st = respond fuel ui' cid loc ex st2.
Proof.
  intros (st1 & nm & Hex & Ho & Hn).
  rewrite async_process_run, Hex, Ho, user_turn_run. cbv zeta.
  destruct (attach_username (options st)).
  - destruct Hn as (u & w1 & -> & -> & ->). reflexivity.
  - destruct Hn as (-> & ->). reflexivity.
Qed.


End ParseFailure.



(** ** The further properties at concrete turns *)

(** X1 at the set-up of an entry with a good key on a host without
    data of the integration: after the unloading the agents are as
    before, and the empty dictionary is left. *)
Lemma X1_witness :
  let h := {| hass_world := {| Scenario.script := []; Scenario.ulids := 0 |};
              hass_data := None; conversation_agents := ∅ |} in
  let entry := {| entry_id := "e1"; api_key := "sk-good"; base_url := None;
                  api_version := None; skip_authentication := false |} in
  let h1 := snd (async_setup_entry (host := Scenario.obedient_host) entry h) in
  exists h2,
    async_unload_entry entry h1 = (Ret true, h2) /\
    hass_world h2 = hass_world h1 /\
    hass_data h2 = Some ∅ /\
    conversation_agents h2 = ∅.
Proof.
  cbv zeta.
  destruct (X1_unload_undoes_setup (host := Scenario.obedient_host)
              {| entry_id := "e1"; api_key := "sk-good"; base_url := None;
                 api_version := None; skip_authentication := false |}
              {| hass_world := {| Scenario.script := []; Scenario.ulids := 0 |};
                 hass_data := None; conversation_agents := ∅ |}
              _ eq_refl)
    as (h2 & H1 & H2 & _ & _ & _ & H6 & H7).
  exists h2. split; [exact H1|]. split; [exact H2|].
  split; [exact (H6 eq_refl)|exact (H7 eq_refl)].
Defined.

(** X2 on a host that was never set up, at an entry that was not set up
    on a host that was, and at an entry unloaded twice. *)
Lemma X2_witness :
  let h := {| hass_world := {| Scenario.script := []; Scenario.ulids := 0 |};
              hass_data := None; conversation_agents := ∅ |} in
  let entry id := {| entry_id := id; api_key := "sk-good"; base_url := None;
                     api_version := None; skip_authentication := false |} in
  let h1 := snd (async_setup_entry (host := Scenario.obedient_host)
                   (entry "e1") h) in
  let h2 := snd (async_unload_entry (entry "e1") h1) in
  async_unload_entry (entry "e1") h = (Raise (Exn KeyError DOMAIN), h) /\
  async_unload_entry (entry "e2") h1 = (Raise (Exn KeyError "e2"), h1) /\
  fst (async_unload_entry (entry "e1") h1) = Ret true /\
  async_unload_entry (entry "e1") h2 = (Raise (Exn KeyError "e1"), h2).
Proof.
  cbv zeta.
  set (e1 := {| entry_id := "e1"; api_key := "sk-good"; base_url := None;
                api_version := None; skip_authentication := false |}).
  set (e2 := {| entry_id := "e2"; api_key := "sk-good"; base_url := None;
                api_version := None; skip_authentication := false |}).
  set (h := {| hass_world := {| Scenario.script := []; Scenario.ulids := 0 |};
               hass_data := None; conversation_agents := ∅ |}).
  set (h1 := snd (async_setup_entry (host := Scenario.obedient_host) e1 h)).
  split; [|split; [|split]].
  - exact (proj1 (X2_unload_without_data_raises_KeyError e1 h) eq_refl).
  - apply (proj1 (proj2 (X2_unload_without_data_raises_KeyError e2 h1))
             (<["e1" := <[DATA_AGENT :=
                            DataAgent {| agent_entry := e1;
                                         agent_client :=
                                           AsyncOpenAI "sk-good" None |}]>
                          (<[CONF_API_KEY := DataStr "sk-good"]> ∅)]> ∅));
      reflexivity.
  - reflexivity.
  - exact (proj1 (proj2 (proj2 (X2_unload_without_data_raises_KeyError e1 h1))
                    true (snd (async_unload_entry e1 h1)) eq_refl)).
Defined.

(** A host whose [yaml.safe_load] reads the YAML texts that are JSON
    texts. *)
Definition json_yaml_host : Host Scenario.env :=
  {| json_loads := Scenario.loads;
     py_str := py_str (Host := Scenario.obedient_host);
     str_exn := exn_arg;
     yaml_safe_load := fun s =>
       match Scenario.loads s with
       | Value v => Value v
       | Throws _ => Throws (Exn Exception "yaml")
       end;
     DEFAULT_CONF_FUNCTIONS := JArr [Scenario.lookup_function];
     client_init := Scenario.init;
     get_function_executor :=
       get_function_executor (Host := Scenario.obedient_host);
     to_arguments := to_arguments (Host := Scenario.obedient_host);
     execute := execute (Host := Scenario.obedient_host);
     chat_completions_create := Scenario.endpoint true;
     services_async_call := Scenario.host_services [];
     auth_async_get_user := fun _ w => (Value None, w);
     template_async_render := fun raw _ _ => Value raw;
     states_async_all := fun _ => [];
     states_get := fun _ _ => None;
     async_should_expose := fun _ _ => true;
     entity_registry_aliases := fun _ _ => None;
     ulid := ulid (Host := Scenario.obedient_host);
     validate_authentication :=
       validate_authentication (Host := Scenario.obedient_host);
     is_azure := is_azure (Host := Scenario.obedient_host) |}.

(** The agent with the option [functions] set to [f]. *)
Definition configured (f : string) (answers : list chat_choice)
  : state Scenario.env :=
  {| world := {| Scenario.script := answers; Scenario.ulids := 0 |};
     options :=
       {| prompt := "You are a home."; chat_model := "gpt";
          max_tokens := 150; top_p := JNum "1"; temperature := JNum "0.5";
          max_function_calls_per_conversation := 2;
          functions := Some f;
          attach_username := false; attach_username_to_prompt := false;
          ignore_convoid := false |};
     heap := []; history := ∅; trace := [] |}.

(** X3 at the option [null], which is loaded as [None] and returned as
    it is, so that the turn raises the [TypeError] of [query]; at the
    option [7], which is no list; at a setting without a spec, which is
    returned and makes [query] raise [KeyError]; and at a list whose
    second setting has a type without executor. *)
Lemma X3_witness :
  let ui := Scenario.hears "Hi" None in
  let no_spec := dq "[{'function': {'type': 'native'}}]" in
  let no_executor :=
    dq "[{'function': {'type': 'native'}}, {'function': {'type': 'rest'}}]" in
  fst (get_functions (host := json_yaml_host) (configured "null" []))
  = Ret JNull /\
  fst (async_process (host := json_yaml_host) 2 ui
         (configured "null" [Scenario.says "Hello"]))
  = Raise (Exn TypeError "object is not iterable") /\
  fst (get_functions (host := json_yaml_host) (configured "7" []))
  = Raise (Exn FunctionLoadFailed "") /\
  fst (get_functions (host := json_yaml_host) (configured no_spec []))
  = Ret (JArr [JObj [("function", JObj [("type", JStr "native")])]]) /\
  fst (query (host := json_yaml_host) 1 ui 0 [] 0
         (configured no_spec [Scenario.says "Hello"]))
  = Raise (Exn KeyError "spec") /\
  fst (get_functions (host := json_yaml_host) (configured no_executor []))
  = Raise (Exn FunctionNotFound "type").
Proof.
  cbv zeta. split; [|split; [|split; [|split; [|split]]]].
  - exact (proj2 (X3_get_functions_outcome (host := json_yaml_host)
                    (configured "null" []))).
  - vm_compute. reflexivity.
  - exact (proj2 (X3_get_functions_outcome (host := json_yaml_host)
                    (configured "7" []))).
  - apply (proj1 (proj2 (X3_get_functions_outcome (host := json_yaml_host)
                           (configured
                              (dq "[{'function': {'type': 'native'}}]") [])))).
    constructor; [|constructor].
    exists [("function", JObj [("type", JStr "native")])],
      (JObj [("type", JStr "native")]), (JStr "native"), "native",
      (JObj [("type", JStr "native")]).
    repeat split; reflexivity.
  - vm_compute. reflexivity.
  - apply (proj1 (proj2 (proj2
             (X3_get_functions_outcome (host := json_yaml_host)
                (configured
                   (dq "[{'function': {'type': 'native'}}, {'function': {'type': 'rest'}}]")
                   []))))
             [JObj [("function", JObj [("type", JStr "native")])]]
             [JObj [("function", JObj [("type", JStr "native")])]]
             (JObj [("function", JObj [("type", JStr "rest")])]) []
             (Exn FunctionNotFound "type") eq_refl).
    + constructor; [|constructor].
      exists [("function", JObj [("type", JStr "native")])],
        (JObj [("type", JStr "native")]), (JStr "native"), "native",
        (JObj [("type", JStr "native")]).
      repeat split; reflexivity.
    + exists [("function", JObj [("type", JStr "rest")])],
        (JObj [("type", JStr "rest")]), (JStr "rest").
      split; [reflexivity|]. left. reflexivity.
Defined.

(** An answer with white space around it, a backslash and a directive. *)
Definition untidy_answer : string :=
  " Done\. $ActionRequired " +:+ Scenario.light_directive +:+ "  ".

(** X6 at that answer: what is returned is [Done.]. *)
Lemma X6_witness :
  let st := Scenario.start 2 false [Scenario.says untidy_answer] in
  let ui := Scenario.hears "turn on" None in
  exists t,
    content (Scenario.assistant_message "Done.") = Some t /\
    PyStr.strip t = t /\
    ~ In "\"%char (list_ascii_of_string t) /\
    (forall x, Spec.one_line_braced x -> ~ Spec.occurs x t) /\
    extract_json_objects (host := Scenario.obedient_host) t = Value [].
Proof.
  cbv zeta.
  eapply (X6_returned_content_is_tidy (host := Scenario.obedient_host)
            2 (Scenario.hears "turn on" None) 0 [] 0
            (Scenario.start 2 false [Scenario.says untidy_answer])).
  vm_compute. reflexivity.
Defined.

(** X7 at a text with a directive and with braces that hold no JSON. *)
Lemma X7_witness :
  let text := "a " +:+ Scenario.light_directive +:+ " b {x}" in
  let x := Scenario.light_directive in
  extract_json_objects (host := Scenario.obedient_host) text = Value [x] /\
  Spec.occurs x text /\
  Spec.one_line_braced x /\
  Spec.closings x = 1 /\
  (exists v, json_loads (Host := Scenario.obedient_host) x = Value v) /\
  length [x] <= Spec.closings text.
Proof.
  cbv zeta. split; [vm_compute; reflexivity|].
  apply (X7_extracted_objects (host := Scenario.obedient_host)).
  - vm_compute. reflexivity.
  - left. reflexivity.
Defined.

(** X9 at a directive without a service and at one without a dot. *)
Lemma X9_witness :
  let st := Scenario.start 2 false [] in
  call_service (host := Scenario.obedient_host) Scenario.no_key_directive st
  = (Raise (Exn KeyError "service"), st) /\
  call_service (host := Scenario.obedient_host) Scenario.no_dot_directive st
  = (Raise (Exn IndexError "list index out of range"), st).
Proof.
  cbv zeta. split.
  - apply (proj1 (X9_malformed_directive (host := Scenario.obedient_host)
                    Scenario.no_key_directive
                    [("entity_id", JStr "light.kitchen")]
                    (Scenario.start 2 false []) eq_refl)).
    reflexivity.
  - apply (proj1 (proj2 (proj2
             (X9_malformed_directive (host := Scenario.obedient_host)
                Scenario.no_dot_directive
                [("service", JStr "restart"); ("force", JBool true)]
                (Scenario.start 2 false []) eq_refl))) "restart");
      [reflexivity|reflexivity|discriminate|discriminate|discriminate].
Defined.

(** The agent after a first turn that stored the conversation [ulid0]. *)
Definition after_first_turn : state Scenario.env :=
  snd (async_process (host := Scenario.obedient_host) 2
         (Scenario.hears "Hi" None)
         (Scenario.start 2 false [Scenario.says "Hello"])).

(** X12 at a second turn on the stored conversation, the option set. *)
Lemma X12_witness :
  let st := Scenario.set_ignore_convoid true
              (Scenario.next_turn [Scenario.says "Again"] after_first_turn) in
  let ui := Scenario.hears "again" (Some "ulid0") in
  let out := async_process (host := Scenario.obedient_host) 2 ui st in
  history (snd out) = history st /\
  (forall loc l, heap st !! loc = Some l -> heap (snd out) !! loc = Some l) /\
  (forall r, fst out = Ret r -> result_conversation_id r = None).
Proof.
  cbv zeta.
  apply (X12_ignore_remembers_nothing (host := Scenario.obedient_host)).
  reflexivity.
Defined.

(** X13 at a second turn that fails: the endpoint asks for a function
    that is not configured, the turn answers with an error result, and the
    user's message is in the stored list all the same. *)
Lemma X13_witness :
  let st := Scenario.next_turn [Scenario.calls "nope" (dq "{}")]
              after_first_turn in
  let ui := Scenario.hears "again" (Some "ulid0") in
  let out := async_process (host := Scenario.obedient_host) 2 ui st in
  fst out = Ret {| response := ErrorResponse "en" "Something went wrong: nope";
                   result_conversation_id := Some "ulid0" |} /\
  exists um more,
    role um = "user" /\ content um = Some "again" /\
    heap (snd out) !! 1 =
      Some ([Scenario.system_message; Scenario.user_message "Hi";
             Scenario.assistant_message "Hello"] ++ um :: more) /\
    history (snd out) !! "ulid0" = Some 1.
Proof.
  cbv zeta. split; [vm_compute; reflexivity|].
  apply (X13_user_message_stays_stored (host := Scenario.obedient_host)
           2 (Scenario.hears "again" (Some "ulid0"))
           (Scenario.next_turn [Scenario.calls "nope" (dq "{}")]
              after_first_turn)
           "ulid0" 1
           [Scenario.system_message; Scenario.user_message "Hi";
            Scenario.assistant_message "Hello"] []);
    try (vm_compute; reflexivity).
  discriminate.
Defined.

(** X14 at the first turn of a conversation. *)
Lemma X14_witness :
  let st := Scenario.start 2 false [Scenario.says "Hello"] in
  let ui := Scenario.hears "Hi" None in
  let r := {| response := Speech "en" (Some "Hello");
              result_conversation_id := Some "ulid0" |} in
  let st' := snd (async_process (host := Scenario.obedient_host) 2 ui st) in
  let c := fst (ulid (Host := Scenario.obedient_host) (world st)) in
  let loc := S (length (heap st)) in
  result_conversation_id r = Some c /\
  history st' = <[c := loc]> (history st) /\
  (exists sys um more answer t,
      heap st' !! loc = Some (sys :: um :: more ++ [answer]) /\
      role sys = "system" /\
      role um = "user" /\ content um = Some (text ui) /\
      Forall (fun m => role m = "function") more /\
      content answer = Some t /\
      (Some "Hello" = Some t \/ Some "Hello" = Some (t +:+ SERVICE_EXECUTED))) /\
  (forall i l, heap st !! i = Some l -> heap st' !! i = Some l).
Proof.
  cbv zeta.
  apply (X14_new_conversation_is_stored (host := Scenario.obedient_host)
           2 (Scenario.hears "Hi" None)
           (Scenario.start 2 false [Scenario.says "Hello"])
           (snd (async_process (host := Scenario.obedient_host) 2
                   (Scenario.hears "Hi" None)
                   (Scenario.start 2 false [Scenario.says "Hello"])))
           {| response := Speech "en" (Some "Hello");
              result_conversation_id := Some "ulid0" |} "en" (Some "Hello"));
    vm_compute; reflexivity.
Defined.

(** X15 at the second turn of X13, which fails: the history is the
    same, the stored list has the user's message appended, and the other
    list is as it was. *)
Lemma X15_witness :
  let st := Scenario.next_turn [Scenario.calls "nope" (dq "{}")]
              after_first_turn in
  let ui := Scenario.hears "again" (Some "ulid0") in
  let out := async_process (host := Scenario.obedient_host) 2 ui st in
  let old := [Scenario.system_message; Scenario.user_message "Hi";
              Scenario.assistant_message "Hello"] in
  fst out = Ret {| response := ErrorResponse "en" "Something went wrong: nope";
                   result_conversation_id := Some "ulid0" |} /\
  history (snd out) = history st /\
  heap st !! 1 = Some old /\
  heap (snd out) !! 1 = Some (old ++ [Scenario.user_message "again"]) /\
  (exists more, heap (snd out) !! 0 = Some ([] ++ more) /\
                (more <> [] -> stored_list ui st = Some 0 /\
                               ignore_convoid (options st) = false)).
Proof.
  cbv zeta. split; [vm_compute; reflexivity|].
  pose proof (X15_only_speech_is_stored (host := Scenario.obedient_host)
                2 (Scenario.hears "again" (Some "ulid0"))
                (Scenario.next_turn [Scenario.calls "nope" (dq "{}")]
                   after_first_turn)) as [Hl Hh].
  split; [exact (proj2 (proj2 Hh))|].
  split; [vm_compute; reflexivity|]. split; [vm_compute; reflexivity|].
  apply Hl. vm_compute. reflexivity.
Defined.

(** A host whose prompt template does not render. *)
Definition broken_template_host : Host Scenario.env :=
  {| json_loads := Scenario.loads;
     py_str := py_str (Host := Scenario.obedient_host);
     str_exn := exn_arg;
     yaml_safe_load := yaml_safe_load (Host := Scenario.obedient_host);
     DEFAULT_CONF_FUNCTIONS := JArr [Scenario.lookup_function];
     client_init := Scenario.init;
     get_function_executor :=
       get_function_executor (Host := Scenario.obedient_host);
     to_arguments := to_arguments (Host := Scenario.obedient_host);
     execute := execute (Host := Scenario.obedient_host);
     chat_completions_create := Scenario.endpoint true;
     services_async_call := Scenario.host_services [];
     auth_async_get_user := fun _ w => (Value None, w);
     template_async_render := fun _ _ _ =>
       Throws (Exn TemplateError "unexpected end of template");
     states_async_all := fun _ => [];
     states_get := fun _ _ => None;
     async_should_expose := fun _ _ => true;
     entity_registry_aliases := fun _ _ => None;
     ulid := ulid (Host := Scenario.obedient_host);
     validate_authentication :=
       validate_authentication (Host := Scenario.obedient_host);
     is_azure := is_azure (Host := Scenario.obedient_host) |}.

(** X16 at a first turn on that host. *)
Lemma X16_witness :
  let st := Scenario.start 2 false [Scenario.says "Hello"] in
  let ui := Scenario.hears "Hi" None in
  exists st',
    async_process (host := broken_template_host) 2 ui st =
    (Ret {| response :=
              ErrorResponse "en"
                ("Sorry, I had a problem with my template: "
                 +:+ "unexpected end of template");
            result_conversation_id := Some "ulid0" |}, st') /\
    trace st' = trace st /\ history st' = history st.
Proof.
  cbv zeta.
  apply (X16_template_error_is_reported (host := broken_template_host)
           2 (Scenario.hears "Hi" None)
           (Scenario.start 2 false [Scenario.says "Hello"]) [] None
           {| Scenario.script := [Scenario.says "Hello"]; Scenario.ulids := 1 |}
           (Exn TemplateError "unexpected end of template"));
    reflexivity.
Defined.

(** X18 at an answer with two directives, both called. *)
Lemma X18_witness :
  let st := Scenario.start 2 false [] in
  let out := postprocess (host := Scenario.open_host)
               (Scenario.assistant_message Scenario.two_directives) st in
  let services_called :=
    [[("entity_id", JStr "light.kitchen"); ("service", JStr "light.turn_on")];
     [("entity_id", JStr "script.bedtime");
      ("variables", JObj [("delay", JNum "5")]);
      ("service", JStr "script.turn_on")]] in
  exists evs,
    trace (snd out) = trace st ++ evs /\
    Forall2
      (fun rec ev =>
         exists s domain service_name more data,
           ev = EvService domain service_name data /\
           PyStr.split "." s = domain :: service_name :: more /\
           rec = Dict.set "service" (JStr s) data /\
           Dict.get "service" rec = Some (JStr s))
      services_called evs.
Proof.
  cbv zeta.
  eapply (X18_reported_services_were_called (host := Scenario.open_host)
            (Scenario.assistant_message Scenario.two_directives)).
  vm_compute. reflexivity.
Defined.

(** X19 at a second turn on the stored conversation. *)
Lemma X19_witness :
  let st := Scenario.next_turn [Scenario.says "Again"] after_first_turn in
  let ui := Scenario.hears "again" (Some "ulid0") in
  exists evs,
    trace (snd (async_process (host := Scenario.obedient_host) 2 ui st)) =
    trace st ++
    EvChat 0
      (chat_request_for (options st) [JObj [("name", JStr "lookup")]]
         ([Scenario.system_message; Scenario.user_message "Hi";
           Scenario.assistant_message "Hello"]
          ++ [{| role := "user"; content := Some (text ui);
                 name := None; fcall := None |}]) 0) :: evs.
Proof.
  cbv zeta.
  apply (X19_stored_history_is_sent (host := Scenario.obedient_host)
           1 (Scenario.hears "again" (Some "ulid0"))
           (Scenario.next_turn [Scenario.says "Again"] after_first_turn)
           "ulid0" 1
           [Scenario.system_message; Scenario.user_message "Hi";
            Scenario.assistant_message "Hello"] []
           [JObj [("name", JStr "lookup")]] None);
    vm_compute; reflexivity.
Defined.

(** X20 at the first turn of a conversation. *)
Lemma X20_witness :
  let st := Scenario.start 2 false [Scenario.says "Hello"] in
  let ui := Scenario.hears "Hi" None in
  exists evs,
    trace (snd (async_process (host := Scenario.obedient_host) 2 ui st)) =
    trace st ++
    EvChat 0
      (chat_request_for (options st) [JObj [("name", JStr "lookup")]]
         [{| role := "system";
             content :=
               Some (if attach_username_to_prompt (options st) then
                       match @None user with
                       | Some {| user_name := Some n |} =>
                           "User's name: " +:+ n
                           +:+ String PyStr.nl "You are a home."
                       | _ => "You are a home."
                       end
                     else "You are a home.");
             name := None; fcall := None |};
          {| role := "user"; content := Some (text ui);
             name := None; fcall := None |}] 0) :: evs.
Proof.
  cbv zeta.
  apply (X20_new_conversation_sends_the_prompt
           (host := Scenario.obedient_host)
           1 (Scenario.hears "Hi" None)
           (Scenario.start 2 false [Scenario.says "Hello"]) []
           [JObj [("name", JStr "lookup")]] None
           {| Scenario.script := [Scenario.says "Hello"]; Scenario.ulids := 1 |}
           "You are a home." None);
    vm_compute; reflexivity.
Defined.

(** X21 at a turn with one function call: the second request carries the
    messages of the first and the result of the function. *)
Lemma X21_witness :
  let l := [Scenario.user_message "look it up"] in
  let st := set_heap [l]
              (Scenario.start 2 false
                 [Scenario.calls "lookup" (dq "{'q': 1}");
                  Scenario.says "Found."]) in
  let ui := Scenario.hears "look it up" None in
  let out := query (host := Scenario.obedient_host) 3 ui 0 [] 0 st in
  messages_sent (trace (snd out)) =
    [l; l ++ [{| role := "function"; content := Some "result";
                 name := Some "lookup"; fcall := None |}]] /\
  exists evs,
    trace (snd out) = trace st ++ evs /\ fed_back l (messages_sent evs).
Proof.
  cbv zeta. split; [vm_compute; reflexivity|].
  apply (X21_function_results_are_fed_back (host := Scenario.obedient_host)).
  reflexivity.
Defined.
